(** * A camera frame pipeline: constraints, stream session, LUT engine,
    filter engine, capture and gallery

  Shallow embedding of the JavaScript modules
  [js/constraints.js], [js/camera.js], [js/lut-engine.js],
  [js/filters.js], [js/capture.js] and [js/gallery.js], together with
  the properties their specification states; then of [js/ui.js], of
  the wiring of [js/app.js] and of the activation of
  [service-worker.js], with further properties of the code.

  JavaScript Numbers are IEEE 754 binary64 values; they are modelled by
  Rocq's primitive [float]s, whose operations are specified by
  [FloatAxioms] against [SpecFloat].  Pixel buffers are
  [Uint8ClampedArray]s: flat lists of bytes (as [Z]) read and written by
  index, with the typed-array conventions (a read out of range yields
  [undefined], a write out of range is dropped, a stored Number is
  clamped to 0..255 and rounded to the nearest integer, ties to even). *)

From Stdlib Require Import ZArith Bool Lia Floats Uint63.
From stdpp Require Import base option list strings gmap.

Local Open Scope Z_scope.

(* ================================================================== *)
(** * JavaScript Numbers *)
(* ================================================================== *)

Module JS.

(** [Math.max(a, b)]: NaN if either argument is NaN; +0 is larger
    than -0. *)
Definition Math_max (a b : float) : float :=
  if PrimFloat.is_nan a || PrimFloat.is_nan b then PrimFloat.nan
  else if PrimFloat.ltb a b then b
  else if PrimFloat.ltb b a then a
  else if PrimFloat.get_sign a then b else a.

(** [Math.min(a, b)]: NaN if either argument is NaN; -0 is smaller
    than +0. *)
Definition Math_min (a b : float) : float :=
  if PrimFloat.is_nan a || PrimFloat.is_nan b then PrimFloat.nan
  else if PrimFloat.ltb a b then a
  else if PrimFloat.ltb b a then b
  else if PrimFloat.get_sign a then a else b.

(** [x !== 0] on Numbers: false for both zeros, true for NaN. *)
Definition strict_ne_zero (x : float) : bool :=
  negb (PrimFloat.eqb x 0%float).

(** The Number a byte of a typed array reads as. *)
Definition of_byte (z : Z) : float := PrimFloat.of_uint63 (Uint63.of_Z z).

(** The Number an integer below 2^63 in magnitude converts to. *)
Definition of_int (z : Z) : float :=
  if z <? 0 then PrimFloat.opp (PrimFloat.of_uint63 (Uint63.of_Z (- z)))
  else PrimFloat.of_uint63 (Uint63.of_Z z).

(** An integral Number: what [Math.floor] returns. *)
Inductive integral :=
| Fin (z : Z)
| Inf (negative : bool)
| NaN.

(** [Math.floor(x)], exact on the mantissa and exponent of [x]: a
    shift to the left by a negative amount is a floor division. *)
Definition Math_floor (x : float) : integral :=
  match Prim2SF x with
  | S754_nan => NaN
  | S754_infinity s => Inf s
  | S754_zero _ => Fin 0
  | S754_finite s m e => Fin (Z.shiftl (cond_Zopp s (Z.pos m)) e)
  end.

(** [Math.min(a, v)] for an integer [a] and an integral Number [v]. *)
Definition Math_min_int (a : Z) (v : integral) : integral :=
  match v with
  | Fin z => Fin (Z.min a z)
  | Inf false => Fin a
  | Inf true => Inf true
  | NaN => NaN
  end.

(** [Math.max(a, v)] for an integer [a] and an integral Number [v]. *)
Definition Math_max_int (a : Z) (v : integral) : integral :=
  match v with
  | Fin z => Fin (Z.max a z)
  | Inf false => Inf false
  | Inf true => Fin a
  | NaN => NaN
  end.

(** The integer an integral Number denotes, when it is finite. *)
Definition finite (v : integral) : option Z :=
  match v with
  | Fin z => Some z
  | _ => None
  end.

End JS.


(* ================================================================== *)
(** * Typed arrays of clamped bytes *)
(* ================================================================== *)

Module TypedArray.

(** The integer nearest to [m * 2^e], ties to the even neighbour,
    computed exactly on the mantissa and exponent of a positive finite
    binary64 value. *)
Definition round_half_even (m : positive) (e : Z) : Z :=
  if 0 <=? e then Z.pos m * 2 ^ e
  else
    let d := 2 ^ (- e) in
    let q := Z.pos m / d in
    let r := Z.pos m mod d in
    match 2 * r ?= d with
    | Lt => q
    | Gt => q + 1
    | Eq => if Z.even q then q else q + 1
    end.

(** ECMAScript [ToUint8Clamp]: the conversion applied to a Number
    stored into a [Uint8ClampedArray]. *)
Definition ToUint8Clamp (x : float) : Z :=
  if PrimFloat.is_nan x then 0
  else if PrimFloat.leb x 0%float then 0
  else if PrimFloat.leb 255%float x then 255
  else match Prim2SF x with
       | S754_finite _ m e => round_half_even m e
       | _ => 0
       end.

(** [data[i]] as a Number; [undefined] (an index out of range) takes
    part in arithmetic as NaN. *)
Definition get (data : list Z) (i : nat) : float :=
  match data !! i with
  | Some z => JS.of_byte z
  | None => PrimFloat.nan
  end.

(** [data[i] = x]; a write out of range is dropped. *)
Definition set (data : list Z) (i : nat) (x : float) : list Z :=
  <[ i := ToUint8Clamp x ]> data.

(** The indices [0, 4, 8, ...] below [n] that the loop
    [for (let i = 0; i < n; i += 4)] visits. *)
Definition offsets (n : nat) : list nat :=
  (fun k => 4 * k)%nat <$> seq 0 (Nat.div (n + 3) 4).

(** [for (let i = 0; i < data.length; i += 4) body(i)]. *)
Definition for_each_pixel (body : nat -> list Z -> list Z)
    (data : list Z) : list Z :=
  foldl (fun d i => body i d) data (offsets (length data)).

(** Every element is a byte. *)
Definition bytes (data : list Z) : Prop :=
  Forall (fun z => 0 <= z <= 255) data.

End TypedArray.

(* ================================================================== *)
(** * Canvas 2D drawing surface *)
(* ================================================================== *)

Module Canvas.

(** The colour [rgba(r, g, b, a)] a fill style is set to. *)
Record rgba := { red : Z; green : Z; blue : Z; alpha : float }.

(** What is composited onto the surface: a uniform colour, or an
    image of the size of the surface, given by its bytes. *)
Inductive source :=
| Fill (style : rgba)
| Image (px : list Z).

(** What the context receives, in order: calls of its methods and
    assignments to its properties. *)
Inductive call :=
| DrawImage (w h : Z)
| SetGlobalCompositeOperation (op : string)
| SetFillStyle (style : rgba)
| FillRect (x y w h : Z)
| GetImageData (x y w h : Z)
| PutImageData (x y : Z).

(** The surface of a canvas of width [w] and height [h] holds its
    [4 * w * h] bytes, row by row, four per pixel. *)
Record context2d := {
  pixels : list Z;
  globalCompositeOperation : string;
  fillStyle : rgba;
  calls : list call }.

Record canvas := { width : Z; height : Z; ctx : context2d }.

(** The video element: its readiness and the frame it currently
    shows, scaled to a given width and height. *)
Record video := {
  readyState : Z;
  videoWidth : Z;
  videoHeight : Z;
  frame : Z -> Z -> list Z }.

Definition set_pixels (c : context2d) (px : list Z) : context2d :=
  {| pixels := px;
     globalCompositeOperation := globalCompositeOperation c;
     fillStyle := fillStyle c;
     calls := calls c |}.

Definition log (c : context2d) (k : call) : context2d :=
  {| pixels := pixels c;
     globalCompositeOperation := globalCompositeOperation c;
     fillStyle := fillStyle c;
     calls := calls c ++ [k] |}.

(** [ctx.globalCompositeOperation = op], for an operation the
    platform knows. *)
Definition set_globalCompositeOperation (c : context2d) (op : string)
    : context2d :=
  log {| pixels := pixels c;
         globalCompositeOperation := op;
         fillStyle := fillStyle c;
         calls := calls c |}
      (SetGlobalCompositeOperation op).

(** The alpha of a colour as the platform parses it: a value outside
    0..1 is a valid alpha, and is clamped to that range. *)
Definition clamp_alpha (a : float) : float :=
  if PrimFloat.ltb a 0%float then 0%float
  else if PrimFloat.ltb 1%float a then 1%float
  else a.

(** [ctx.fillStyle = `rgba(r,g,b,a)`], where the template prints the
    Number [a]: NaN and the infinities print as words, such a string
    is no colour and the assignment is ignored; any other Number
    prints as a number, and the style becomes the colour with its
    alpha clamped.  The log keeps the colour as the string words it. *)
Definition set_fillStyle (c : context2d) (s : rgba) : context2d :=
  log (if PrimFloat.is_finite (alpha s) then
         {| pixels := pixels c;
            globalCompositeOperation := globalCompositeOperation c;
            fillStyle := {| red := red s; green := green s;
                            blue := blue s;
                            alpha := clamp_alpha (alpha s) |};
            calls := calls c |}
       else c)
      (SetFillStyle s).

(** [ctx.getImageData(0, 0, w, h)]: a copy of the surface bytes. *)
Definition getImageData (c : context2d) (w h : Z)
    : list Z * context2d :=
  (pixels c, log c (GetImageData 0 0 w h)).

(** [ctx.putImageData(imageData, 0, 0)] *)
Definition putImageData (c : context2d) (data : list Z) : context2d :=
  log (set_pixels c data) (PutImageData 0 0).

Section Compositing.

(** How the platform composites a source over the whole surface
    under a composite operation: the operation, the source, and the
    bytes of the surface before. *)
Variable composite : string -> source -> list Z -> list Z.

(** [ctx.drawImage(video, 0, 0, w, h)]: the frame the video shows,
    scaled to the surface, is composited under the operation of the
    context. *)
Definition drawImage (c : context2d) (v : video) (w h : Z) : context2d :=
  log (set_pixels c
         (composite (globalCompositeOperation c) (Image (frame v w h))
                    (pixels c)))
      (DrawImage w h).

(** [ctx.fillRect(x, y, w, h)] over the whole surface. *)
Definition fillRect (c : context2d) (x y w h : Z) : context2d :=
  log (set_pixels c
         (composite (globalCompositeOperation c) (Fill (fillStyle c))
                    (pixels c)))
      (FillRect x y w h).

End Compositing.

End Canvas.

(* ================================================================== *)
(** * js/filters.js : FilterEngine *)
(* ================================================================== *)

Module Filters.
Import JS TypedArray Canvas.

Record FilterEngine := {
  exposureEV : float;
  activeFilter : string;
  _running : bool;
  _rafId : option nat }.

Definition constructor : FilterEngine :=
  {| exposureEV := 0%float;
     activeFilter := "none";
     _running := false;
     _rafId := None |}.

(** [setExposure(ev)] *)
Definition setExposure (this : FilterEngine) (ev : float) : FilterEngine :=
  {| exposureEV := Math_max (-2)%float (Math_min 2%float ev);
     activeFilter := activeFilter this;
     _running := _running this;
     _rafId := _rafId this |}.

(** [setFilter(name)] *)
Definition setFilter (this : FilterEngine) (name : string) : FilterEngine :=
  {| exposureEV := exposureEV this;
     activeFilter := name;
     _running := _running this;
     _rafId := _rafId this |}.

(** [resize()]: assigning the width or height of a canvas resets its
    context and clears the surface to transparent black. *)
Definition resize (v : video) (cv : canvas) : canvas :=
  if (videoWidth v =? 0) || (videoHeight v =? 0) then cv
  else
    {| width := videoWidth v;
       height := videoHeight v;
       ctx := {| pixels :=
                   replicate (Z.to_nat (4 * videoWidth v * videoHeight v)) 0;
                 globalCompositeOperation := "source-over";
                 fillStyle := {| red := 0; green := 0; blue := 0;
                                 alpha := 1%float |};
                 calls := calls (ctx cv) |} |}.

(** One iteration of the loop of [_grayscale] at offset [i]. *)
Definition grayscale_body (i : nat) (data : list Z) : list Z :=
  let r := get data i in
  let g := get data (i + 1) in
  let b := get data (i + 2) in
  let l := (0.2126 * r + 0.7152 * g + 0.0722 * b)%float in
  set (set (set data (i + 2) l) (i + 1) l) i l.

(** One iteration of the loop of [_warm] at offset [i]. *)
Definition warm_body (i : nat) (data : list Z) : list Z :=
  let data := set data i (Math_min 255%float (get data i * 1.05)%float) in
  set data (i + 2) (Math_max 0%float (get data (i + 2) * 0.95)%float).

(** One iteration of the loop of [_cool] at offset [i]. *)
Definition cool_body (i : nat) (data : list Z) : list Z :=
  let data := set data i (Math_max 0%float (get data i * 0.95)%float) in
  set data (i + 2) (Math_min 255%float (get data (i + 2) * 1.05)%float).

(** A filter pass: read the surface, run the loop, write it back. *)
Definition pass (body : nat -> list Z -> list Z)
    (c : context2d) (w h : Z) : context2d :=
  let '(data, c) := getImageData c w h in
  putImageData c (for_each_pixel body data).

Definition _grayscale := pass grayscale_body.
Definition _warm := pass warm_body.
Definition _cool := pass cool_body.

(** [_applyFilter(ctx, w, h)]: the [switch] on [activeFilter]. *)
Definition _applyFilter (this : FilterEngine)
    (c : context2d) (w h : Z) : context2d :=
  if String.eqb (activeFilter this) "mono" then _grayscale c w h
  else if String.eqb (activeFilter this) "warm" then _warm c w h
  else if String.eqb (activeFilter this) "cool" then _cool c w h
  else c.

Section Platform.

(** [Math.pow], an implementation-approximated function. *)
Variable Math_pow : float -> float -> float.

(** Compositing, as in [Canvas.drawImage] and [Canvas.fillRect]. *)
Variable composite : string -> source -> list Z -> list Z.

(** The exposure block of [_render]. *)
Definition exposure_simulation (this : FilterEngine)
    (c : context2d) (w h : Z) : context2d :=
  if strict_ne_zero (exposureEV this) then
    let gain := Math_pow 2%float (exposureEV this) in
    let c := set_globalCompositeOperation c "source-over" in
    let c := set_fillStyle c
               {| red := 255; green := 255; blue := 255;
                  alpha := ((gain - 1) * 0.15)%float |} in
    fillRect composite c 0 0 w h
  else c.

(** [_render()]; [raf] is the handle [requestAnimationFrame]
    returns for the next step. *)
Definition _render (this : FilterEngine) (v : video) (cv : canvas)
    (raf : nat) : FilterEngine * canvas :=
  if negb (_running this) then (this, cv)
  else
    let this := {| exposureEV := exposureEV this;
                   activeFilter := activeFilter this;
                   _running := _running this;
                   _rafId := Some raf |} in
    if readyState v <? 2 then (this, cv)
    else
      let w := width cv in
      let h := height cv in
      if (w =? 0) || (h =? 0) then (this, cv)
      else
        let c := drawImage composite (ctx cv) v w h in
        let c := exposure_simulation this c w h in
        let c := _applyFilter this c w h in
        (this, {| width := w; height := h; ctx := c |}).

(** [start()] *)
Definition start (this : FilterEngine) (v : video) (cv : canvas)
    (raf : nat) : FilterEngine * canvas :=
  if _running this then (this, cv)
  else
    _render {| exposureEV := exposureEV this;
               activeFilter := activeFilter this;
               _running := true;
               _rafId := _rafId this |} v cv raf.

(** [stop()]; the pending handle is cancelled and cleared when it is
    truthy. *)
Definition stop (this : FilterEngine) : FilterEngine :=
  {| exposureEV := exposureEV this;
     activeFilter := activeFilter this;
     _running := false;
     _rafId := match _rafId this with
               | Some O => Some O
               | _ => None
               end |}.

End Platform.

End Filters.

(* ================================================================== *)
(** * js/lut-engine.js : LUTEngine *)
(* ================================================================== *)

Module LUT.
Import JS TypedArray.

(** The table is the pixel buffer of the decoded image, [null] before
    a load; the size is the edge of the cube, an integer. *)
Record LUTEngine := {
  lut : option (list Z);
  size : Z }.

Definition constructor : LUTEngine := {| lut := None; size := 0 |}.

(** [loadFromImage(url, size)]: [decoded] is the pixel buffer of the
    image when it loads, [None] when it fails to load; the boolean
    tells whether the promise resolves. *)
Definition loadFromImage (this : LUTEngine) (decoded : option (list Z))
    (size : Z) : LUTEngine * bool :=
  match decoded with
  | Some data => ({| lut := Some data; size := size |}, true)
  | None => ({| lut := None; size := 0 |}, false)
  end.

(** [Math.min(max, Math.floor(c * scale))] *)
Definition bucket (max : Z) (scale : float) (c : float) : integral :=
  Math_min_int max (Math_floor (c * scale)%float).

(** [(ri + gi * size + bi * size * size) * 4].  The sum is carried as
    an integer: integers below 2^53 are exact Numbers, and a bucket
    that is not finite leaves no index to look up. *)
Definition flat_index (size : Z) (ri gi bi : integral) : option Z :=
  r ← finite ri; g ← finite gi; b ← finite bi;
  Some ((r + g * size + b * size * size) * 4).

(** [lut[index + k]] as a Number; [undefined] when there is no such
    element. *)
Definition lookup (table : list Z) (index : option Z) (k : Z) : float :=
  match index with
  | Some j => if 0 <=? j + k then get table (Z.to_nat (j + k))
              else PrimFloat.nan
  | None => PrimFloat.nan
  end.

(** One iteration of the loop of [apply] at offset [i]; [max] and
    [scale] are the constants computed before the loop. *)
Definition apply_body (table : list Z) (size max : Z) (scale : float)
    (i : nat) (data : list Z) : list Z :=
  let r := get data i in
  let g := get data (i + 1) in
  let b := get data (i + 2) in
  let ri := bucket max scale r in
  let gi := bucket max scale g in
  let bi := bucket max scale b in
  let index := flat_index size ri gi bi in
  let data := set data i (lookup table index 0) in
  let data := set data (i + 1) (lookup table index 1) in
  set data (i + 2) (lookup table index 2).

(** [apply(imageData)], on the bytes of the image data. *)
Definition apply (this : LUTEngine) (data : list Z) : list Z :=
  match lut this with
  | None => data
  | Some table =>
      if size this =? 0 then data
      else
        let size := size this in
        let max := size - 1 in
        let scale := (of_int max / 255)%float in
        for_each_pixel (apply_body table size max scale) data
  end.

(** The quantisation as the specification words it, on integers:
    [clamp(floor(channel * (size - 1) / 255), 0, size - 1)], the
    quotient being the exact one. *)
Definition bucket_spec (size : Z) (channel : Z) : Z :=
  Z.max 0 (Z.min (size - 1) (channel * (size - 1) / 255)).

End LUT.

(* ================================================================== *)
(** * js/constraints.js : getCameraConstraints *)
(* ================================================================== *)

Module Constraints.

(** Values of object literals. *)
#[warnings="-register-all"]
Inductive value :=
| Bool (b : bool)
| Num (n : Z)
| Str (s : string)
| Obj (fields : list (string * value))
| Arr (items : list value).

(** [o[key]] on an object literal. *)
Definition field (key : string) (o : value) : option value :=
  match o with
  | Obj fields => snd <$> List.find (fun kv => String.eqb (fst kv) key) fields
  | _ => None
  end.

(** Whether [key] names a property anywhere inside a value. *)
Fixpoint mentions (key : string) (v : value) : bool :=
  match v with
  | Obj fields =>
      existsb (fun kv => String.eqb (fst kv) key || mentions key (snd kv))
              fields
  | Arr items => existsb (mentions key) items
  | _ => false
  end.

(** [getCameraConstraints(facingMode = 'environment')]; [None] is a
    call without the argument. *)
Definition getCameraConstraints (facingMode : option string) : value :=
  let facingMode := default "environment" facingMode in
  Obj [ ("audio", Bool false);
        ("video",
          Obj [ ("facingMode", Obj [ ("ideal", Str facingMode) ]);
                ("width", Obj [ ("ideal", Num 1280) ]);
                ("height", Obj [ ("ideal", Num 720) ]);
                ("frameRate", Obj [ ("ideal", Num 30); ("max", Num 30) ]);
                ("advanced",
                  Arr [ Obj [ ("noiseReduction", Str "high");
                              ("torch", Bool false) ] ]) ]) ].

End Constraints.

(* ================================================================== *)
(** * js/camera.js : CameraController *)
(* ================================================================== *)

Module Camera.

(** A media stream: the handles of its video and audio tracks. *)
Record MediaStream := {
  videoTracks : list nat;
  audioTracks : list nat }.

Record CameraController := {
  stream : option MediaStream;
  videoTrack : option nat;
  isRunning : bool;
  srcObject : option MediaStream;
  statusText : string }.

Definition constructor : CameraController :=
  {| stream := None; videoTrack := None; isRunning := false;
     srcObject := None; statusText := EmptyString |}.

(** [_setStatus(text)] *)
Definition _setStatus (this : CameraController) (text : string)
    : CameraController :=
  {| stream := stream this; videoTrack := videoTrack this;
     isRunning := isRunning this; srcObject := srcObject this;
     statusText := text |}.

(** [_handleError(error)], on the name of the error. *)
Definition _handleError (this : CameraController) (name : string)
    : CameraController :=
  if String.eqb name "NotAllowedError" then _setStatus this "Permission denied"
  else if String.eqb name "NotFoundError" then _setStatus this "No camera found"
  else _setStatus this "Camera error".

(** [start] runs in three steps, separated by its two [await]s. *)

(** Up to [await getUserMedia(constraints)]: the boolean tells whether
    a request was issued. *)
Definition start_request (this : CameraController)
    : CameraController * bool :=
  if isRunning this then (this, false)
  else (_setStatus this "Requesting camera…", true).

(** The request resolved with stream [s]: up to
    [await this._waitForVideoReady()]. *)
Definition start_bind (this : CameraController) (s : MediaStream)
    : CameraController :=
  {| stream := Some s; videoTrack := videoTrack this;
     isRunning := isRunning this; srcObject := Some s;
     statusText := statusText this |}.

(** The request was rejected with an error of name [name]. *)
Definition start_rejected (this : CameraController) (name : string)
    : CameraController :=
  _handleError this name.

(** The video is ready: the rest of the [try] block.  Reading the
    tracks of a stream that [stop] cleared meanwhile throws a
    [TypeError], handled by the [catch]. *)
Definition start_ready (this : CameraController) : CameraController :=
  match stream this with
  | None => _handleError this "TypeError"
  | Some s =>
      _setStatus
        {| stream := stream this; videoTrack := videoTracks s !! 0%nat;
           isRunning := true; srcObject := srcObject this;
           statusText := statusText this |}
        "Camera ready"
  end.

(** [stop()] *)
Definition stop (this : CameraController) : CameraController :=
  match stream this with
  | None => this
  | Some _ =>
      {| stream := None; videoTrack := None; isRunning := false;
         srcObject := None; statusText := "Camera stopped" |}
  end.

(** Where a call of [start] in flight is suspended. *)
Inductive suspended :=
| AwaitStream
| AwaitReady.

(** The controller together with the calls of [start] in flight. *)
Definition session : Type := CameraController * list suspended.

Definition initial : session := (constructor, []).

(** One step of a session: a call of [start] or [stop], or the
    resumption of a suspended [start].  A stream the platform grants
    to a request for video carries a video track. *)
Inductive step : session -> session -> Prop :=
| step_start_noop this pending :
    isRunning this = true ->
    step (this, pending) (this, pending)
| step_start this pending :
    isRunning this = false ->
    step (this, pending)
         ((start_request this).1, pending ++ [AwaitStream])
| step_granted this pending1 pending2 s :
    videoTracks s <> [] ->
    step (this, pending1 ++ AwaitStream :: pending2)
         (start_bind this s, pending1 ++ AwaitReady :: pending2)
| step_rejected this pending1 pending2 name :
    step (this, pending1 ++ AwaitStream :: pending2)
         (start_rejected this name, pending1 ++ pending2)
| step_ready this pending1 pending2 :
    step (this, pending1 ++ AwaitReady :: pending2)
         (start_ready this, pending1 ++ pending2)
| step_stop this pending :
    step (this, pending) (stop this, pending).

(** States reachable from a fresh controller. *)
Inductive reachable : session -> Prop :=
| reachable_initial : reachable initial
| reachable_step s s' : reachable s -> step s s' -> reachable s'.

End Camera.

(* ================================================================== *)
(** * js/capture.js : CaptureController *)
(* ================================================================== *)

Module Capture.
Import Canvas.

(** [new Error(message)] *)
Record Error := { message : string }.

Definition NotReady : Error :=
  {| message := "Canvas not ready for capture" |}.

Definition EncodingError : Error :=
  {| message := "Failed to capture image" |}.

(** The [options] argument: a property left out is [None]. *)
Record options := {
  type : option string;
  quality : option float }.

Section Encoder.

(** Encoded image data. *)
Variable Blob : Type.

(** What [canvas.toBlob] hands to its callback for a surface, a type
    and a quality: a blob, or [null] when encoding produces no data. *)
Variable encode : canvas -> string -> float -> option Blob.

Record result := {
  blob : Blob;
  result_width : Z;
  result_height : Z;
  timestamp : Z }.

(** [capture(options = {})]: [this_canvas] is the canvas of the
    controller when [capture] is called, [later] the same canvas when
    the encoder calls back, and [now] what [Date.now()] returns then.
    [inl] is a rejection, [inr] a resolution. *)
Definition capture (this_canvas : option canvas) (opts : options)
    (later : canvas) (now : Z) : Error + result :=
  let type := default "image/jpeg" (type opts) in
  let quality := default 0.92%float (quality opts) in
  match this_canvas with
  | None => inl NotReady
  | Some cv =>
      if (width cv =? 0) || (height cv =? 0) then inl NotReady
      else
        match encode cv type quality with
        | None => inl EncodingError
        | Some b =>
            inr {| blob := b;
                   result_width := width later;
                   result_height := height later;
                   timestamp := now |}
        end
  end.

End Encoder.

End Capture.

(* ================================================================== *)
(** * js/gallery.js : GalleryController *)
(* ================================================================== *)

Module Gallery.

(** How a statement completes: normally, or by throwing. *)
Inductive completion :=
| Normal
| Throw.

(** The object URLs of the page: the next one to mint, those that are
    live, and the URLs [revokeObjectURL] was called with, in order. *)
Record url_store := {
  next : nat;
  live : gset nat;
  revoke_calls : list nat }.

(** [URL.createObjectURL(blob)] *)
Definition createObjectURL (st : url_store) : nat * url_store :=
  (next st,
   {| next := S (next st);
      live := {[ next st ]} ∪ live st;
      revoke_calls := revoke_calls st |}).

Section Entries.

Variable Blob : Type.

(** A capture, as [Capture.capture] resolves with. *)
Record capture := {
  capture_blob : Blob;
  capture_width : Z;
  capture_height : Z;
  capture_timestamp : Z }.

Record entry := {
  url : nat;
  blob : Blob;
  width : Z;
  height : Z;
  timestamp : Z }.

Record GalleryController := { items : list entry }.

Definition constructor : GalleryController := {| items := [] |}.

(** Whether a call of [revokeObjectURL] on a URL throws. *)
Variable throws : nat -> bool.

(** [URL.revokeObjectURL(url)]: the URL stops being live, unless the
    call throws. *)
Definition revokeObjectURL (u : nat) (st : url_store)
    : completion * url_store :=
  if throws u then
    (Throw, {| next := next st;
               live := live st;
               revoke_calls := revoke_calls st ++ [u] |})
  else
    (Normal, {| next := next st;
                live := live st ∖ {[ u ]};
                revoke_calls := revoke_calls st ++ [u] |}).

(** [add(capture)] *)
Definition add (this : GalleryController) (c : capture) (st : url_store)
    : entry * GalleryController * url_store :=
  let '(u, st) := createObjectURL st in
  let e := {| url := u; blob := capture_blob c;
              width := capture_width c; height := capture_height c;
              timestamp := capture_timestamp c |} in
  (e, {| items := items this ++ [e] |}, st).

(** [getAll()] *)
Definition getAll (this : GalleryController) : list entry := items this.

(** [getLatest()] *)
Definition getLatest (this : GalleryController) : option entry :=
  last (items this).

(** [try { URL.revokeObjectURL(item.url) } catch (_) { }] *)
Definition try_revoke (item : entry) (st : url_store)
    : completion * url_store :=
  match revokeObjectURL (url item) st with
  | (Normal, st') => (Normal, st')
  | (Throw, st') => (Normal, st')
  end.

(** [for (const item of items) body(item)]: a body that throws ends
    the loop. *)
Fixpoint for_of (body : entry -> url_store -> completion * url_store)
    (l : list entry) (st : url_store) : completion * url_store :=
  match l with
  | [] => (Normal, st)
  | item :: rest =>
      match body item st with
      | (Normal, st') => for_of body rest st'
      | (Throw, st') => (Throw, st')
      end
  end.

(** [clear()] *)
Definition clear (this : GalleryController) (st : url_store)
    : completion * GalleryController * url_store :=
  match for_of try_revoke (items this) st with
  | (Normal, st') => (Normal, {| items := [] |}, st')
  | (Throw, st') => (Throw, this, st')
  end.

(** A sequence of calls of [add], from left to right. *)
Definition add_all (this : GalleryController) (cs : list capture)
    (st : url_store) : GalleryController * url_store :=
  foldl (fun '(g, st) c => let '(_, g, st) := add g c st in (g, st))
        (this, st) cs.

End Entries.

End Gallery.

(* ================================================================== *)
(** * Event targets and class lists of the page *)
(* ================================================================== *)

Module DOM.

(** What a function registered as a listener does when it is called:
    one constructor for each arrow function that [js/ui.js],
    [js/camera.js] and [js/app.js] register. *)
Inductive behaviour :=
| OnExposureInput
| OnFocusInput
| OnShutterClick
| OnPointerDown
| OnRetryClick
| OnLoaded
| OnVisibilityChange
| OnBeforeUnload.

(** A function object.  Every evaluation of an arrow function makes a
    new object, and listeners are compared by the identity of theirs. *)
Record closure := { identity : nat; does : behaviour }.

(** A registration: the element, the event type and the callback. *)
Record listener := { target : nat; type : string; callback : closure }.

#[global] Instance behaviour_eq_dec : EqDecision behaviour.
Proof. solve_decision. Defined.

#[global] Instance closure_eq_dec : EqDecision closure.
Proof. solve_decision. Defined.

#[global] Instance listener_eq_dec : EqDecision listener.
Proof. solve_decision. Defined.

(** The page: the listeners registered on its elements, in order of
    registration; the number of function objects made so far, which is
    the identity of the next one; the classes of its elements. *)
Record page := {
  listeners : list listener;
  closures : nat;
  classList : gmap nat (gset string) }.

(** The evaluation of an arrow function. *)
Definition new_closure (p : page) (b : behaviour) : closure * page :=
  ({| identity := closures p; does := b |},
   {| listeners := listeners p;
      closures := S (closures p);
      classList := classList p |}).

(** [target.addEventListener(type, callback)]: a registration that is
    already present is not added again. *)
Definition addEventListener (p : page) (l : listener) : page :=
  if bool_decide (l ∈ listeners p) then p
  else {| listeners := listeners p ++ [l];
          closures := closures p;
          classList := classList p |}.

(** [target.removeEventListener(type, callback)] *)
Definition removeEventListener (p : page) (l : listener) : page :=
  {| listeners := filter (fun x => x <> l) (listeners p);
     closures := closures p;
     classList := classList p |}.

(** The listeners a [type] event on [target] calls, in order. *)
Definition listening (p : page) (target0 : nat) (type0 : string)
    : list listener :=
  filter (fun l => target l = target0 /\ type l = type0) (listeners p).

(** [element.classList] *)
Definition classes (p : page) (element : nat) : gset string :=
  default ∅ (classList p !! element).

(** [element.classList.add(name)] *)
Definition classList_add (p : page) (element : nat) (name : string)
    : page :=
  {| listeners := listeners p;
     closures := closures p;
     classList := <[ element := {[ name ]} ∪ classes p element ]>
                    (classList p) |}.

(** [element.classList.remove(name)] *)
Definition classList_remove (p : page) (element : nat) (name : string)
    : page :=
  {| listeners := listeners p;
     closures := closures p;
     classList := <[ element := classes p element ∖ {[ name ]} ]>
                    (classList p) |}.

End DOM.

(* ================================================================== *)
(** * js/ui.js : UIController *)
(* ================================================================== *)

Module UI.
Import DOM.

(** The elements handed to the constructor, by identity. *)
Record elements := {
  video : nat;
  canvas : nat;
  focusRing : nat;
  exposureSlider : nat;
  focusSlider : nat;
  shutterButton : nat;
  permissionOverlay : nat;
  retryPermissionButton : nat }.

(** The four callbacks are [null] until the application assigns them:
    a boolean tells whether one is assigned. *)
Record UIController := {
  els : elements;
  onExposureChange : bool;
  onFocusChange : bool;
  onShutter : bool;
  onRetryPermission : bool;
  _boundHandlers : list listener }.

Definition constructor (e : elements) : UIController :=
  {| els := e;
     onExposureChange := false;
     onFocusChange := false;
     onShutter := false;
     onRetryPermission := false;
     _boundHandlers := [] |}.

(** [_track(target, type, handler)] *)
Definition _track (this : UIController) (l : listener) : UIController :=
  {| els := els this;
     onExposureChange := onExposureChange this;
     onFocusChange := onFocusChange this;
     onShutter := onShutter this;
     onRetryPermission := onRetryPermission this;
     _boundHandlers := _boundHandlers this ++ [l] |}.

(** [_bindSliders()] *)
Definition _bindSliders (this : UIController) (p : page)
    : UIController * page :=
  let '(onExposureInput, p) := new_closure p OnExposureInput in
  let '(onFocusInput, p) := new_closure p OnFocusInput in
  let exposure := {| target := exposureSlider (els this);
                     type := "input";
                     callback := onExposureInput |} in
  let focus := {| target := focusSlider (els this);
                  type := "input";
                  callback := onFocusInput |} in
  let p := addEventListener p exposure in
  let p := addEventListener p focus in
  let this := _track this exposure in
  let this := _track this focus in
  (this, p).

(** [_bindShutter()] *)
Definition _bindShutter (this : UIController) (p : page)
    : UIController * page :=
  let '(onClick, p) := new_closure p OnShutterClick in
  let l := {| target := shutterButton (els this);
              type := "click";
              callback := onClick |} in
  let p := addEventListener p l in
  (_track this l, p).

(** [_bindTapToFocus()] *)
Definition _bindTapToFocus (this : UIController) (p : page)
    : UIController * page :=
  let '(onPointerDown, p) := new_closure p OnPointerDown in
  let l := {| target := canvas (els this);
              type := "pointerdown";
              callback := onPointerDown |} in
  let p := addEventListener p l in
  (_track this l, p).

(** [_bindPermissionRetry()] *)
Definition _bindPermissionRetry (this : UIController) (p : page)
    : UIController * page :=
  let '(onClick, p) := new_closure p OnRetryClick in
  let l := {| target := retryPermissionButton (els this);
              type := "click";
              callback := onClick |} in
  let p := addEventListener p l in
  (_track this l, p).

(** [init()] *)
Definition init (this : UIController) (p : page) : UIController * page :=
  let '(this, p) := _bindSliders this p in
  let '(this, p) := _bindShutter this p in
  let '(this, p) := _bindTapToFocus this p in
  _bindPermissionRetry this p.

(** [destroy()] *)
Definition destroy (this : UIController) (p : page)
    : UIController * page :=
  ({| els := els this;
      onExposureChange := onExposureChange this;
      onFocusChange := onFocusChange this;
      onShutter := onShutter this;
      onRetryPermission := onRetryPermission this;
      _boundHandlers := [] |},
   foldl removeEventListener p (_boundHandlers this)).

(** [showPermissionOverlay()] *)
Definition showPermissionOverlay (this : UIController) (p : page) : page :=
  classList_remove p (permissionOverlay (els this)) "hidden".

(** [hidePermissionOverlay()] *)
Definition hidePermissionOverlay (this : UIController) (p : page) : page :=
  classList_add p (permissionOverlay (els this)) "hidden".

(** What an event carries for the handlers: the Number that
    [parseFloat(e.target.value)] gives, the pointer position, and the
    corner of the rectangle of the canvas. *)
Record event := {
  value : float;
  clientX : float;
  clientY : float;
  rect_left : float;
  rect_top : float }.

(** What a handler does that reaches beyond it: a call of a callback
    of the application, or one of the two feedback effects. *)
Inductive signal :=
| ExposureChange (value : float)
| FocusChange (value : float)
| Shutter
| RetryPermission
| ShutterFeedback
| FocusRing (x y : float).

(** A call of one of the arrow functions of the controller; the
    callbacks are read when the event arrives, and the two feedback
    effects, which touch elements of the page only, are taken to
    complete. *)
Definition handle (this : UIController) (b : behaviour) (e : event)
    : list signal :=
  match b with
  | OnExposureInput =>
      if onExposureChange this then [ExposureChange (value e)] else []
  | OnFocusInput =>
      if onFocusChange this then [FocusChange (value e)] else []
  | OnShutterClick =>
      ShutterFeedback :: (if onShutter this then [Shutter] else [])
  | OnPointerDown =>
      [FocusRing (clientX e - rect_left e) (clientY e - rect_top e)]
  | OnRetryClick =>
      if onRetryPermission this then [RetryPermission] else []
  | OnLoaded | OnVisibilityChange | OnBeforeUnload => []
  end.

(** A [type] event on [target]: every listener registered for it is
    called, in order of registration. *)
Definition dispatch (this : UIController) (p : page) (target0 : nat)
    (type0 : string) (e : event) : list signal :=
  l ← listening p target0 type0; handle this (does (callback l)) e.

(** [n] calls of [init] in a row. *)
Fixpoint init_times (n : nat) (this : UIController) (p : page)
    : UIController * page :=
  match n with
  | O => (this, p)
  | S k => let '(this, p) := init this p in init_times k this p
  end.

End UI.

(* ================================================================== *)
(** * js/camera.js : best-effort controls and readiness *)
(* ================================================================== *)

Module Controls.
Import JS DOM Camera.

(** A [MediaSettingsRange].  A bound that the platform leaves out is
    [undefined], which [Math.min], [Math.max] and the arithmetic read
    as NaN. *)
Record range := { min : float; max : float }.

(** What [getCapabilities()] reports; a capability that is not
    supported is left out. *)
Record MediaTrackCapabilities := {
  exposureCompensation : option range;
  focusMode : option (list string);
  focusDistance : option range }.

(** What [getSettings()] reports of the exposure compensation. *)
Record MediaTrackSettings := {
  exposureCompensation_now : option float }.

(** A video track: what [getCapabilities?.()] and [getSettings?.()]
    evaluate to, [undefined] when the track has no such method. *)
Record MediaStreamTrack := {
  getCapabilities : option MediaTrackCapabilities;
  getSettings : option MediaTrackSettings }.

(** The member of [advanced] handed to [applyConstraints]. *)
Inductive constraint :=
| ExposureCompensation (value : float)
| ManualFocus (distance : float).

(** How the promise of a control settles.  When it resolves,
    [applied] is the constraint the track was asked to apply, if any;
    a track that refuses it changes nothing, its rejection is caught. *)
Inductive settled :=
| Resolved (applied : option constraint)
| Rejected (error : string).

(** [x === y] for a property that may be [undefined] and a Number. *)
Definition strict_eq (x : option float) (y : float) : bool :=
  match x with
  | Some x => PrimFloat.eqb x y
  | None => false
  end.

Section Tracks.

(** The track object behind a handle. *)
Variable track_of : nat -> MediaStreamTrack.

(** [setExposure(ev)] *)
Definition setExposure (this : CameraController) (ev : float) : settled :=
  match videoTrack this with
  | None => Resolved None
  | Some h =>
      let capabilities := getCapabilities (track_of h) in
      let settings := getSettings (track_of h) in
      match capabilities ≫= exposureCompensation with
      | None => Resolved None
      | Some r =>
          let clamped := Math_min (max r) (Math_max (min r) ev) in
          match settings with
          | None => Rejected "TypeError"
          | Some s =>
              if strict_eq (exposureCompensation_now s) clamped
              then Resolved None
              else Resolved (Some (ExposureCompensation clamped))
          end
      end
  end.

(** [setFocus(normalizedValue)] *)
Definition setFocus (this : CameraController) (normalizedValue : float)
    : settled :=
  match videoTrack this with
  | None => Resolved None
  | Some h =>
      match getCapabilities (track_of h) with
      | None => Resolved None
      | Some capabilities =>
          match focusMode capabilities with
          | None => Resolved None
          | Some modes =>
              if negb (bool_decide ("manual" ∈ modes)) then Resolved None
              else
                match focusDistance capabilities with
                | None => Resolved None
                | Some d =>
                    let value :=
                      (min d + normalizedValue * (max d - min d))%float in
                    Resolved (Some (ManualFocus value))
                end
          end
      end
  end.

End Tracks.

(** [_waitForVideoReady()] up to the point where the promise is
    returned, on the video element [video] whose [readyState] is
    given: whether the promise is resolved already, the listener that
    waits otherwise, and the page. *)
Definition _waitForVideoReady (video : nat) (readyState : Z) (p : page)
    : bool * option listener * page :=
  if 2 <=? readyState then (true, None, p)
  else
    let '(onLoaded, p) := new_closure p OnLoaded in
    let l := {| target := video;
                type := "loadedmetadata";
                callback := onLoaded |} in
    (false, Some l, addEventListener p l).

(** A call of [onLoaded], the listener [l]: it takes itself off the
    video and resolves the promise. *)
Definition onLoaded (l : listener) (p : page) : bool * page :=
  (true, removeEventListener p l).

(** The [loadedmetadata] event on [video]: the listeners registered
    for it when the event is dispatched are called in order; those of
    [_waitForVideoReady] are the calls of [onLoaded]. *)
Definition loadedmetadata (video : nat) (p : page) : page :=
  foldl (fun p l => match does (callback l) with
                    | OnLoaded => (onLoaded l p).2
                    | _ => p
                    end)
        p (listening p video "loadedmetadata").

(** What the platform answers to a request for the camera. *)
Inductive answer :=
| Granted (s : MediaStream)
| Denied (name : string).

(** A call of [start] that runs to its end with nothing else in
    between: the controller it leaves, and whether the promise
    resolves ([true]) or rejects with the error caught ([false]). *)
Definition start (this : CameraController) (a : answer)
    : CameraController * bool :=
  let '(this, requested) := start_request this in
  if requested then
    match a with
    | Granted s => (start_ready (start_bind this s), true)
    | Denied name => (start_rejected this name, false)
    end
  else (this, true).

End Controls.

(* ================================================================== *)
(** * js/app.js : the wiring of the controllers *)
(* ================================================================== *)

Module App.

Section Wiring.

(** The platform: the encoder of [canvas.toBlob], the revocations that
    throw, [Math.pow], the compositing, and the track objects. *)
Variable Blob : Type.
Variable encode : Canvas.canvas -> string -> float -> option Blob.
Variable throws : nat -> bool.
Variable Math_pow : float -> float -> float.
Variable composite : string -> Canvas.source -> list Z -> list Z.
Variable track_of : nat -> Controls.MediaStreamTrack.

(** The objects the application creates, and the page.  The filter
    engine, the capture controller and the interface share one
    canvas; the camera and the filter engine share one video. *)
Record state := {
  camera : Camera.CameraController;
  filters : Filters.FilterEngine;
  canvas : Canvas.canvas;
  gallery : Gallery.GalleryController Blob;
  urls : Gallery.url_store;
  ui : UI.UIController;
  page : DOM.page }.

(** The body of the [DOMContentLoaded] listener up to the first call
    of [startCamera]: the controllers are created, the four callbacks
    are assigned, the interface is bound, and the two listeners of the
    application are registered on [document] and on [window]. *)
Definition boot (e : UI.elements) (document window : nat)
    (cv : Canvas.canvas) (st : Gallery.url_store) (p : DOM.page) : state :=
  let bound :=
    UI.init {| UI.els := e;
               UI.onExposureChange := true;
               UI.onFocusChange := true;
               UI.onShutter := true;
               UI.onRetryPermission := true;
               UI._boundHandlers := [] |} p in
  let '(onVisibilityChange, p) :=
    DOM.new_closure bound.2 DOM.OnVisibilityChange in
  let p := DOM.addEventListener p
             {| DOM.target := document;
                DOM.type := "visibilitychange";
                DOM.callback := onVisibilityChange |} in
  let '(onBeforeUnload, p) := DOM.new_closure p DOM.OnBeforeUnload in
  let p := DOM.addEventListener p
             {| DOM.target := window;
                DOM.type := "beforeunload";
                DOM.callback := onBeforeUnload |} in
  {| camera := Camera.constructor;
     filters := Filters.constructor;
     canvas := cv;
     gallery := Gallery.constructor Blob;
     urls := st;
     ui := bound.1;
     page := p |}.

(** [startCamera()], run to its end with nothing else in between:
    [ans] is the answer of the platform to the request, [v] the video
    once [camera.start] has resolved, and [raf] the handle of the
    frame that [filters.start] requests. *)
Definition startCamera (a : state) (ans : Controls.answer)
    (v : Canvas.video) (raf : nat) : state :=
  let started := Controls.start (camera a) ans in
  if started.2 then
    let cv := Filters.resize v (canvas a) in
    let running := Filters.start Math_pow composite (filters a) v cv raf in
    {| camera := started.1;
       filters := running.1;
       canvas := running.2;
       gallery := gallery a;
       urls := urls a;
       ui := ui a;
       page := page a |}
  else
    {| camera := started.1;
       filters := filters a;
       canvas := canvas a;
       gallery := gallery a;
       urls := urls a;
       ui := ui a;
       page := UI.showPermissionOverlay (ui a) (page a) |}.

(** [ui.onRetryPermission] *)
Definition onRetryPermission (a : state) (ans : Controls.answer)
    (v : Canvas.video) (raf : nat) : state :=
  startCamera
    {| camera := camera a;
       filters := filters a;
       canvas := canvas a;
       gallery := gallery a;
       urls := urls a;
       ui := ui a;
       page := UI.hidePermissionOverlay (ui a) (page a) |}
    ans v raf.

(** The [visibilitychange] listener; [hidden] is [document.hidden]. *)
Definition visibilitychange (a : state) (hidden : bool)
    (ans : Controls.answer) (v : Canvas.video) (raf : nat) : state :=
  if hidden then
    {| camera := Camera.stop (camera a);
       filters := Filters.stop (filters a);
       canvas := canvas a;
       gallery := gallery a;
       urls := urls a;
       ui := ui a;
       page := page a |}
  else startCamera a ans v raf.

(** The [beforeunload] listener: four calls in a row, the later ones
    reached only if the earlier ones complete normally. *)
Definition beforeunload (a : state) : Gallery.completion * state :=
  let eng := Filters.stop (filters a) in
  let cam := Camera.stop (camera a) in
  match Gallery.clear Blob throws (gallery a) (urls a) with
  | (Gallery.Normal, g, st) =>
      let unbound := UI.destroy (ui a) (page a) in
      (Gallery.Normal,
       {| camera := cam;
          filters := eng;
          canvas := canvas a;
          gallery := g;
          urls := st;
          ui := unbound.1;
          page := unbound.2 |})
  | (Gallery.Throw, g, st) =>
      (Gallery.Throw,
       {| camera := cam;
          filters := eng;
          canvas := canvas a;
          gallery := g;
          urls := st;
          ui := ui a;
          page := page a |})
  end.

(** The object [capture] resolves with, as [gallery.add] reads it. *)
Definition as_capture (r : Capture.result Blob) : Gallery.capture Blob :=
  {| Gallery.capture_blob := Capture.blob Blob r;
     Gallery.capture_width := Capture.result_width Blob r;
     Gallery.capture_height := Capture.result_height Blob r;
     Gallery.capture_timestamp := Capture.timestamp Blob r |}.

(** [ui.onShutter]: [capture.capture()] is called without options on
    the canvas of the application; [later] is that canvas when the
    encoder calls back and [now] the time then.  The error, if any, is
    the one handed to [console.warn]. *)
Definition onShutter (a : state) (later : Canvas.canvas) (now : Z)
    : state * option Capture.Error :=
  match Capture.capture Blob encode (Some (canvas a))
          {| Capture.type := None; Capture.quality := None |} later now
  with
  | inr result =>
      let added := Gallery.add Blob (gallery a) (as_capture result)
                     (urls a) in
      ({| camera := camera a;
          filters := filters a;
          canvas := canvas a;
          gallery := added.1.2;
          urls := added.2;
          ui := ui a;
          page := page a |}, None)
  | inl err => (a, Some err)
  end.

(** [ui.onExposureChange]: the track is asked first, then the filter
    engine stores the value; the promise of the track control is not
    awaited. *)
Definition onExposureChange (a : state) (value : float)
    : state * Controls.settled :=
  let asked := Controls.setExposure track_of (camera a) value in
  ({| camera := camera a;
      filters := Filters.setExposure (filters a) value;
      canvas := canvas a;
      gallery := gallery a;
      urls := urls a;
      ui := ui a;
      page := page a |}, asked).

(** [ui.onFocusChange] *)
Definition onFocusChange (a : state) (value : float) : Controls.settled :=
  Controls.setFocus track_of (camera a) value.

End Wiring.

End App.

(* ================================================================== *)
(** * service-worker.js : activation *)
(* ================================================================== *)

Module ServiceWorker.

Definition CACHE_VERSION : string := "pro-camera-v1".

(** [`${CACHE_VERSION}-static`] *)
Definition STATIC_CACHE : string := CACHE_VERSION +:+ "-static".

(** A cache: the URLs it holds a response for. *)
Definition cache := list string.

(** The cache storage of the origin, by cache name. *)
Abbreviation CacheStorage := (gmap string (list string)).

(** [caches.keys()] *)
Definition keys (caches : CacheStorage) : list string :=
  elements (dom caches).

(** The callback of [keys.map] in the [activate] listener: a cache
    under another name than [STATIC_CACHE] is deleted. *)
Definition purge (caches : CacheStorage) (key : string) : CacheStorage :=
  if bool_decide (key <> STATIC_CACHE) then delete key caches else caches.

(** The [activate] listener: the deletions that [keys.map] starts,
    once all have settled. *)
Definition activate (caches : CacheStorage) : CacheStorage :=
  foldl purge caches (keys caches).

End ServiceWorker.

(* ================================================================== *)
(** * Auxiliary definitions of the proofs *)
(* ================================================================== *)

Section Auxiliary.
Import JS TypedArray Canvas LUT Camera.

(** A loop body that keeps the length and touches one pixel only. *)
Record pixel_local (body : nat -> list Z -> list Z) : Prop := {
  local_length : forall i d, length (body i d) = length d;
  local_frame : forall i d j,
    (j < i \/ i + 4 <= j)%nat -> body i d !! j = d !! j;
  local_reads : forall i d d',
    length d = length d' ->
    (forall j, (i <= j < i + 4)%nat -> d !! j = d' !! j) ->
    forall j, (i <= j < i + 4)%nat -> body i d !! j = body i d' !! j }.

(** What every reachable controller satisfies: a track handle is held
    exactly when the controller runs, and a held stream carries a video
    track. *)
Definition consistent (this : CameraController) : Prop :=
  (is_Some (videoTrack this) <-> isRunning this = true) /\
  (forall s, stream this = Some s -> videoTracks s <> []).

(** [p] holds of the [n] integers from [z] on. *)
Fixpoint all_from (n : nat) (z : Z) (p : Z -> bool) : bool :=
  match n with
  | O => true
  | S k => p z && all_from k (z + 1) p
  end.

(** [p] holds of every byte. *)
Definition all_bytes (p : Z -> bool) : bool := all_from 256 0 p.

(** The warm filter on one byte, as red and as blue, against the exact
    products: the stored red is the integer nearest to 1.05 r, capped
    at 255, and is not below r; the stored blue is the integer nearest
    to 0.95 b and is not above b. *)
Definition warm_byte_ok (z : Z) : bool :=
  let r' := ToUint8Clamp (Math_min 255%float (of_byte z * 1.05)%float) in
  let b' := ToUint8Clamp (Math_max 0%float (of_byte z * 0.95)%float) in
  (z <=? r') && (r' <=? 255) && (0 <=? b') && (b' <=? z) &&
  (if 21 * z <=? 5100 then Z.abs (20 * r' - 21 * z) <=? 10
   else r' =? 255) &&
  (Z.abs (20 * b' - 19 * z) <=? 10).

(** Zero, a positive finite value, plus infinity, or NaN. *)
Definition nonneg_or_nan (v : spec_float) : Prop :=
  match v with
  | S754_zero _ | S754_infinity false | S754_finite false _ _
  | S754_nan => True
  | _ => False
  end.

(** Zero or a positive finite value. *)
Definition finite_nonneg (v : spec_float) : Prop :=
  match v with
  | S754_zero _ | S754_finite false _ _ => True
  | _ => False
  end.

(** Zero, a positive finite value or plus infinity. *)
Definition nonneg (v : spec_float) : Prop :=
  match v with
  | S754_zero _ | S754_infinity false | S754_finite false _ _ => True
  | _ => False
  end.

(** A Number between zero and infinity, checked by comparison. *)
Definition is_finite_nonneg (x : float) : bool :=
  PrimFloat.leb 0%float x && PrimFloat.ltb x PrimFloat.infinity.

(** The rounding of [ToUint8Clamp] computed on the 53-bit mantissa of
    the Number with shifts of machine integers; [None] when the Number
    is not between 2^-10 and 2^52. *)
Definition fast_round (x : float) : option int :=
  let (m, e) := PrimFloat.frshiftexp x in
  let M := PrimFloat.normfr_mantissa m in
  if ((2092 <=? e) && (e <=? 2153))%uint63 then
    let k := (2154 - e)%uint63 in
    let q := (M >> k)%uint63 in
    let r := (M - (q << k))%uint63 in
    let half := (1 << (k - 1))%uint63 in
    Some (if (r <? half)%uint63 then q
          else if (half <? r)%uint63 then (q + 1)%uint63
          else if Uint63.is_even q then q else (q + 1)%uint63)
  else None.

(** [ToUint8Clamp] with the rounding done on machine integers. *)
Definition ToUint8Clamp_fast (x : float) : option int :=
  if PrimFloat.is_nan x then Some 0%uint63
  else if PrimFloat.leb x 0%float then Some 0%uint63
  else if PrimFloat.leb 255%float x then Some 255%uint63
  else fast_round x.

(** [p] holds of the [n] machine integers from [i] on. *)
Fixpoint all_from_int (n : nat) (i : int) (p : int -> bool) : bool :=
  match n with
  | O => true
  | S k => p i && all_from_int k (i + 1)%uint63 p
  end.

(** The grey level stored for a pixel is a byte within one half of the
    exact weighted sum, scaled by 10000.  [s] and [e] are the binary64
    and the exact sums of the red and green terms. *)
Definition gray_tail (s : float) (e : int) (b : int) : bool :=
  let l := (s + 0.0722 * PrimFloat.of_uint63 b)%float in
  match ToUint8Clamp_fast l with
  | Some v =>
      ((v <=? 255) &&
       (let n := e + 722 * b in
        let t := 10000 * v in
        if t <=? n then n - t <=? 5000 else t - n <=? 5000))%uint63
  | None => false
  end.

Definition gray_ok (r g b : int) : bool :=
  gray_tail (0.2126 * PrimFloat.of_uint63 r + 0.7152 * PrimFloat.of_uint63 g)
            (2126 * r + 7152 * g)%uint63 b.

Definition sample_context (px : list Z) : context2d :=
  {| pixels := px;
     globalCompositeOperation := "source-over";
     fillStyle := {| red := 0; green := 0; blue := 0; alpha := 1%float |};
     calls := [] |}.

(** The table that inverts each channel, on two buckets per axis:
    bucket (r, g, b) holds (255 - 255 r, 255 - 255 g, 255 - 255 b). *)
Definition invert2 : list Z :=
  [255; 255; 255; 255;   0; 255; 255; 255;
   255;   0; 255; 255;   0;   0; 255; 255;
   255; 255;   0; 255;   0; 255;   0; 255;
   255;   0;   0; 255;   0;   0;   0; 255].

(** The edges up to 256 and the bytes for which the binary64 product
    [c * ((size - 1) / 255)] falls just below the whole number that
    the exact quotient [c * (size - 1) / 255] is. *)
Definition rounds_down (size c : Z) : bool :=
  match size with
  | 148 => (c =? 85) || (c =? 170)
  | 156 => (c =? 51) || (c =? 102) || (c =? 153) || (c =? 204)
  | 172 => (c =? 85) || (c =? 170)
  | 188 => (c =? 75) || (c =? 150) || (c =? 165)
  | 196 => c =? 153
  | _ => false
  end.

(** The bucket of the byte [c] in a cube of edge [size] is the
    quantisation of the specification, less one when the product
    rounds down. *)
Definition bucket_byte_ok (size c : Z) : bool :=
  match bucket (size - 1) (of_int (size - 1) / 255)%float (of_byte c) with
  | Fin k =>
      k =? bucket_spec size c - (if rounds_down size c then 1 else 0)
  | _ => false
  end.

(** A table for a cube of edge 148 with its [4 * 148^3] bytes: bucket
    (48, 0, 0) holds (7, 7, 7), bucket (49, 0, 0) holds (9, 9, 9), and
    every other byte is 0. *)
Definition cube_148 : list Z :=
  replicate 192 0 ++ [7; 7; 7; 255; 9; 9; 9; 255]
    ++ replicate (Z.to_nat (4 * (148 * 148 * 148) - 200)) 0.

(** [Math.pow] on the exponents -2, -1, 0, 1, 2 and NaN, where its
    value is prescribed; an exponent outside this table is given NaN
    and is not used. *)
Definition pow_table (base exponent : float) : float :=
  if PrimFloat.eqb exponent 0%float then 1%float
  else if PrimFloat.eqb exponent 1%float then base
  else if PrimFloat.eqb exponent 2%float then (base * base)%float
  else if PrimFloat.eqb exponent (-1)%float then (1 / base)%float
  else if PrimFloat.eqb exponent (-2)%float then (1 / (base * base))%float
  else PrimFloat.nan.

(** The surface with every pixel set to an opaque colour. *)
Definition flood (style : rgba) (px : list Z) : list Z :=
  _ ← seq 0 (Nat.div (length px) 4); [red style; green style; blue style; 255].

(** Source-over compositing on the sources of the examples: an image
    is an opaque frame and replaces the surface, a colour of alpha 1
    replaces every pixel, a colour of alpha 0 leaves the surface.  A
    colour in between is blended by the platform; the examples do not
    look at the surface then, and it is left as it is. *)
Definition source_over (op : string) (s : source) (px : list Z) : list Z :=
  match s with
  | Image img => img
  | Fill style =>
      if PrimFloat.eqb (alpha style) 1%float then flood style px else px
  end.

End Auxiliary.

(* ================================================================== *)
(** * Auxiliary definitions for the further properties *)
(* ================================================================== *)

Section FurtherAuxiliary.
Import JS TypedArray Canvas Filters LUT.

(** The grey level [_grayscale] stores for a colour. *)
Definition gray_of (r g b : Z) : Z :=
  ToUint8Clamp (0.2126 * of_byte r + 0.7152 * of_byte g
                + 0.0722 * of_byte b)%float.

(** The frames of a render loop: each callback that
    [requestAnimationFrame] runs is a call of [_render], against the
    video as it is then and with the handle of the next request. *)
Definition render_frames (Math_pow : float -> float -> float)
    (composite : string -> source -> list Z -> list Z)
    (this : FilterEngine) (cv : canvas) (frames : list (video * nat))
    : FilterEngine * canvas :=
  foldl (fun s f => _render Math_pow composite s.1 f.1 s.2 f.2)
        (this, cv) frames.

(** The bucket of a byte as an integer, [-1] when it is not finite. *)
Definition bucket_of (size c : Z) : Z :=
  match bucket (size - 1) (of_int (size - 1) / 255)%float (of_byte c) with
  | Fin k => k
  | _ => -1
  end.

(** The buckets of the [n] bytes from [c] on, in one pass: each is the
    exact quotient or the one below it, and is not below [prev], the
    bucket of the byte before. *)
Fixpoint buckets_from (n : nat) (size c prev : Z) : bool :=
  match n with
  | O => true
  | S k =>
      let b := bucket_of size c in
      let e := c * (size - 1) / 255 in
      (prev <=? b) && (e - 1 <=? b) && (b <=? e) &&
      buckets_from k size (c + 1) b
  end.

(** The buckets of a cube of edge [size]: the first byte has the first
    bucket, the last byte the last one, and the pass succeeds. *)
Definition buckets_ok (size : Z) : bool :=
  (bucket_of size 0 =? 0) && (bucket_of size 255 =? size - 1) &&
  buckets_from 256 size 0 0.

End FurtherAuxiliary.

Section GalleryAuxiliary.
Import Gallery.

Variable Blob : Type.

(** The entry [add] builds for a capture under a URL. *)
Definition entry_of (u : nat) (c : capture Blob) : entry Blob :=
  {| url := u;
     blob := capture_blob Blob c;
     width := capture_width Blob c;
     height := capture_height Blob c;
     timestamp := capture_timestamp Blob c |}.

(** The entries of a row of captures under consecutive URLs. *)
Fixpoint minted (u : nat) (cs : list (capture Blob)) : list (entry Blob) :=
  match cs with
  | [] => []
  | c :: cs => entry_of u c :: minted (S u) cs
  end.

End GalleryAuxiliary.

Section CameraAuxiliary.
Import Camera.

(** What every reachable controller satisfies besides: the video shows
    the stream the controller holds, and a running controller holds
    one. *)
Definition coherent (this : CameraController) : Prop :=
  srcObject this = stream this /\
  (isRunning this = true -> is_Some (stream this)).

(** [Number.isFinite(x)], by comparison with the two infinities. *)
Definition finite_number (x : float) : bool :=
  PrimFloat.ltb PrimFloat.neg_infinity x &&
  PrimFloat.ltb x PrimFloat.infinity.

End CameraAuxiliary.

Section PageAuxiliary.
Import DOM UI.

(** Every callback registered on the page was made on the page. *)
Definition tidy (p : page) : Prop :=
  Forall (fun l => (identity (callback l) < closures p)%nat) (listeners p).

(** The five registrations of one [init], when the next function
    object has identity [c]. *)
Definition bindings (e : elements) (c : nat) : list listener :=
  [ {| target := exposureSlider e; type := "input";
       callback := {| identity := c; does := OnExposureInput |} |};
    {| target := focusSlider e; type := "input";
       callback := {| identity := S c; does := OnFocusInput |} |};
    {| target := shutterButton e; type := "click";
       callback := {| identity := S (S c); does := OnShutterClick |} |};
    {| target := canvas e; type := "pointerdown";
       callback := {| identity := S (S (S c)); does := OnPointerDown |} |};
    {| target := retryPermissionButton e; type := "click";
       callback := {| identity := S (S (S (S c))); does := OnRetryClick |} |} ].

(** The registrations of [n] calls of [init] in a row. *)
Fixpoint bindings_from (e : elements) (c : nat) (n : nat) : list listener :=
  match n with
  | O => []
  | S k => bindings e c ++ bindings_from e (5 + c) k
  end.

(** The two registrations of the application itself, when the next
    function object has identity [c]. *)
Definition app_listeners (document window : nat) (c : nat) : list listener :=
  [ {| target := document; type := "visibilitychange";
       callback := {| identity := c; does := OnVisibilityChange |} |};
    {| target := window; type := "beforeunload";
       callback := {| identity := S c; does := OnBeforeUnload |} |} ].

(** A registration that waits for the metadata of [video]. *)
Definition waits_for_metadata (video : nat) (l : listener) : Prop :=
  target l = video /\ type l = "loadedmetadata" /\
  does (callback l) = OnLoaded.

#[global] Instance waits_for_metadata_dec (video : nat) (l : listener) :
  Decision (waits_for_metadata video l).
Proof. unfold waits_for_metadata. apply _. Defined.

End PageAuxiliary.

Section ApplicationAuxiliary.

(** A page with eight elements, the document (8) and the window (9),
    and nothing registered; the application booted on it with a canvas
    that has no size yet. *)
Definition sample_elements : UI.elements :=
  {| UI.video := 0; UI.canvas := 1; UI.focusRing := 2;
     UI.exposureSlider := 3; UI.focusSlider := 4; UI.shutterButton := 5;
     UI.permissionOverlay := 6; UI.retryPermissionButton := 7 |}%nat.

Definition blank_page : DOM.page :=
  {| DOM.listeners := []; DOM.closures := 0; DOM.classList := ∅ |}.

Definition sample_app : App.state unit :=
  App.boot unit sample_elements 8%nat 9%nat
    {| Canvas.width := 0; Canvas.height := 0;
       Canvas.ctx := sample_context [] |}
    {| Gallery.next := 0; Gallery.live := ∅; Gallery.revoke_calls := [] |}
    blank_page.

(** A video of one pixel that is readable. *)
Definition sample_video : Canvas.video :=
  {| Canvas.readyState := 4; Canvas.videoWidth := 1;
     Canvas.videoHeight := 1;
     Canvas.frame := fun _ _ => [10; 20; 30; 255] |}.

End ApplicationAuxiliary.
(* ================================================================== *)
(** * Order facts on binary64 values *)
(* ================================================================== *)

Section SpecOrder.

(** Comparison of binary64 values is antisymmetric and total away
    from NaN. *)
Lemma SFcompare_antisym (x y : spec_float) :
  SFcompare y x = option_map CompOpp (SFcompare x y).
Proof.
  destruct x as [sx|sx| |sx mx ex], y as [sy|sy| |sy my ey]; simpl;
    try reflexivity;
    try (destruct sx; reflexivity);
    try (destruct sy; reflexivity);
    try (destruct sx, sy; reflexivity).
  destruct sx, sy; simpl; try reflexivity;
    rewrite (Z.compare_antisym ey ex);
    destruct (ey ?= ex)%Z; simpl; try reflexivity;
    rewrite (Pos.compare_cont_antisym mx my Eq); reflexivity.
Qed.

Lemma SFcompare_None (x y : spec_float) :
  SFcompare x y = None -> x = S754_nan \/ y = S754_nan.
Proof.
  destruct x as [sx|sx| |sx mx ex], y as [sy|sy| |sy my ey]; simpl;
    intros H; try discriminate H; auto.
Qed.

Lemma SFltb_SFleb (x y : spec_float) :
  SFltb x y = true -> SFleb x y = true.
Proof.
  unfold SFltb, SFleb. destruct (SFcompare x y) as [[]|]; auto.
Qed.

Lemma SFleb_total (x y : spec_float) :
  x <> S754_nan -> y <> S754_nan ->
  SFltb y x = false -> SFleb x y = true.
Proof.
  intros Hx Hy. unfold SFltb, SFleb.
  rewrite (SFcompare_antisym x y).
  destruct (SFcompare x y) as [[]|] eqn:E; simpl; auto.
  destruct (SFcompare_None _ _ E); contradiction.
Qed.

Lemma is_nan_false (x : float) :
  PrimFloat.is_nan x = false -> Prim2SF x <> S754_nan.
Proof.
  unfold PrimFloat.is_nan. rewrite FloatAxioms.eqb_spec.
  intros H E. rewrite E in H. discriminate H.
Qed.

Lemma ltb_leb (x y : float) :
  PrimFloat.ltb x y = true -> PrimFloat.leb x y = true.
Proof. rewrite FloatAxioms.ltb_spec, FloatAxioms.leb_spec. apply SFltb_SFleb. Qed.

Lemma leb_total (x y : float) :
  PrimFloat.is_nan x = false -> PrimFloat.is_nan y = false ->
  PrimFloat.ltb y x = false -> PrimFloat.leb x y = true.
Proof.
  intros Hx Hy. rewrite FloatAxioms.ltb_spec, FloatAxioms.leb_spec.
  apply SFleb_total; now apply is_nan_false.
Qed.

Lemma SFcompare_refl (x : spec_float) :
  x <> S754_nan -> SFcompare x x = Some Eq.
Proof.
  destruct x as [sx|sx| |sx mx ex]; simpl; intros H;
    try reflexivity; try contradiction.
  - now destruct sx.
  - rewrite Z.compare_refl, Pos.compare_cont_refl. now destruct sx.
Qed.

Lemma is_nan_false_iff (x : float) :
  PrimFloat.is_nan x = false <-> Prim2SF x <> S754_nan.
Proof.
  split; [apply is_nan_false|].
  intros H. unfold PrimFloat.is_nan. rewrite FloatAxioms.eqb_spec.
  unfold SFeqb. now rewrite SFcompare_refl.
Qed.

Lemma leb_is_nan (x y : float) :
  PrimFloat.leb x y = true ->
  PrimFloat.is_nan x = false /\ PrimFloat.is_nan y = false.
Proof.
  rewrite FloatAxioms.leb_spec, !is_nan_false_iff. unfold SFleb.
  destruct (Prim2SF x), (Prim2SF y); simpl; try discriminate;
    intros _; split; discriminate.
Qed.

End SpecOrder.

(* ================================================================== *)
(** * FilterEngine: exposure value and filter selector *)
(* ================================================================== *)

Section FilterControls.
Import JS Canvas Filters.

Lemma ltb_is_nan (x y : float) :
  PrimFloat.ltb x y = true ->
  PrimFloat.is_nan x = false /\ PrimFloat.is_nan y = false.
Proof. intros H. apply leb_is_nan. now apply ltb_leb. Qed.

Lemma leb_not_ltb (x y : float) :
  PrimFloat.leb x y = true -> PrimFloat.ltb y x = false.
Proof.
  rewrite FloatAxioms.ltb_spec, FloatAxioms.leb_spec.
  unfold SFltb, SFleb. rewrite (SFcompare_antisym (Prim2SF x) (Prim2SF y)).
  destruct (SFcompare (Prim2SF x) (Prim2SF y)) as [[]|]; simpl;
    congruence.
Qed.

Lemma Prim2SF_two :
  Prim2SF 2%float = S754_finite false 4503599627370496 (-51).
Proof. vm_compute. reflexivity. Qed.

Lemma Prim2SF_minus_two :
  Prim2SF (-2)%float = S754_finite true 4503599627370496 (-51).
Proof. vm_compute. reflexivity. Qed.

(** A Number above 2 is not below -2, and one below -2 is below 2:
    the signs decide. *)
Lemma above_two_not_below (x : float) :
  PrimFloat.ltb 2%float x = true -> PrimFloat.ltb x (-2)%float = false.
Proof.
  rewrite !FloatAxioms.ltb_spec. unfold SFltb.
  rewrite Prim2SF_two, Prim2SF_minus_two.
  destruct (Prim2SF x) as [s|s| |s m e]; cbv beta iota delta [SFcompare];
    try discriminate; destruct s; try discriminate; reflexivity.
Qed.

Lemma below_minus_two_below_two (x : float) :
  PrimFloat.ltb x (-2)%float = true -> PrimFloat.ltb x 2%float = true.
Proof.
  rewrite !FloatAxioms.ltb_spec. unfold SFltb.
  rewrite Prim2SF_two, Prim2SF_minus_two.
  destruct (Prim2SF x) as [s|s| |s m e]; cbv beta iota delta [SFcompare];
    try discriminate; destruct s; try discriminate; reflexivity.
Qed.

Lemma below_two_not_above (x : float) :
  PrimFloat.ltb x (-2)%float = true -> PrimFloat.ltb 2%float x = false.
Proof.
  intros H. destruct (PrimFloat.ltb 2%float x) eqn:E; [|reflexivity].
  apply above_two_not_below in E. congruence.
Qed.

(** The clamp of [setExposure] on a Number that is not NaN. *)
Lemma clamp_exposure (ev : float) :
  PrimFloat.is_nan ev = false ->
  let v := Math_max (-2)%float (Math_min 2%float ev) in
  (PrimFloat.ltb 2%float ev = true -> v = 2%float) /\
  (PrimFloat.ltb ev (-2)%float = true -> v = (-2)%float) /\
  (PrimFloat.leb (-2)%float ev = true -> PrimFloat.leb ev 2%float = true ->
   v = ev).
Proof.
  intros Hnan v. subst v. unfold Math_max, Math_min.
  change (PrimFloat.is_nan 2%float) with false.
  change (PrimFloat.is_nan (-2)%float) with false.
  change (PrimFloat.get_sign 2%float) with false.
  change (PrimFloat.get_sign (-2)%float) with true.
  rewrite Hnan. cbn [orb].
  repeat split.
  - intros H. rewrite H. reflexivity.
  - intros H. rewrite (below_two_not_above _ H).
    pose proof (below_minus_two_below_two _ H) as H2.
    rewrite H2, Hnan. cbn [orb].
    rewrite (leb_not_ltb _ _ (ltb_leb _ _ H)), H. reflexivity.
  - intros Hlo Hhi.
    rewrite (leb_not_ltb _ _ Hhi).
    assert (Hy : (if PrimFloat.ltb ev 2%float then ev else ev) = ev)
      by (destruct (PrimFloat.ltb ev 2%float); reflexivity).
    rewrite Hy, Hnan. cbn [orb].
    rewrite (leb_not_ltb _ _ Hlo).
    destruct (PrimFloat.ltb (-2)%float ev); reflexivity.
Qed.

(** C7 (amended).  [setExposure(ev)] with a Number [ev] that is not NaN,
    of any magnitude and either infinity included, stores a value in
    [-2, 2]: 2 for an input above 2, -2 for an input below -2, and the
    input itself when it lies in the range. *)
Theorem setExposure_clamps (this : FilterEngine) (ev : float) :
  PrimFloat.is_nan ev = false ->
  let v := exposureEV (setExposure this ev) in
  PrimFloat.leb (-2)%float v = true /\
  PrimFloat.leb v 2%float = true /\
  (PrimFloat.ltb 2%float ev = true -> v = 2%float) /\
  (PrimFloat.ltb ev (-2)%float = true -> v = (-2)%float) /\
  (PrimFloat.leb (-2)%float ev = true -> PrimFloat.leb ev 2%float = true ->
   v = ev).
Proof.
  intros Hnan v. subst v. cbn [exposureEV setExposure].
  destruct (clamp_exposure ev Hnan) as (Hhi & Hlo & Hmid).
  assert (Hrange :
    PrimFloat.leb (-2)%float (Math_max (-2)%float (Math_min 2%float ev)) = true /\
    PrimFloat.leb (Math_max (-2)%float (Math_min 2%float ev)) 2%float = true).
  { destruct (PrimFloat.ltb 2%float ev) eqn:E2.
    - rewrite (Hhi eq_refl). split; reflexivity.
    - destruct (PrimFloat.ltb ev (-2)%float) eqn:E1.
      + rewrite (Hlo eq_refl). split; reflexivity.
      + assert (H1 : PrimFloat.leb (-2)%float ev = true)
          by (apply leb_total; auto).
        assert (H2 : PrimFloat.leb ev 2%float = true)
          by (apply leb_total; auto).
        rewrite (Hmid H1 H2). split; assumption. }
  destruct Hrange as [H1 H2]. repeat split; assumption.
Qed.

Lemma setExposure_clamps_witness :
  PrimFloat.leb (-2)%float
    (exposureEV (setExposure constructor 10%float)) = true /\
  exposureEV (setExposure constructor 10%float) = 2%float.
Proof.
  destruct (setExposure_clamps constructor 10%float eq_refl)
    as (H1 & _ & H3 & _).
  split; [exact H1 | exact (H3 eq_refl)].
Defined.

(** The two inputs the specification names. *)
Example setExposure_ten :
  exposureEV (setExposure constructor 10%float) = 2%float.
Proof. reflexivity. Qed.

Example setExposure_minus_hundred :
  exposureEV (setExposure constructor (-100)%float) = (-2)%float.
Proof. reflexivity. Qed.

Example setExposure_infinity :
  exposureEV (setExposure constructor PrimFloat.infinity) = 2%float.
Proof. reflexivity. Qed.

(** C7, as stated, fails on NaN: [Math.min] and [Math.max] return NaN,
    which is stored and lies in no range. *)
Lemma setExposure_NaN_not_in_range :
  exposureEV (setExposure constructor PrimFloat.nan) = PrimFloat.nan /\
  PrimFloat.leb (-2)%float
    (exposureEV (setExposure constructor PrimFloat.nan)) = false /\
  PrimFloat.leb
    (exposureEV (setExposure constructor PrimFloat.nan)) 2%float = false.
Proof. repeat split; reflexivity. Qed.

(** C10.  [setFilter] stores any name; with a name other than 'mono',
    'warm' and 'cool' the [switch] of [_applyFilter] takes its default
    branch: the context, its surface and the calls it received are what
    they were. *)
Theorem unknown_filter_is_identity (this : FilterEngine) (name : string)
    (c : context2d) (w h : Z) :
  name <> "mono" -> name <> "warm" -> name <> "cool" ->
  activeFilter (setFilter this name) = name /\
  _applyFilter (setFilter this name) c w h = c /\
  pixels (_applyFilter (setFilter this name) c w h) = pixels c /\
  calls (_applyFilter (setFilter this name) c w h) = calls c.
Proof.
  intros Hm Hw Hc. unfold _applyFilter. simpl.
  apply String.eqb_neq in Hm, Hw, Hc. rewrite Hm, Hw, Hc.
  repeat split; reflexivity.
Qed.

Lemma unknown_filter_is_identity_witness :
  let c := {| pixels := [10; 20; 30; 255];
              globalCompositeOperation := "source-over";
              fillStyle := {| red := 0; green := 0; blue := 0;
                              alpha := 1%float |};
              calls := [] |} in
  _applyFilter (setFilter constructor "none") c 1 1 = c /\
  _applyFilter (setFilter constructor EmptyString) c 1 1 = c /\
  _applyFilter (setFilter constructor "sepia") c 1 1 = c.
Proof.
  intros c. split; [|split].
  - apply (unknown_filter_is_identity constructor "none" c 1 1);
      discriminate.
  - apply (unknown_filter_is_identity constructor EmptyString c 1 1);
      discriminate.
  - apply (unknown_filter_is_identity constructor "sepia" c 1 1);
      discriminate.
Defined.

End FilterControls.

Section RenderStep.
Import JS Canvas Filters.

Variable Math_pow : float -> float -> float.
Variable composite : string -> source -> list Z -> list Z.

(** C3.  In a render step that draws (engine running, video readable,
    surface of non-zero size), the exposure stage with a stored value
    [EV] that is zero sets and fills nothing, and the frame as drawn
    reaches the filter stage.  With any other stored value it sets the
    composite operation to source-over, assigns the fill style the
    string of white with alpha [(2^EV - 1) * 0.15] and fills the whole
    surface, once.  When that alpha is a finite number the style
    becomes white with the alpha clamped to 0..1 (so 0 when it is
    negative), and the surface is the drawn one under that fill; when
    it is NaN or infinite the string is no colour, the style stays
    what it was, and the surface is filled in that earlier style. *)
Theorem render_exposure_overlay (this : FilterEngine) (v : video)
    (cv : canvas) (raf : nat) :
  _running this = true -> 2 <= readyState v ->
  width cv <> 0 -> height cv <> 0 ->
  let w := width cv in
  let h := height cv in
  let drawn := drawImage composite (ctx cv) v w h in
  let exposed := exposure_simulation Math_pow composite this drawn w h in
  let opacity := ((Math_pow 2%float (exposureEV this) - 1) * 0.15)%float in
  let asked := {| red := 255; green := 255; blue := 255;
                  alpha := opacity |} in
  let white := {| red := 255; green := 255; blue := 255;
                  alpha := clamp_alpha opacity |} in
  ctx (_render Math_pow composite this v cv raf).2
    = _applyFilter this exposed w h /\
  (strict_ne_zero (exposureEV this) = false ->
     exposed = drawn /\
     calls exposed = calls (ctx cv) ++ [DrawImage w h]) /\
  (strict_ne_zero (exposureEV this) = true ->
     calls exposed = calls (ctx cv) ++
       [DrawImage w h; SetGlobalCompositeOperation "source-over";
        SetFillStyle asked; FillRect 0 0 w h] /\
     globalCompositeOperation exposed = "source-over" /\
     (PrimFloat.is_finite opacity = true ->
        fillStyle exposed = white /\
        pixels exposed
          = composite "source-over" (Fill white) (pixels drawn) /\
        (PrimFloat.ltb opacity 0%float = true ->
           alpha (fillStyle exposed) = 0%float) /\
        (PrimFloat.ltb opacity 0%float = false ->
         PrimFloat.ltb 1%float opacity = false ->
           alpha (fillStyle exposed) = opacity)) /\
     (PrimFloat.is_finite opacity = false ->
        fillStyle exposed = fillStyle (ctx cv) /\
        pixels exposed
          = composite "source-over" (Fill (fillStyle (ctx cv)))
              (pixels drawn))).
Proof.
  intros Hrun Hready Hw Hh w h drawn exposed opacity asked white.
  split; [|split].
  - unfold _render. rewrite Hrun. cbn [negb].
    destruct (readyState v <? 2) eqn:E; [apply Z.ltb_lt in E; lia|].
    destruct (width cv =? 0) eqn:E1; [apply Z.eqb_eq in E1; contradiction|].
    destruct (height cv =? 0) eqn:E2; [apply Z.eqb_eq in E2; contradiction|].
    reflexivity.
  - intros H0. subst exposed. unfold exposure_simulation. rewrite H0.
    split; reflexivity.
  - intros H1. subst exposed. unfold exposure_simulation.
    rewrite H1. fold opacity asked.
    unfold fillRect, set_fillStyle, set_globalCompositeOperation.
    change (alpha asked) with opacity.
    split; [|split; [|split]].
    + destruct (PrimFloat.is_finite opacity); cbn;
        rewrite <- !app_assoc; reflexivity.
    + destruct (PrimFloat.is_finite opacity); reflexivity.
    + intros Hfin. rewrite Hfin. cbn.
      split; [reflexivity|]. split; [reflexivity|].
      unfold clamp_alpha. split.
      * intros Hneg. now rewrite Hneg.
      * intros Hneg Hbig. now rewrite Hneg, Hbig.
    + intros Hfin. rewrite Hfin. split; reflexivity.
Qed.

End RenderStep.

Lemma render_exposure_overlay_witness :
  let this := {| Filters.exposureEV := 1%float;
                 Filters.activeFilter := "none";
                 Filters._running := true;
                 Filters._rafId := None |} in
  let c := {| Canvas.pixels := [0; 0; 0; 0];
              Canvas.globalCompositeOperation := "copy";
              Canvas.fillStyle := {| Canvas.red := 0; Canvas.green := 0;
                                     Canvas.blue := 0;
                                     Canvas.alpha := 1%float |};
              Canvas.calls := [] |} in
  let cv := {| Canvas.width := 1; Canvas.height := 1; Canvas.ctx := c |} in
  let out :=
    Canvas.ctx
      (Filters._render pow_table source_over this sample_video cv 1%nat).2 in
  Canvas.calls out
    = [Canvas.DrawImage 1 1;
       Canvas.SetGlobalCompositeOperation "source-over";
       Canvas.SetFillStyle {| Canvas.red := 255; Canvas.green := 255;
                              Canvas.blue := 255;
                              Canvas.alpha := 0.15%float |};
       Canvas.FillRect 0 0 1 1] /\
  Canvas.fillStyle out
    = {| Canvas.red := 255; Canvas.green := 255; Canvas.blue := 255;
         Canvas.alpha := 0.15%float |}.
Proof.
  intros this c cv out.
  assert (Hready : 2 <= Canvas.readyState sample_video) by (cbn; lia).
  assert (Hside : Canvas.width cv <> 0) by discriminate.
  destruct (render_exposure_overlay pow_table source_over this sample_video
              cv 1%nat eq_refl Hready Hside Hside) as (H & _ & H1).
  destruct (H1 eq_refl) as (Hcalls & _ & Hfin & _).
  destruct (Hfin eq_refl) as (Hstyle & _).
  subst out. rewrite H.
  change (Filters._applyFilter this ?e (Canvas.width cv) (Canvas.height cv))
    with e.
  rewrite Hcalls, Hstyle. split; reflexivity.
Defined.

(** Two stored values for which the exposure stage is no white
    overlay of opacity [(2^EV - 1) * 0.15], on a canvas of one pixel
    whose fill style is opaque black and a frame (10, 20, 30, 255).
    NaN, which [setExposure] stores: the style stays opaque black and
    the fill covers the frame with it.  -1: the opacity asked for is
    -0.075, the style has alpha 0, and the frame is left as drawn. *)
Lemma exposure_overlay_not_for_every_EV :
  let engine := fun ev => {| Filters.exposureEV := ev;
                            Filters.activeFilter := "none";
                            Filters._running := true;
                            Filters._rafId := None |} in
  let cv := {| Canvas.width := 1; Canvas.height := 1;
               Canvas.ctx := sample_context [1; 2; 3; 4] |} in
  let step := fun ev =>
    Canvas.ctx
      (Filters._render pow_table source_over (engine ev) sample_video cv
         1%nat).2 in
  let black := {| Canvas.red := 0; Canvas.green := 0; Canvas.blue := 0;
                  Canvas.alpha := 1%float |} in
  (Filters.exposureEV (Filters.setExposure (engine 0%float) PrimFloat.nan)
     = PrimFloat.nan /\
   Canvas.calls (step PrimFloat.nan)
     = [Canvas.DrawImage 1 1;
        Canvas.SetGlobalCompositeOperation "source-over";
        Canvas.SetFillStyle {| Canvas.red := 255; Canvas.green := 255;
                               Canvas.blue := 255;
                               Canvas.alpha := PrimFloat.nan |};
        Canvas.FillRect 0 0 1 1] /\
   Canvas.fillStyle (step PrimFloat.nan) = black /\
   Canvas.pixels (step PrimFloat.nan) = [0; 0; 0; 255]) /\
  (Filters.exposureEV (Filters.setExposure (engine 0%float) (-1)%float)
     = (-1)%float /\
   ((pow_table 2 (-1) - 1) * 0.15)%float = (-0.075)%float /\
   Canvas.alpha (Canvas.fillStyle (step (-1)%float)) = 0%float /\
   Canvas.pixels (step (-1)%float) = [10; 20; 30; 255]).
Proof. repeat split; vm_compute; reflexivity. Qed.


(* ================================================================== *)
(** * getCameraConstraints *)
(* ================================================================== *)

Section ConstraintShape.
Import Constraints.

(** C8.  For every facing preference, given or left out, the constraint
    object disables audio, asks for the facing mode, width 1280 and
    height 720 as "ideal" only, for the frame rate as ideal 30 with max
    30, and has no property named "exact" anywhere. *)
Theorem getCameraConstraints_never_exact (facingMode : option string) :
  let c := getCameraConstraints facingMode in
  field "audio" c = Some (Bool false) /\
  (exists video,
     field "video" c = Some video /\
     field "facingMode" video
       = Some (Obj [("ideal", Str (default "environment" facingMode))]) /\
     field "width" video = Some (Obj [("ideal", Num 1280)]) /\
     field "height" video = Some (Obj [("ideal", Num 720)]) /\
     field "frameRate" video
       = Some (Obj [("ideal", Num 30); ("max", Num 30)]) /\
     (forall key constraint,
        key ∈ ["facingMode"; "width"; "height"; "frameRate"] ->
        field key video = Some constraint ->
        field "exact" constraint = None /\
        is_Some (field "ideal" constraint))) /\
  mentions "exact" c = false.
Proof.
  intros c. subst c. split; [reflexivity|]. split; [|reflexivity].
  eexists. split; [reflexivity|].
  repeat (split; [reflexivity|]).
  intros key constraint Hkey.
  repeat (apply elem_of_cons in Hkey as [->|Hkey]);
    [| | | |apply elem_of_nil in Hkey; contradiction];
    intros [= <-]; split; try reflexivity; eexists; reflexivity.
Qed.

End ConstraintShape.

(* ================================================================== *)
(** * CameraController: track handle and running flag *)
(* ================================================================== *)

Section SessionInvariant.
Import Camera.

(** Every operation of the controller keeps it consistent. *)
Lemma consistent_constructor : consistent constructor.
Proof.
  split.
  - split; [intros [x H]; discriminate H | discriminate].
  - discriminate.
Qed.

Lemma consistent_setStatus this text :
  consistent this -> consistent (_setStatus this text).
Proof. intros H. exact H. Qed.

Lemma consistent_handleError this name :
  consistent this -> consistent (_handleError this name).
Proof.
  intros H. unfold _handleError.
  repeat case_match; now apply consistent_setStatus.
Qed.

Lemma consistent_start_bind this s :
  videoTracks s <> [] -> consistent this -> consistent (start_bind this s).
Proof.
  intros Hs [H1 H2]. split; [exact H1|].
  simpl. intros s' [= <-]. exact Hs.
Qed.

Lemma consistent_start_ready this :
  consistent this -> consistent (start_ready this).
Proof.
  intros H. unfold start_ready.
  destruct (stream this) as [s|] eqn:E.
  - destruct H as [H1 H2]. split; simpl.
    + split; [reflexivity|]. intros _.
      specialize (H2 s E). destruct (videoTracks s); [contradiction|].
      eexists. reflexivity.
    + intros s0 [= <-]. exact (H2 s E).
  - now apply consistent_handleError.
Qed.

Lemma consistent_stop this : consistent this -> consistent (stop this).
Proof.
  intros H. unfold stop. destruct (stream this); [|exact H].
  split; simpl.
  - split; [intros [x Hx]; discriminate Hx | discriminate].
  - discriminate.
Qed.

Lemma consistent_step s s' :
  step s s' -> consistent s.1 -> consistent s'.1.
Proof.
  intros Hstep. destruct Hstep; simpl; intros Hc.
  - exact Hc.
  - unfold start_request. rewrite H. simpl.
    now apply consistent_setStatus.
  - now apply consistent_start_bind.
  - now apply consistent_handleError.
  - now apply consistent_start_ready.
  - now apply consistent_stop.
Qed.

Lemma reachable_consistent s : reachable s -> consistent s.1.
Proof.
  induction 1 as [|s s' _ IH Hstep].
  - exact consistent_constructor.
  - exact (consistent_step s s' Hstep IH).
Qed.

(** C4.  In every state reachable from a fresh controller by calls of
    [start] and [stop] and by the resumptions of suspended [start]s, in
    any interleaving, the controller holds a video track handle if and
    only if it runs. *)
Theorem track_iff_running (this : CameraController)
    (pending : list suspended) :
  reachable (this, pending) ->
  (is_Some (videoTrack this) <-> isRunning this = true).
Proof.
  intros H. exact (proj1 (reachable_consistent _ H)).
Qed.

(** A run: [start], the stream is granted, the video gets ready. *)
Lemma reachable_running :
  reachable
    (start_ready
       (start_bind (start_request constructor).1
          {| videoTracks := [7%nat]; audioTracks := [] |}),
     []).
Proof.
  eapply reachable_step.
  - eapply reachable_step.
    + eapply reachable_step.
      * exact reachable_initial.
      * apply step_start. reflexivity.
    + apply (step_granted _ [] [] {| videoTracks := [7%nat];
                                     audioTracks := [] |}).
      discriminate.
  - apply (step_ready _ [] []).
Defined.

Lemma track_iff_running_witness :
  let this :=
    start_ready
      (start_bind (start_request constructor).1
         {| videoTracks := [7%nat]; audioTracks := [] |}) in
  videoTrack this = Some 7%nat /\
  (is_Some (videoTrack this) <-> isRunning this = true).
Proof.
  intros this. split; [reflexivity|].
  exact (track_iff_running this [] reachable_running).
Defined.

(** [stop] while a [start] waits for the video: the resumed [start]
    finds no stream and leaves the controller stopped. *)
Example stop_during_start :
  let s := {| videoTracks := [7%nat]; audioTracks := [] |} in
  let this := start_ready (stop (start_bind (start_request constructor).1 s)) in
  videoTrack this = None /\ isRunning this = false /\
  statusText this = "Camera error".
Proof. repeat split. Qed.

End SessionInvariant.

(* ================================================================== *)
(** * CaptureController.capture *)
(* ================================================================== *)

Section CaptureOutcome.
Import Canvas Capture.

Variable Blob : Type.
Variable encode : canvas -> string -> float -> option Blob.

(** C5.  [capture] on a surface of zero width or zero height rejects
    with the not-ready error and encodes nothing.  Otherwise it encodes
    the surface with the given type and quality (defaults 'image/jpeg'
    and 0.92); it rejects with the encoding error exactly when the
    encoder produces no data, and else resolves with the blob, the
    width and height of the surface and the time of the callback. *)
Theorem capture_outcome (cv : canvas) (opts : options) (later : canvas)
    (now : Z) :
  let type := default "image/jpeg" (type opts) in
  let quality := default 0.92%float (quality opts) in
  let outcome := capture Blob encode (Some cv) opts later now in
  ((width cv = 0 \/ height cv = 0) ->
     outcome = inl NotReady /\ forall r, outcome <> inr r) /\
  (width cv <> 0 -> height cv <> 0 ->
     (outcome = inl EncodingError <-> encode cv type quality = None) /\
     (forall b, encode cv type quality = Some b ->
        outcome = inr {| blob := b;
                         result_width := width later;
                         result_height := height later;
                         timestamp := now |}) /\
     (forall r, outcome = inr r ->
        encode cv type quality = Some (blob Blob r) /\
        result_width Blob r = width later /\
        result_height Blob r = height later /\
        timestamp Blob r = now /\
        (width later = width cv -> height later = height cv ->
         result_width Blob r = width cv /\
         result_height Blob r = height cv))).
Proof.
  intros type quality outcome. subst outcome type quality.
  unfold capture. split.
  - intros H.
    assert (E : (width cv =? 0) || (height cv =? 0) = true).
    { destruct H as [H|H]; rewrite H; rewrite ?orb_true_r; reflexivity. }
    rewrite E. split; [reflexivity | discriminate].
  - intros Hw Hh.
    apply Z.eqb_neq in Hw, Hh. rewrite Hw, Hh. cbn [orb].
    destruct (encode cv _ _) as [b|].
    + split; [split; discriminate|]. split.
      * intros b' [= <-]. reflexivity.
      * intros r [= <-]. cbn. repeat split; auto.
    + split; [split; reflexivity|]. split; discriminate.
Qed.

End CaptureOutcome.

Lemma capture_outcome_witness :
  let c := {| Canvas.pixels := [];
              Canvas.globalCompositeOperation := "source-over";
              Canvas.fillStyle := {| Canvas.red := 0; Canvas.green := 0;
                                     Canvas.blue := 0;
                                     Canvas.alpha := 1%float |};
              Canvas.calls := [] |} in
  let empty := {| Canvas.width := 0; Canvas.height := 720; Canvas.ctx := c |} in
  let sized := {| Canvas.width := 1280; Canvas.height := 720;
                  Canvas.ctx := c |} in
  let opts := {| Capture.type := None; Capture.quality := None |} in
  let encode :=
    fun (cv : Canvas.canvas) (t : string) (_ : float) => Some t in
  Capture.capture string encode (Some empty) opts empty 5
    = inl Capture.NotReady /\
  Capture.capture string encode (Some sized) opts sized 5
    = inr {| Capture.blob := "image/jpeg";
             Capture.result_width := 1280;
             Capture.result_height := 720;
             Capture.timestamp := 5 |}.
Proof.
  intros c empty sized opts encode. split.
  - apply (capture_outcome string encode empty opts empty 5).
    left. reflexivity.
  - apply (capture_outcome string encode sized opts sized 5);
      [discriminate | discriminate | reflexivity].
Defined.

(* ================================================================== *)
(** * GalleryController: add and clear *)
(* ================================================================== *)

Section GalleryClear.
Import Gallery.

Variable Blob : Type.
Variable throws : nat -> bool.

Abbreviation entry := (entry Blob).
Abbreviation GalleryController := (GalleryController Blob).

(** The loop of [clear] completes normally whatever throws, has called
    [revokeObjectURL] on every item in order, and has removed from the
    live URLs those whose revocation did not throw. *)
Lemma for_of_try_revoke (l : list entry) (st : url_store) :
  exists st',
    for_of Blob (try_revoke Blob throws) l st = (Normal, st') /\
    next st' = next st /\
    revoke_calls st' = revoke_calls st ++ (url Blob <$> l) /\
    (forall u, u ∈ live st' <->
       u ∈ live st /\ ~ (u ∈ (url Blob <$> l) /\ throws u = false)).
Proof.
  revert st. induction l as [|item rest IH]; intros st.
  - exists st. cbn [for_of fmap list_fmap]. rewrite app_nil_r.
    split; [reflexivity|]. split; [reflexivity|]. split; [reflexivity|].
    intros u. split.
    + intros Hu. split; [exact Hu|]. intros [Hin _].
      apply elem_of_nil in Hin. exact Hin.
    + intros [Hu _]. exact Hu.
  - cbn [for_of]. unfold try_revoke at 1. unfold revokeObjectURL.
    destruct (throws (url Blob item)) eqn:Et.
    + destruct (IH {| next := next st; live := live st;
                      revoke_calls := revoke_calls st ++ [url Blob item] |})
        as (st' & Hrun & Hnext & Hcalls & Hlive).
      exists st'. split; [exact Hrun|]. split; [exact Hnext|]. split.
      * rewrite Hcalls. cbn [revoke_calls]. rewrite <- app_assoc.
        reflexivity.
      * intros u. rewrite Hlive. cbn [live]. rewrite fmap_cons.
        split; intros [Hu Hn]; (split; [exact Hu|]); intros [Hin Hf].
        -- apply elem_of_cons in Hin as [->|Hin]; [congruence|].
           apply Hn. split; assumption.
        -- apply Hn. split; [|exact Hf]. apply elem_of_cons. now right.
    + destruct (IH {| next := next st; live := live st ∖ {[url Blob item]};
                      revoke_calls := revoke_calls st ++ [url Blob item] |})
        as (st' & Hrun & Hnext & Hcalls & Hlive).
      exists st'. split; [exact Hrun|]. split; [exact Hnext|]. split.
      * rewrite Hcalls. cbn [revoke_calls]. rewrite <- app_assoc.
        reflexivity.
      * intros u. rewrite Hlive. cbn [live]. rewrite fmap_cons.
        rewrite elem_of_difference, elem_of_singleton.
        split.
        -- intros [[Hu Hne] Hn]. split; [exact Hu|]. intros [Hin Hf].
           apply elem_of_cons in Hin as [->|Hin]; [congruence|].
           apply Hn. split; assumption.
        -- intros [Hu Hn]. split; [split; [exact Hu|]|].
           ++ intros ->. apply Hn. split; [|exact Et].
              apply elem_of_cons. now left.
           ++ intros [Hin Hf]. apply Hn. split; [|exact Hf].
              apply elem_of_cons. now right.
Qed.

(** [add] appends one entry, whose URL is fresh and live. *)
Lemma add_spec (this : GalleryController) (c : capture Blob)
    (st : url_store) :
  let '(e, this', st') := add Blob this c st in
  items Blob this' = items Blob this ++ [e] /\
  url Blob e = next st /\ url Blob e ∈ live st' /\
  (forall u, u ∈ live st -> u ∈ live st').
Proof.
  cbn. repeat split; try reflexivity; set_solver.
Qed.

Lemma add_all_length (cs : list (capture Blob)) (this : GalleryController)
    (st : url_store) :
  length (items Blob (add_all Blob this cs st).1)
    = (length (items Blob this) + length cs)%nat.
Proof.
  revert this st. induction cs as [|c cs IH]; intros this st.
  - cbn. lia.
  - unfold add_all in *. cbn [foldl]. cbn [add createObjectURL].
    rewrite IH. cbn. rewrite length_app. cbn. lia.
Qed.

(** C6.  [clear], on any gallery, completes normally: it calls
    [revokeObjectURL] on the URL of every stored entry, in order, going
    on past any call that throws; it leaves the gallery with no entry,
    and no stored URL whose revocation did not throw stays live.  So it
    is after any sequence of [add]s, and after one [add] the entry just
    returned is among those revoked; on an empty gallery [clear]
    completes normally and changes nothing. *)
Theorem clear_releases_every_entry (this : GalleryController)
    (cs : list (capture Blob)) (c : capture Blob) (st : url_store) :
  (exists st',
     clear Blob throws this st = (Normal, {| items := [] |}, st') /\
     revoke_calls st' = revoke_calls st ++ (url Blob <$> items Blob this) /\
     (forall e, e ∈ items Blob this -> throws (url Blob e) = false ->
                url Blob e ∉ live st')) /\
  (let '(filled, st1) := add_all Blob this cs st in
   length (items Blob filled)
     = (length (items Blob this) + length cs)%nat /\
   exists st2,
     clear Blob throws filled st1 = (Normal, {| items := [] |}, st2) /\
     revoke_calls st2 = revoke_calls st1 ++ (url Blob <$> items Blob filled) /\
     (forall e, e ∈ items Blob filled -> throws (url Blob e) = false ->
                url Blob e ∉ live st2)) /\
  (let '(e, this1, st1) := add Blob this c st in
   url Blob e ∈ live st1 /\
   exists st2,
     clear Blob throws this1 st1 = (Normal, {| items := [] |}, st2) /\
     url Blob e ∈ revoke_calls st2 /\
     (throws (url Blob e) = false -> url Blob e ∉ live st2)) /\
  clear Blob throws {| items := [] |} st = (Normal, {| items := [] |}, st).
Proof.
  assert (Hclear : forall (g : GalleryController) (s : url_store),
    exists st',
      clear Blob throws g s = (Normal, {| items := [] |}, st') /\
      revoke_calls st' = revoke_calls s ++ (url Blob <$> items Blob g) /\
      (forall e, e ∈ items Blob g -> throws (url Blob e) = false ->
                 url Blob e ∉ live st')).
  { intros g s.
    destruct (for_of_try_revoke (items Blob g) s)
      as (st' & Hrun & _ & Hcalls & Hlive).
    exists st'. unfold clear. rewrite Hrun.
    split; [reflexivity|]. split; [exact Hcalls|].
    intros e He Ht Hu. apply Hlive in Hu. destruct Hu as [_ Hu].
    apply Hu. split; [|exact Ht].
    apply list_elem_of_fmap. exists e. split; [reflexivity | exact He]. }
  split; [apply Hclear|]. split; [|split].
  - pose proof (add_all_length cs this st) as Hlen.
    destruct (add_all Blob this cs st) as [filled st1].
    split; [exact Hlen | apply Hclear].
  - pose proof (add_spec this c st) as Hadd.
    destruct (add Blob this c st) as [[e this1] st1].
    destruct Hadd as (Hitems & _ & Hlive & _).
    split; [exact Hlive|].
    destruct (Hclear this1 st1) as (st2 & Hrun & Hcalls & Hdead).
    exists st2. split; [exact Hrun|]. split.
    + rewrite Hcalls, Hitems, fmap_app. cbn.
      apply elem_of_app. right. apply elem_of_app. right.
      apply elem_of_cons. now left.
    + apply Hdead. rewrite Hitems. apply elem_of_app. right.
      apply elem_of_cons. now left.
  - reflexivity.
Qed.

End GalleryClear.

(* ================================================================== *)
(** * Loops over the pixels of a typed array *)
(* ================================================================== *)

Section PixelLoop.
Import TypedArray.

(** Two arrays of one length that agree at [j] still agree at [j]
    after the same store. *)
Lemma insert_lookup_congr (d d' : list Z) (k j : nat) (v : Z) :
  length d = length d' -> d !! j = d' !! j ->
  <[k := v]> d !! j = <[k := v]> d' !! j.
Proof.
  intros Hlen Hj. destruct (decide (k = j)) as [->|Hne].
  - destruct (decide (j < length d)%nat) as [Hlt|Hge].
    + rewrite !list_lookup_insert_eq by lia. reflexivity.
    + rewrite !list_insert_ge by lia. exact Hj.
  - rewrite !list_lookup_insert_ne by exact Hne. exact Hj.
Qed.

Lemma set_length (d : list Z) (i : nat) (x : float) :
  length (set d i x) = length d.
Proof. apply length_insert. Qed.

Lemma set_lookup_ne (d : list Z) (i j : nat) (x : float) :
  i <> j -> set d i x !! j = d !! j.
Proof. intros H. now apply list_lookup_insert_ne. Qed.

Lemma set_lookup_eq (d : list Z) (i : nat) (x : float) :
  (i < length d)%nat -> set d i x !! i = Some (ToUint8Clamp x).
Proof. intros H. now apply list_lookup_insert_eq. Qed.

Lemma set_lookup_congr (d d' : list Z) (k j : nat) (x : float) :
  length d = length d' -> d !! j = d' !! j ->
  set d k x !! j = set d' k x !! j.
Proof. apply insert_lookup_congr. Qed.

Lemma get_congr (d d' : list Z) (i : nat) :
  d !! i = d' !! i -> get d i = get d' i.
Proof. unfold get. now intros ->. Qed.

(** After the first [n] iterations, the bytes of the first [n] pixels
    are what the body gives on the input array, and the other bytes
    are untouched. *)
Lemma foldl_pixels (body : nat -> list Z -> list Z) (data : list Z)
    (n : nat) :
  pixel_local body ->
  let out := foldl (fun d i => body i d) data
               ((fun k => 4 * k)%nat <$> seq 0 n) in
  length out = length data /\
  forall j, out !! j =
    if (j / 4 <? n)%nat then body (4 * (j / 4))%nat data !! j else data !! j.
Proof.
  intros [Hlen Hframe Hreads]. induction n as [|n IH]; intros out.
  - subst out. cbn. split; [reflexivity|]. intros j. reflexivity.
  - subst out. rewrite seq_S, fmap_app, foldl_app. cbn [fmap list_fmap foldl].
    cbn zeta in IH. destruct IH as [IHlen IH].
    rewrite Nat.add_0_l.
    set (prev := foldl (fun d i => body i d) data
                   ((fun k => 4 * k)%nat <$> seq 0 n)) in *.
    split; [rewrite Hlen; exact IHlen|].
    intros j.
    destruct (decide (j / 4 = n)%nat) as [Hj|Hj].
    + assert (Hin : (4 * n <= j < 4 * n + 4)%nat).
      { subst n. pose proof (Nat.div_mod_eq j 4).
        pose proof (Nat.mod_upper_bound j 4). lia. }
      replace (j / 4 <? S n)%nat with true
        by (symmetry; apply Nat.ltb_lt; lia).
      rewrite Hj.
      apply Hreads; [exact IHlen | | exact Hin].
      intros k Hk. rewrite IH.
      replace (k / 4 <? n)%nat with false; [reflexivity|].
      symmetry. apply Nat.ltb_ge.
      apply Nat.div_le_lower_bound; lia.
    + assert (Hout : (j < 4 * n \/ 4 * n + 4 <= j)%nat).
      { pose proof (Nat.div_mod_eq j 4).
        pose proof (Nat.mod_upper_bound j 4). lia. }
      rewrite Hframe by exact Hout. rewrite IH.
      destruct (j / 4 <? n)%nat eqn:E1, (j / 4 <? S n)%nat eqn:E2;
        try reflexivity.
      * apply Nat.ltb_lt in E1. apply Nat.ltb_ge in E2. lia.
      * apply Nat.ltb_ge in E1. apply Nat.ltb_lt in E2. lia.
Qed.

(** After the loop, each byte is what the body gives for its pixel on
    the input array. *)
Lemma for_each_pixel_lookup (body : nat -> list Z -> list Z)
    (data : list Z) :
  pixel_local body ->
  length (for_each_pixel body data) = length data /\
  forall j, (j < length data)%nat ->
    for_each_pixel body data !! j = body (4 * (j / 4))%nat data !! j.
Proof.
  intros Hloc. unfold for_each_pixel, offsets.
  destruct (foldl_pixels body data ((length data + 3) / 4) Hloc)
    as [Hlen Hall].
  split; [exact Hlen|]. intros j Hj. rewrite Hall.
  replace (j / 4 <? (length data + 3) / 4)%nat with true; [reflexivity|].
  symmetry. apply Nat.ltb_lt.
  pose proof (Nat.div_mod_eq j 4). pose proof (Nat.mod_upper_bound j 4).
  pose proof (Nat.div_mod_eq (length data + 3) 4).
  pose proof (Nat.mod_upper_bound (length data + 3) 4). lia.
Qed.

End PixelLoop.

(* ================================================================== *)
(** * Checking a property of every byte by evaluation *)
(* ================================================================== *)

Section Exhaustive.

(** A check that evaluates to [true] holds of each integer of the
    range. *)
Lemma all_from_spec (n : nat) (z0 : Z) (p : Z -> bool) :
  all_from n z0 p = true ->
  forall z, z0 <= z < z0 + Z.of_nat n -> p z = true.
Proof.
  revert z0. induction n as [|k IH]; intros z0 H z Hz; [lia|].
  cbn [all_from] in H. apply andb_true_iff in H as [Hp Hrest].
  destruct (decide (z = z0)) as [->|Hne]; [exact Hp|].
  apply (IH (z0 + 1) Hrest). lia.
Qed.

Lemma all_bytes_spec (p : Z -> bool) :
  all_bytes p = true -> forall z, 0 <= z <= 255 -> p z = true.
Proof.
  intros H z Hz. apply (all_from_spec 256 0 p H). lia.
Qed.

End Exhaustive.

(* ================================================================== *)
(** * The tonal filters, pixel by pixel *)
(* ================================================================== *)

Section TonalFilters.
Import JS TypedArray Canvas Filters.

Ltac lookup_sets :=
  repeat first
    [ rewrite set_lookup_ne by lia
    | rewrite set_lookup_eq by (rewrite ?set_length; lia) ].

(** The three loop bodies keep the length of the array, write inside
    their pixel only, and read nothing outside it. *)
Lemma grayscale_local : pixel_local grayscale_body.
Proof.
  split.
  - intros i d. unfold grayscale_body. now rewrite !set_length.
  - intros i d j Hj. unfold grayscale_body. now lookup_sets.
  - intros i d d' Hlen Hagree j Hj. unfold grayscale_body.
    rewrite (get_congr d d' i), (get_congr d d' (i + 1)),
            (get_congr d d' (i + 2)) by (apply Hagree; lia).
    repeat (apply set_lookup_congr; [now rewrite ?set_length|]).
    now apply Hagree.
Qed.

Lemma warm_local : pixel_local warm_body.
Proof.
  split.
  - intros i d. unfold warm_body. now rewrite !set_length.
  - intros i d j Hj. unfold warm_body. now lookup_sets.
  - intros i d d' Hlen Hagree j Hj. unfold warm_body.
    rewrite (get_congr d d' i) by (apply Hagree; lia).
    rewrite (get_congr (set d i _) (set d' i _) (i + 2))
      by (apply set_lookup_congr; [exact Hlen | apply Hagree; lia]).
    repeat (apply set_lookup_congr; [now rewrite ?set_length|]).
    now apply Hagree.
Qed.

Lemma cool_local : pixel_local cool_body.
Proof.
  split.
  - intros i d. unfold cool_body. now rewrite !set_length.
  - intros i d j Hj. unfold cool_body. now lookup_sets.
  - intros i d d' Hlen Hagree j Hj. unfold cool_body.
    rewrite (get_congr d d' i) by (apply Hagree; lia).
    rewrite (get_congr (set d i _) (set d' i _) (i + 2))
      by (apply set_lookup_congr; [exact Hlen | apply Hagree; lia]).
    repeat (apply set_lookup_congr; [now rewrite ?set_length|]).
    now apply Hagree.
Qed.

(** The surface after a pass is the loop run on the surface before. *)
Lemma pass_pixels (body : nat -> list Z -> list Z) (c : context2d)
    (w h : Z) :
  pixels (pass body c w h) = for_each_pixel body (pixels c) /\
  calls (pass body c w h)
    = calls c ++ [GetImageData 0 0 w h; PutImageData 0 0].
Proof.
  unfold pass. cbn. rewrite <- app_assoc. split; reflexivity.
Qed.

Lemma get_Some (d : list Z) (i : nat) (z : Z) :
  d !! i = Some z -> get d i = of_byte z.
Proof. unfold get. now intros ->. Qed.

(** What a pass leaves at the four bytes of pixel [p]. *)
Lemma pass_pixel (body : nat -> list Z -> list Z) (c : context2d)
    (w h : Z) (p k : nat) :
  pixel_local body -> (k < 4)%nat ->
  (4 * p + k < length (pixels c))%nat ->
  pixels (pass body c w h) !! (4 * p + k)%nat
    = body (4 * p)%nat (pixels c) !! (4 * p + k)%nat.
Proof.
  intros Hloc Hk Hlen.
  rewrite (proj1 (pass_pixels body c w h)).
  rewrite (proj2 (for_each_pixel_lookup body (pixels c) Hloc)) by exact Hlen.
  replace ((4 * p + k) / 4)%nat with p; [reflexivity|].
  symmetry. rewrite Nat.mul_comm, Nat.div_add_l by lia.
  rewrite (Nat.div_small k 4) by lia. lia.
Qed.

(** Every byte passes the check of the warm filter, by evaluation. *)
Lemma warm_bytes_ok : all_bytes warm_byte_ok = true.
Proof. vm_cast_no_check (eq_refl true). Qed.

Lemma warm_byte_spec (z : Z) :
  0 <= z <= 255 ->
  let r' := ToUint8Clamp (Math_min 255%float (of_byte z * 1.05)%float) in
  let b' := ToUint8Clamp (Math_max 0%float (of_byte z * 0.95)%float) in
  z <= r' <= 255 /\ 0 <= b' <= z /\
  (21 * z <= 5100 -> Z.abs (20 * r' - 21 * z) <= 10) /\
  (5100 < 21 * z -> r' = 255) /\
  Z.abs (20 * b' - 19 * z) <= 10.
Proof.
  intros Hz r' b'.
  pose proof (all_bytes_spec _ warm_bytes_ok z Hz) as K.
  unfold warm_byte_ok in K. fold r' b' in K.
  rewrite !andb_true_iff, !Z.leb_le in K.
  destruct K as (((((K1 & K2) & K3) & K4) & K5) & K6).
  repeat split; try assumption.
  - intros Hle. apply Z.leb_le in Hle. rewrite Hle in K5.
    now apply Z.leb_le.
  - intros Hgt. apply Z.leb_gt in Hgt. rewrite Hgt in K5.
    now apply Z.eqb_eq.
Qed.

(** C9.  After one warm pass, every pixel of the surface has a red
    byte not below the one before (the integer nearest to 1.05 times
    it, capped at 255), a blue byte not above the one before (the
    integer nearest to 0.95 times it), and the green and alpha bytes
    it had. *)
Theorem warm_red_up_blue_down (c : context2d) (w h : Z) (p : nat)
    (r g b a : Z) :
  0 <= r <= 255 -> 0 <= b <= 255 ->
  pixels c !! (4 * p)%nat = Some r ->
  pixels c !! (4 * p + 1)%nat = Some g ->
  pixels c !! (4 * p + 2)%nat = Some b ->
  pixels c !! (4 * p + 3)%nat = Some a ->
  exists r' b',
    pixels (_warm c w h) !! (4 * p)%nat = Some r' /\
    pixels (_warm c w h) !! (4 * p + 1)%nat = Some g /\
    pixels (_warm c w h) !! (4 * p + 2)%nat = Some b' /\
    pixels (_warm c w h) !! (4 * p + 3)%nat = Some a /\
    r <= r' <= 255 /\ 0 <= b' <= b /\
    (21 * r <= 5100 -> Z.abs (20 * r' - 21 * r) <= 10) /\
    (5100 < 21 * r -> r' = 255) /\
    Z.abs (20 * b' - 19 * b) <= 10.
Proof.
  intros Hr Hb H0 H1 H2 H3.
  pose proof (lookup_lt_Some _ _ _ H3) as Hlen.
  exists (ToUint8Clamp (Math_min 255%float (of_byte r * 1.05)%float)),
         (ToUint8Clamp (Math_max 0%float (of_byte b * 0.95)%float)).
  unfold _warm.
  pose proof (pass_pixel warm_body c w h p 0 warm_local) as P0.
  pose proof (pass_pixel warm_body c w h p 1 warm_local) as P1.
  pose proof (pass_pixel warm_body c w h p 2 warm_local) as P2.
  pose proof (pass_pixel warm_body c w h p 3 warm_local) as P3.
  rewrite Nat.add_0_r in P0.
  rewrite P0, P1, P2, P3 by lia. clear P0 P1 P2 P3.
  unfold warm_body.
  rewrite (get_Some _ _ _ H0).
  rewrite (get_Some (set _ _ _) (4 * p + 2) b)
    by (rewrite set_lookup_ne by lia; exact H2).
  lookup_sets.
  destruct (warm_byte_spec r Hr) as (Kr1 & _ & Kr3 & Kr4 & _).
  destruct (warm_byte_spec b Hb) as (_ & Kb2 & _ & _ & Kb5).
  split; [reflexivity|]. split; [exact H1|]. split; [reflexivity|].
  split; [exact H3|].
  split; [exact Kr1|]. split; [exact Kb2|]. split; [exact Kr3|].
  split; [exact Kr4 | exact Kb5].
Qed.

End TonalFilters.

(* ================================================================== *)
(** * Signs of binary64 products and quotients *)
(* ================================================================== *)

Section Signs.

(** Shifting a mantissa to the right and rounding it keep it
    non-negative. *)
Lemma iter_pos_invariant {A : Type} (P : A -> Prop) (f : A -> A) :
  (forall x, P x -> P (f x)) ->
  forall p x, P x -> P (SpecFloat.iter_pos f p x).
Proof.
  intros Hf. induction p as [p IH|p IH|]; intros x Hx; cbn [SpecFloat.iter_pos].
  - apply IH, IH, Hf, Hx.
  - apply IH, IH, Hx.
  - apply Hf, Hx.
Qed.

Lemma shr_1_nonneg (mrs : shr_record) :
  0 <= shr_m mrs -> 0 <= shr_m (shr_1 mrs).
Proof.
  destruct mrs as [m r s]. cbn [shr_m]. intros Hm.
  destruct m as [|p|p]; [| |lia]; cbn [shr_1]; [cbn; lia|].
  destruct p; cbn [shr_m]; lia.
Qed.

Lemma shr_fexp_nonneg (m e : Z) (l : location) :
  0 <= m -> 0 <= shr_m (shr_fexp prec emax m e l).1.
Proof.
  intros Hm. unfold shr_fexp, shr.
  assert (H0 : 0 <= shr_m (shr_record_of_loc m l))
    by (destruct l as [|[]]; exact Hm).
  destruct (fexp prec emax (Zdigits2 m + e) - e) as [|p|p];
    cbn [fst]; try exact H0.
  apply (iter_pos_invariant (fun x => 0 <= shr_m x)); [|exact H0].
  exact shr_1_nonneg.
Qed.

Lemma round_nearest_even_nonneg (m : Z) (l : location) :
  0 <= m -> 0 <= round_nearest_even m l.
Proof.
  intros Hm. destruct l as [|[]]; cbn [round_nearest_even]; try lia.
  destruct (Z.even m); lia.
Qed.

(** Rounding keeps the sign; the mantissa of a NaN result is negative. *)
Lemma binary_round_aux_sign (sx : bool) (mx ex : Z) (lx : location) :
  match binary_round_aux prec emax sx mx ex lx with
  | S754_zero s | S754_infinity s | S754_finite s _ _ => s = sx
  | S754_nan => mx < 0
  end.
Proof.
  unfold binary_round_aux.
  pose proof (shr_fexp_nonneg mx ex lx) as H1.
  destruct (shr_fexp prec emax mx ex lx) as [mrs' e'].
  cbn [fst] in H1.
  pose proof (shr_fexp_nonneg
    (round_nearest_even (shr_m mrs') (loc_of_shr_record mrs')) e'
    loc_Exact) as H2.
  destruct (shr_fexp prec emax _ e' loc_Exact) as [mrs'' e''].
  cbn [fst] in H2.
  destruct (shr_m mrs'') as [|p|p] eqn:E.
  - reflexivity.
  - destruct (e'' <=? emax - prec); reflexivity.
  - destruct (Z_lt_le_dec mx 0) as [Hneg|Hpos]; [exact Hneg|].
    specialize (H1 Hpos).
    specialize (H2 (round_nearest_even_nonneg _ _ H1)). lia.
Qed.

Lemma binary_round_aux_nonneg (mx ex : Z) (lx : location) :
  0 <= mx -> nonneg (binary_round_aux prec emax false mx ex lx).
Proof.
  intros Hm. pose proof (binary_round_aux_sign false mx ex lx) as H.
  destruct (binary_round_aux prec emax false mx ex lx) as [s|s| |s m e];
    cbn; try subst s; try exact I. lia.
Qed.

Lemma nonneg_weaken (v : spec_float) : nonneg v -> nonneg_or_nan v.
Proof. destruct v as [s|[]| |[] m e]; cbn; auto. Qed.

Lemma finite_nonneg_weaken (v : spec_float) : finite_nonneg v -> nonneg v.
Proof. destruct v as [s|[]| |[] m e]; cbn; auto. Qed.

Lemma binary_normalize_nonneg (m : Z) :
  0 <= m -> nonneg (binary_normalize prec emax m 0 false).
Proof.
  intros Hm. destruct m as [|p|p]; [exact I| |lia].
  cbn [binary_normalize]. unfold binary_round.
  destruct (shl_align _ _ _) as [mz ez].
  apply binary_round_aux_nonneg. lia.
Qed.

Lemma of_uint63_nonneg (n : int) : nonneg (Prim2SF (PrimFloat.of_uint63 n)).
Proof.
  rewrite of_uint63_spec. apply binary_normalize_nonneg.
  apply Uint63.to_Z_bounded.
Qed.

(** Products, and quotients by 255, of Numbers that are not negative
    are not negative. *)
Lemma SFmul_nonneg_or_nan (a b : spec_float) :
  nonneg_or_nan a -> nonneg_or_nan b -> nonneg_or_nan (SF64mul a b).
Proof.
  destruct a as [sa|[]| |[] ma ea], b as [sb|[]| |[] mb eb];
    cbn; try tauto; intros _ _.
  apply nonneg_weaken, binary_round_aux_nonneg. lia.
Qed.

Lemma SFmul_finite_nonneg (a b : spec_float) :
  finite_nonneg a -> finite_nonneg b -> nonneg (SF64mul a b).
Proof.
  destruct a as [sa|[]| |[] ma ea], b as [sb|[]| |[] mb eb];
    cbn; try tauto; intros _ _.
  apply binary_round_aux_nonneg. lia.
Qed.

Lemma Prim2SF_255 :
  Prim2SF 255%float = S754_finite false 8972014882652160 (-45).
Proof. vm_compute. reflexivity. Qed.

Lemma SFdiv_core_nonneg (m1 : positive) (e1 : Z) (m2 : positive) (e2 : Z) :
  0 <= (SFdiv_core_binary prec emax (Z.pos m1) e1 (Z.pos m2) e2).1.1.
Proof.
  unfold SFdiv_core_binary.
  set (s := _ - _ - Z.min _ _).
  set (m' := match s with Z.pos _ => _ | Z0 => _ | Z.neg _ => _ end).
  assert (Hm' : 0 <= m').
  { subst m'. destruct s; try lia. apply Z.shiftl_nonneg. lia. }
  pose proof (Z_div_mod m' (Z.pos m2) ltac:(lia)) as H.
  destruct (Z.div_eucl m' (Z.pos m2)) as [q r]. cbn [fst].
  destruct H as [H1 H2]. nia.
Qed.

Lemma SFdiv_255_nonneg_or_nan (a : spec_float) :
  nonneg_or_nan a -> nonneg_or_nan (SF64div a (Prim2SF 255%float)).
Proof.
  rewrite Prim2SF_255.
  destruct a as [sa|[]| |[] ma ea]; cbn [nonneg_or_nan]; try tauto;
    intros _; try exact I.
  unfold SF64div, SFdiv.
  pose proof (SFdiv_core_nonneg ma ea 8972014882652160 (-45)) as H.
  destruct (SFdiv_core_binary _ _ _ _ _ _) as [[mz ez] lz].
  cbn [fst] in H. cbn [xorb].
  now apply nonneg_weaken, binary_round_aux_nonneg.
Qed.

End Signs.

(* ================================================================== *)
(** * LUTEngine.apply *)
(* ================================================================== *)

Section LUTApply.
Import JS TypedArray LUT.

Ltac lookup_sets :=
  repeat first
    [ rewrite set_lookup_ne by lia
    | rewrite set_lookup_eq by (rewrite ?set_length; lia) ].

Lemma apply_local (table : list Z) (size max : Z) (scale : float) :
  pixel_local (apply_body table size max scale).
Proof.
  split.
  - intros i d. unfold apply_body. now rewrite !set_length.
  - intros i d j Hj. unfold apply_body. now lookup_sets.
  - intros i d d' Hlen Hagree j Hj. unfold apply_body.
    rewrite (get_congr d d' i), (get_congr d d' (i + 1)),
            (get_congr d d' (i + 2)) by (apply Hagree; lia).
    repeat (apply set_lookup_congr; [now rewrite ?set_length|]).
    now apply Hagree.
Qed.

(** A byte read from a typed array and stored into one is unchanged. *)
Lemma byte_roundtrip_ok :
  all_bytes (fun z => ToUint8Clamp (of_byte z) =? z) = true.
Proof. vm_cast_no_check (eq_refl true). Qed.

Lemma byte_roundtrip (z : Z) :
  0 <= z <= 255 -> ToUint8Clamp (of_byte z) = z.
Proof.
  intros Hz. apply Z.eqb_eq.
  exact (all_bytes_spec _ byte_roundtrip_ok z Hz).
Qed.

(** The floor of a Number that is not negative is not negative. *)
Lemma Math_floor_nonneg (x : float) :
  nonneg_or_nan (Prim2SF x) ->
  match Math_floor x with
  | Fin z => 0 <= z
  | Inf s => s = false
  | NaN => True
  end.
Proof.
  unfold Math_floor.
  destruct (Prim2SF x) as [s|[]| |[] m e]; cbn [nonneg_or_nan];
    try tauto; intros _; try reflexivity; try lia.
  cbn [cond_Zopp]. apply Z.shiftl_nonneg. lia.
Qed.

Lemma Math_floor_finite (x : float) :
  nonneg (Prim2SF x) ->
  match Math_floor x with
  | Fin z => 0 <= z
  | Inf s => s = false
  | NaN => False
  end.
Proof.
  unfold Math_floor.
  destruct (Prim2SF x) as [s|[]| |[] m e]; cbn [nonneg];
    try tauto; intros _; try reflexivity; try lia.
  cbn [cond_Zopp]. apply Z.shiftl_nonneg. lia.
Qed.

Lemma of_int_nonneg (z : Z) : 0 <= z -> nonneg (Prim2SF (of_int z)).
Proof.
  intros Hz. unfold of_int.
  destruct (z <? 0) eqn:E; [apply Z.ltb_lt in E; lia|].
  apply of_uint63_nonneg.
Qed.

(** The product [c * scale] of [apply], for a byte and a size of at
    least one, is not negative. *)
Lemma scaled_nonneg (size c : Z) :
  1 <= size ->
  nonneg_or_nan (Prim2SF (of_byte c * (of_int (size - 1) / 255))%float).
Proof.
  intros Hs. rewrite FloatAxioms.mul_spec, FloatAxioms.div_spec.
  apply SFmul_nonneg_or_nan.
  - apply nonneg_weaken, of_uint63_nonneg.
  - apply SFdiv_255_nonneg_or_nan, nonneg_weaken, of_int_nonneg. lia.
Qed.

(** A finite bucket lies between 0 and [size - 1]: the clamp at 0
    that [apply] does not write would change nothing. *)
Lemma bucket_range (size c : Z) :
  1 <= size ->
  let v := bucket (size - 1) (of_int (size - 1) / 255)%float (of_byte c) in
  Math_max_int 0 v = v /\
  forall k, finite v = Some k -> 0 <= k <= size - 1.
Proof.
  intros Hs v. subst v. unfold bucket.
  pose proof (Math_floor_nonneg _ (scaled_nonneg size c Hs)) as H.
  destruct (Math_floor _) as [z|[]|]; cbn; try discriminate H.
  - split; [f_equal; lia|]. intros k [= <-]. lia.
  - split; [f_equal; lia|]. intros k [= <-]. lia.
  - split; [reflexivity | discriminate].
Qed.

Lemma Prim2SF_zero : Prim2SF 0%float = S754_zero false.
Proof. vm_compute. reflexivity. Qed.

Lemma Prim2SF_infinity : Prim2SF PrimFloat.infinity = S754_infinity false.
Proof. vm_compute. reflexivity. Qed.

Lemma is_finite_nonneg_spec (x : float) :
  is_finite_nonneg x = true -> finite_nonneg (Prim2SF x).
Proof.
  unfold is_finite_nonneg. rewrite andb_true_iff.
  rewrite FloatAxioms.leb_spec, FloatAxioms.ltb_spec.
  rewrite Prim2SF_zero, Prim2SF_infinity. unfold SFleb, SFltb.
  destruct (Prim2SF x) as [s|[]| |[] m e]; cbn; intros [H1 H2];
    try discriminate; exact I.
Qed.

Lemma bytes_finite_ok :
  all_bytes (fun z => is_finite_nonneg (of_byte z)) = true.
Proof. vm_cast_no_check (eq_refl true). Qed.

(** The scale factor [(size - 1) / 255] is finite for every edge
    length whose table fits a typed array. *)
Lemma scales_finite_ok :
  all_from (Z.to_nat 131071) 1
    (fun size => is_finite_nonneg (of_int (size - 1) / 255)%float) = true.
Proof. vm_cast_no_check (eq_refl true). Qed.

Lemma scaled_finite (size c : Z) :
  1 <= size <= 131071 -> 0 <= c <= 255 ->
  nonneg (Prim2SF (of_byte c * (of_int (size - 1) / 255))%float).
Proof.
  intros Hs Hc. rewrite FloatAxioms.mul_spec. apply SFmul_finite_nonneg.
  - apply is_finite_nonneg_spec.
    exact (all_bytes_spec _ bytes_finite_ok c Hc).
  - apply is_finite_nonneg_spec.
    apply (all_from_spec (Z.to_nat 131071) 1 _ scales_finite_ok). lia.
Qed.

(** With such a size every byte falls in a bucket. *)
Lemma bucket_in_range (size c : Z) :
  1 <= size <= 131071 -> 0 <= c <= 255 ->
  exists k,
    bucket (size - 1) (of_int (size - 1) / 255)%float (of_byte c) = Fin k /\
    0 <= k <= size - 1.
Proof.
  intros Hs Hc. unfold bucket.
  pose proof (Math_floor_finite _ (scaled_finite size c Hs Hc)) as H.
  destruct (Math_floor _) as [z|[]|]; cbn; try discriminate H;
    try contradiction.
  - exists (Z.min (size - 1) z). split; [reflexivity | lia].
  - exists (size - 1). split; [reflexivity | lia].
Qed.

(** Every edge from 1 to 256 against every byte. *)
Lemma buckets_exact_ok :
  all_from 256 1 (fun size => all_bytes (bucket_byte_ok size)) = true.
Proof. vm_cast_no_check (eq_refl true). Qed.

(** For an edge up to 256 the bucket of a byte is the quantisation of
    the specification, except for the twelve pairs of an edge and a
    byte of [rounds_down], where it is the bucket below. *)
Lemma bucket_exact (size c : Z) :
  1 <= size <= 256 -> 0 <= c <= 255 ->
  bucket (size - 1) (of_int (size - 1) / 255)%float (of_byte c)
    = Fin (bucket_spec size c - (if rounds_down size c then 1 else 0)).
Proof.
  intros Hs Hc.
  pose proof (all_from_spec 256 1 _ buckets_exact_ok size ltac:(lia)) as H.
  cbv beta in H.
  pose proof (all_bytes_spec _ H c Hc) as K. unfold bucket_byte_ok in K.
  destruct (bucket _ _ _) as [k| |]; try discriminate K.
  apply Z.eqb_eq in K. now subst k.
Qed.

(** Only five edges have a byte that rounds down. *)
Lemma rounds_down_edges (size c : Z) :
  rounds_down size c = true ->
  size = 148 \/ size = 156 \/ size = 172 \/ size = 188 \/ size = 196.
Proof.
  unfold rounds_down. intros H.
  repeat (match type of H with
          | match ?x with _ => _ end = true => destruct x; try discriminate H
          end); lia.
Qed.

Lemma apply_loaded (this : LUTEngine) (table data : list Z) :
  lut this = Some table -> 1 <= size this ->
  apply this data
    = for_each_pixel
        (apply_body table (size this) (size this - 1)
           (of_int (size this - 1) / 255)%float) data.
Proof.
  intros Hl Hs. unfold apply. rewrite Hl.
  destruct (size this =? 0) eqn:E; [apply Z.eqb_eq in E; lia|].
  reflexivity.
Qed.

(** A table of [4 * size^3] bytes that fits a typed array has an edge
    below 2^17. *)
Lemma edge_bound (size len : Z) :
  1 <= size -> 4 * (size * size * size) <= len -> len < 2 ^ 53 ->
  size <= 131071.
Proof.
  intros Hs Hlen Hmax.
  destruct (Z_le_gt_dec size 131071) as [H|H]; [exact H|].
  assert (H2 : 131072 * 131072 <= size * size) by nia.
  assert (H3 : 131072 * 131072 * 131072 <= size * size * size) by nia.
  change (2 ^ 53) with 9007199254740992 in Hmax. lia.
Qed.

(** The flattened offset of three buckets stays inside the table. *)
Lemma flat_index_bound (size kr kg kb : Z) :
  0 <= kr <= size - 1 -> 0 <= kg <= size - 1 -> 0 <= kb <= size - 1 ->
  let j := (kr + kg * size + kb * size * size) * 4 in
  0 <= j /\ j + 3 < 4 * (size * size * size).
Proof.
  intros Hr Hg Hb j. subst j.
  assert (0 <= kg * size) by nia.
  assert (0 <= kb * size * size) by nia.
  assert (kg * size <= (size - 1) * size) by nia.
  assert (kb * size * size <= (size - 1) * size * size) by nia.
  split; nia.
Qed.

Lemma lookup_table_byte (table : list Z) (j k : Z) :
  bytes table -> 0 <= j + k -> j + k < Z.of_nat (length table) ->
  exists t, table !! Z.to_nat (j + k) = Some t /\
            ToUint8Clamp (lookup table (Some j) k) = t.
Proof.
  intros Hb H0 Hlen.
  destruct (lookup_lt_is_Some_2 table (Z.to_nat (j + k))) as [t Ht];
    [lia|].
  exists t. split; [exact Ht|]. unfold lookup.
  destruct (0 <=? j + k) eqn:E; [|apply Z.leb_gt in E; lia].
  unfold get. rewrite Ht. apply byte_roundtrip.
  unfold bytes in Hb. rewrite Forall_lookup in Hb. exact (Hb _ _ Ht).
Qed.

(** C1.  [apply] returns the buffer as it is when no table is loaded
    (no table, or size 0).  With a table and a size of at least one,
    every pixel keeps its alpha byte, and its red, green and blue bytes
    become what is stored from the table at the offsets [index],
    [index + 1], [index + 2], where
    [index = (rIdx + gIdx * size + bIdx * size * size) * 4] and each of
    the three bucket indices is
    [Math.min(size - 1, Math.floor(channel * ((size - 1) / 255)))] on
    Numbers: the scale is rounded before it is multiplied.  A clamp
    at 0 would change no bucket, and a finite bucket lies between 0
    and [size - 1].  When the table holds the
    [4 * size^3] bytes of the cube (and fits a typed array), the three
    bytes are the table's bytes at those offsets.  For an edge up to
    256 the bucket of a byte is
    [clamp(floor(channel * (size - 1) / 255), 0, size - 1)] with the
    exact quotient, except for twelve pairs of an edge (148, 156, 172,
    188 or 196) and a byte, for which it is the bucket below. *)
Theorem LUT_apply_spec (this : LUTEngine) (data : list Z) :
  (lut this = None \/ size this = 0 -> apply this data = data) /\
  (forall table p r g b a,
     lut this = Some table -> 1 <= size this ->
     data !! (4 * p)%nat = Some r ->
     data !! (4 * p + 1)%nat = Some g ->
     data !! (4 * p + 2)%nat = Some b ->
     data !! (4 * p + 3)%nat = Some a ->
     let N := size this in
     let scale := (of_int (N - 1) / 255)%float in
     let ri := bucket (N - 1) scale (of_byte r) in
     let gi := bucket (N - 1) scale (of_byte g) in
     let bi := bucket (N - 1) scale (of_byte b) in
     let index := flat_index N ri gi bi in
     let out := apply this data in
     length out = length data /\
     (Math_max_int 0 ri = ri /\ Math_max_int 0 gi = gi /\
      Math_max_int 0 bi = bi) /\
     (forall k, finite ri = Some k \/ finite gi = Some k \/
                finite bi = Some k -> 0 <= k <= N - 1) /\
     out !! (4 * p)%nat = Some (ToUint8Clamp (lookup table index 0)) /\
     out !! (4 * p + 1)%nat = Some (ToUint8Clamp (lookup table index 1)) /\
     out !! (4 * p + 2)%nat = Some (ToUint8Clamp (lookup table index 2)) /\
     out !! (4 * p + 3)%nat = Some a /\
     (bytes table ->
      4 * (N * N * N) <= Z.of_nat (length table) ->
      Z.of_nat (length table) < 2 ^ 53 ->
      0 <= r <= 255 -> 0 <= g <= 255 -> 0 <= b <= 255 ->
      exists kr kg kb tr tg tb,
        ri = Fin kr /\ gi = Fin kg /\ bi = Fin kb /\
        0 <= kr <= N - 1 /\ 0 <= kg <= N - 1 /\ 0 <= kb <= N - 1 /\
        let j := (kr + kg * N + kb * N * N) * 4 in
        index = Some j /\
        table !! Z.to_nat j = Some tr /\
        table !! Z.to_nat (j + 1) = Some tg /\
        table !! Z.to_nat (j + 2) = Some tb /\
        out !! (4 * p)%nat = Some tr /\
        out !! (4 * p + 1)%nat = Some tg /\
        out !! (4 * p + 2)%nat = Some tb) /\
     (N <= 256 ->
      0 <= r <= 255 -> 0 <= g <= 255 -> 0 <= b <= 255 ->
      (ri = Fin (bucket_spec N r - (if rounds_down N r then 1 else 0)) /\
       gi = Fin (bucket_spec N g - (if rounds_down N g then 1 else 0)) /\
       bi = Fin (bucket_spec N b - (if rounds_down N b then 1 else 0))) /\
      (N <> 148 -> N <> 156 -> N <> 172 -> N <> 188 -> N <> 196 ->
       ri = Fin (bucket_spec N r) /\
       gi = Fin (bucket_spec N g) /\
       bi = Fin (bucket_spec N b)))).
Proof.
  split.
  - intros [H|H]; unfold apply.
    + now rewrite H.
    + rewrite H. now destruct (lut this).
  - intros table p r g b a Hl Hs H0 H1 H2 H3 N scale ri gi bi index out.
    pose proof (lookup_lt_Some _ _ _ H3) as Hlen.
    pose proof (apply_local table N (N - 1) scale) as Hloc.
    destruct (for_each_pixel_lookup _ data Hloc) as [Hlength Hpix].
    assert (Hout : forall k, (k < 4)%nat ->
      out !! (4 * p + k)%nat
        = apply_body table N (N - 1) scale (4 * p)%nat data
            !! (4 * p + k)%nat).
    { intros k Hk. subst out. rewrite (apply_loaded this table data Hl Hs).
      fold N scale. rewrite Hpix by lia.
      replace ((4 * p + k) / 4)%nat with p; [reflexivity|].
      symmetry. rewrite Nat.mul_comm, Nat.div_add_l by lia.
      rewrite (Nat.div_small k 4) by lia. lia. }
    assert (Hbody : forall k : nat,
      apply_body table N (N - 1) scale (4 * p)%nat data
        !! (4 * p + k)%nat =
        match k with
        | 0%nat => Some (ToUint8Clamp (lookup table index 0))
        | 1%nat => Some (ToUint8Clamp (lookup table index 1))
        | 2%nat => Some (ToUint8Clamp (lookup table index 2))
        | _ => data !! (4 * p + k)%nat
        end).
    { intros k. unfold apply_body.
      rewrite (get_Some _ _ _ H0), (get_Some _ _ _ H1), (get_Some _ _ _ H2).
      fold ri gi bi index.
      destruct k as [|[|[|k]]].
      - rewrite Nat.add_0_r. now lookup_sets.
      - now lookup_sets.
      - now lookup_sets.
      - now lookup_sets. }
    pose proof (Hout 0%nat ltac:(lia)) as O0.
    pose proof (Hout 1%nat ltac:(lia)) as O1.
    pose proof (Hout 2%nat ltac:(lia)) as O2.
    pose proof (Hout 3%nat ltac:(lia)) as O3.
    rewrite Hbody in O0, O1, O2, O3. rewrite Nat.add_0_r in O0.
    destruct (bucket_range N r Hs) as [Er Rr].
    destruct (bucket_range N g Hs) as [Eg Rg].
    destruct (bucket_range N b Hs) as [Eb Rb].
    split.
    { subst out. rewrite (apply_loaded this table data Hl Hs).
      exact Hlength. }
    split; [repeat split; assumption|].
    split; [intros k [H|[H|H]]; auto|].
    split; [exact O0|]. split; [exact O1|]. split; [exact O2|].
    split; [rewrite O3; exact H3|].
    split.
    2: { intros HN Hr Hg Hb. subst ri gi bi scale.
         clear Er Eg Eb.
         pose proof (bucket_exact N r ltac:(lia) Hr) as Er.
         pose proof (bucket_exact N g ltac:(lia) Hg) as Eg.
         pose proof (bucket_exact N b ltac:(lia) Hb) as Eb.
         split; [now repeat split|].
         intros N1 N2 N3 N4 N5.
         assert (Hno : forall c, rounds_down N c = false).
         { intros c. destruct (rounds_down N c) eqn:E; [|reflexivity].
           apply rounds_down_edges in E. lia. }
         rewrite Er, Eg, Eb, !Hno, !Z.sub_0_r. now repeat split. }
    intros Hbytes Hcube Hfit Hr Hg Hb.
    pose proof (edge_bound N _ Hs Hcube Hfit) as HN.
    destruct (bucket_in_range N r ltac:(lia) Hr) as (kr & Kr & Br).
    destruct (bucket_in_range N g ltac:(lia) Hg) as (kg & Kg & Bg).
    destruct (bucket_in_range N b ltac:(lia) Hb) as (kb & Kb & Bb).
    destruct (flat_index_bound N kr kg kb Br Bg Bb) as [Hj0 Hj3].
    set (j := (kr + kg * N + kb * N * N) * 4) in *.
    assert (Hindex : index = Some j).
    { subst index. fold scale in Kr, Kg, Kb. fold ri in Kr.
      fold gi in Kg. fold bi in Kb. rewrite Kr, Kg, Kb. reflexivity. }
    destruct (lookup_table_byte table j 0 Hbytes) as (tr & Tr & Vr);
      [lia | lia |].
    destruct (lookup_table_byte table j 1 Hbytes) as (tg & Tg & Vg);
      [lia | lia |].
    destruct (lookup_table_byte table j 2 Hbytes) as (tb & Tb & Vb);
      [lia | lia |].
    rewrite Z.add_0_r in Tr.
    exists kr, kg, kb, tr, tg, tb.
    rewrite Hindex in O0, O1, O2. rewrite Vr in O0. rewrite Vg in O1.
    rewrite Vb in O2.
    repeat (split; [assumption|]). assumption.
Qed.

End LUTApply.

(* ================================================================== *)
(** * Rounding to a byte on machine integers *)
(* ================================================================== *)

Section FastRounding.
Import JS TypedArray.

(** Machine integers have 63 bits. *)
Lemma wB_value : wB = 9223372036854775808.
Proof. reflexivity. Qed.

(** [round_half_even] on a negative exponent, by quotient and
    remainder. *)
Lemma round_half_even_neg (m : positive) (K : Z) :
  0 < K ->
  round_half_even m (- K) =
    let q := Z.pos m / 2 ^ K in
    let r := Z.pos m mod 2 ^ K in
    if r <? 2 ^ (K - 1) then q
    else if 2 ^ (K - 1) <? r then q + 1
    else if Z.even q then q else q + 1.
Proof.
  intros HK. unfold round_half_even.
  destruct (0 <=? - K) eqn:E; [apply Z.leb_le in E; lia|].
  rewrite Z.opp_involutive. cbv zeta.
  assert (Hp : 2 ^ K = 2 * 2 ^ (K - 1)).
  { rewrite <- Z.pow_succ_r by lia. f_equal. lia. }
  destruct (Z.compare_spec (2 * (Z.pos m mod 2 ^ K)) (2 ^ K)) as [H|H|H].
  - destruct (_ <? _) eqn:E1; [apply Z.ltb_lt in E1; lia|].
    destruct (2 ^ (K - 1) <? _) eqn:E2; [apply Z.ltb_lt in E2; lia|].
    reflexivity.
  - destruct (_ <? _) eqn:E1; [reflexivity|]. apply Z.ltb_ge in E1. lia.
  - destruct (_ <? _) eqn:E1; [apply Z.ltb_lt in E1; lia|].
    destruct (2 ^ (K - 1) <? _) eqn:E2; [reflexivity|].
    apply Z.ltb_ge in E2. lia.
Qed.

(** Comparison and parity of machine integers, on their values. *)
Lemma int_ltb_Z (a b : int) :
  (a <? b)%uint63 = (Uint63.to_Z a <? Uint63.to_Z b).
Proof.
  destruct (Uint63.ltbP a b) as [H|H]; symmetry;
    [now apply Z.ltb_lt | now apply Z.ltb_ge; lia].
Qed.

Lemma int_is_even_Z (a : int) : Uint63.is_even a = Z.even (Uint63.to_Z a).
Proof.
  pose proof (Uint63.is_even_spec a) as H. rewrite Zeven_mod.
  destruct (Uint63.is_even a); rewrite H; reflexivity.
Qed.

(** The rounding on machine integers is the exact one: the mantissa
    of a normal Number below 2^53 is its 53-bit integer mantissa, and
    the shift is by the opposite of its exponent. *)
Lemma fast_round_exact (x : float) (s : bool) (mx : positive) (ex : Z)
    (v : int) :
  Prim2SF x = S754_finite s mx ex -> fast_round x = Some v ->
  Uint63.to_Z v = round_half_even mx ex.
Proof.
  intros Hx. unfold fast_round.
  pose proof (frshiftexp_spec x) as F.
  pose proof (Prim2SF_valid x) as V. rewrite Hx in F, V.
  destruct (PrimFloat.frshiftexp x) as [mf ef].
  pose proof (normfr_mantissa_spec mf) as HM.
  destruct ((2092 <=? ef) && (ef <=? 2153))%uint63 eqn:C; [|discriminate].
  apply andb_true_iff in C as [C1 C2].
  apply Uint63.leb_spec in C1, C2.
  change (Uint63.to_Z 2092%uint63) with 2092 in C1.
  change (Uint63.to_Z 2153%uint63) with 2153 in C2.
  unfold SFfrexp in F.
  change FloatOps.shift with 2101 in F. change prec with 53 in *.
  destruct (53 <=? Z.pos (digits2_pos mx)) eqn:D.
  - injection F as F1 F2. rewrite F1 in HM.
    unfold SFnormfr_mantissa in HM. rewrite Z.eqb_refl in HM.
    change (IntDef.Z.of_N (N.pos mx)) with (Z.pos mx) in HM.
    set (M := normfr_mantissa mf) in *.
    set (K := 2154 - Uint63.to_Z ef).
    assert (HK : 1 <= K <= 62) by (subst K; lia).
    assert (Hex : ex = - K) by (subst K; lia).
    pose proof (Uint63.to_Z_bounded M) as HMb. rewrite HM in HMb.
    pose proof wB_value as HwB.
    assert (Hk : Uint63.to_Z (2154 - ef)%uint63 = K).
    { rewrite Uint63.sub_spec.
      change (Uint63.to_Z 2154%uint63) with 2154.
      apply Z.mod_small. subst K. lia. }
    assert (Hpow : 0 < 2 ^ K) by (apply Z.pow_pos_nonneg; lia).
    assert (Hpow1 : 0 < 2 ^ (K - 1)) by (apply Z.pow_pos_nonneg; lia).
    assert (Hpow62 : 2 ^ (K - 1) <= 2 ^ 61)
      by (apply Z.pow_le_mono_r; lia).
    change (2 ^ 61) with 2305843009213693952 in Hpow62.
    assert (Hq : Uint63.to_Z (M >> (2154 - ef))%uint63 = Z.pos mx / 2 ^ K)
      by (rewrite Uint63.lsr_spec, Hk, HM; reflexivity).
    pose proof (Z.div_mod (Z.pos mx) (2 ^ K) ltac:(lia)) as Hdm.
    pose proof (Z.mod_pos_bound (Z.pos mx) (2 ^ K) Hpow) as Hmb.
    assert (Hq0 : 0 <= Z.pos mx / 2 ^ K)
      by (apply Z.div_pos; lia).
    assert (Hqle : Z.pos mx / 2 ^ K <= Z.pos mx).
    { apply Z.div_le_upper_bound; [lia|]. nia. }
    assert (Hr : Uint63.to_Z (M - (M >> (2154 - ef)) << (2154 - ef))%uint63
                 = Z.pos mx mod 2 ^ K).
    { rewrite Uint63.sub_spec, Uint63.lsl_spec, Hq, Hk, HM.
      rewrite (Z.mod_small (_ * _)) by nia.
      rewrite Z.mod_small by nia. nia. }
    assert (Hh : Uint63.to_Z (1 << (2154 - ef - 1))%uint63 = 2 ^ (K - 1)).
    { rewrite Uint63.lsl_spec, Uint63.sub_spec, Hk.
      change (Uint63.to_Z 1%uint63) with 1.
      rewrite (Z.mod_small (K - 1)) by lia.
      rewrite Z.mul_1_l. apply Z.mod_small. lia. }
    assert (Hq1 : Uint63.to_Z (M >> (2154 - ef) + 1)%uint63
                  = Z.pos mx / 2 ^ K + 1).
    { rewrite Uint63.add_spec, Hq.
      change (Uint63.to_Z 1%uint63) with 1.
      apply Z.mod_small.
      assert (2 * (Z.pos mx / 2 ^ K) <= Z.pos mx); [|lia].
      assert (2 <= 2 ^ K); [|nia].
      change 2 with (2 ^ 1) at 1. apply Z.pow_le_mono_r; lia. }
    intros [= <-]. rewrite Hex, (round_half_even_neg mx K) by lia.
    cbv zeta. rewrite !int_ltb_Z, int_is_even_Z, Hr, Hh, Hq.
    destruct (_ <? _); [exact Hq|].
    destruct (_ <? _); [exact Hq1|].
    destruct (Z.even _); [exact Hq | exact Hq1].
  - exfalso. injection F as _ F2.
    unfold valid_binary, bounded, canonical_mantissa, fexp in V.
    change (SpecFloat.emin 53 emax) with (-1074) in V.
    apply andb_true_iff in V as [V _]. apply Z.eqb_eq in V.
    apply Z.leb_gt in D. lia.
Qed.

(** So the two conversions to a byte agree. *)
Lemma ToUint8Clamp_fast_exact (x : float) (v : int) :
  ToUint8Clamp_fast x = Some v -> ToUint8Clamp x = Uint63.to_Z v.
Proof.
  unfold ToUint8Clamp_fast, ToUint8Clamp.
  destruct (PrimFloat.is_nan x) eqn:En; [now intros [= <-]|].
  destruct (PrimFloat.leb x 0%float) eqn:E0; [now intros [= <-]|].
  destruct (PrimFloat.leb 255%float x) eqn:E255; [now intros [= <-]|].
  intros Hf.
  rewrite FloatAxioms.leb_spec in E0, E255.
  rewrite Prim2SF_zero in E0. rewrite Prim2SF_255 in E255.
  apply is_nan_false in En.
  destruct (Prim2SF x) as [s|[]| |s m e] eqn:E;
    try discriminate E0; try discriminate E255; try contradiction.
  symmetry. exact (fast_round_exact x s m e v E Hf).
Qed.

(** A check on machine integers that evaluates to [true] holds of the
    machine integer of each integer of the range. *)
Lemma all_from_int_spec (n : nat) (i : int) (p : int -> bool) :
  all_from_int n i p = true -> Uint63.to_Z i + Z.of_nat n <= wB ->
  forall z, Uint63.to_Z i <= z < Uint63.to_Z i + Z.of_nat n ->
  p (Uint63.of_Z z) = true.
Proof.
  revert i. induction n as [|k IH]; intros i H Hb z Hz; [lia|].
  cbn [all_from_int] in H. apply andb_true_iff in H as [Hp Hrest].
  destruct (decide (z = Uint63.to_Z i)) as [->|Hne].
  - rewrite Uint63.of_to_Z. exact Hp.
  - assert (Hi : Uint63.to_Z (i + 1)%uint63 = Uint63.to_Z i + 1).
    { rewrite Uint63.add_spec. change (Uint63.to_Z 1%uint63) with 1.
      apply Z.mod_small. pose proof (Uint63.to_Z_bounded i). lia. }
    apply (IH (i + 1)%uint63 Hrest); lia.
Qed.

Lemma to_Z_of_byte (z : Z) :
  0 <= z <= 255 -> Uint63.to_Z (Uint63.of_Z z) = z.
Proof.
  intros Hz. rewrite Uint63.of_Z_spec. apply Z.mod_small.
  rewrite wB_value. lia.
Qed.

(** A colour that passes the check has its grey level nearest to the
    exact weighted sum. *)
Lemma gray_ok_spec (r g b : Z) :
  0 <= r <= 255 -> 0 <= g <= 255 -> 0 <= b <= 255 ->
  gray_ok (Uint63.of_Z r) (Uint63.of_Z g) (Uint63.of_Z b) = true ->
  let v := ToUint8Clamp (0.2126 * of_byte r + 0.7152 * of_byte g
                         + 0.0722 * of_byte b)%float in
  0 <= v <= 255 /\
  Z.abs (10000 * v - (2126 * r + 7152 * g + 722 * b)) <= 5000.
Proof.
  intros Hr Hg Hb. unfold gray_ok, gray_tail, of_byte.
  destruct (ToUint8Clamp_fast _) as [v|] eqn:E; [|discriminate].
  apply ToUint8Clamp_fast_exact in E. rewrite E.
  intros H. apply andb_true_iff in H as [Hv H].
  apply Uint63.leb_spec in Hv. change (Uint63.to_Z 255%uint63) with 255 in Hv.
  pose proof (Uint63.to_Z_bounded v) as Hv0.
  pose proof wB_value as HwB.
  cbv zeta in H |- *.
  assert (Hn : Uint63.to_Z (2126 * Uint63.of_Z r + 7152 * Uint63.of_Z g
                            + 722 * Uint63.of_Z b)%uint63
               = 2126 * r + 7152 * g + 722 * b).
  { assert (A1 : Uint63.to_Z (2126 * Uint63.of_Z r)%uint63 = 2126 * r).
    { rewrite Uint63.mul_spec, to_Z_of_byte by assumption.
      change (Uint63.to_Z 2126%uint63) with 2126.
      apply Z.mod_small. lia. }
    assert (A2 : Uint63.to_Z (7152 * Uint63.of_Z g)%uint63 = 7152 * g).
    { rewrite Uint63.mul_spec, to_Z_of_byte by assumption.
      change (Uint63.to_Z 7152%uint63) with 7152.
      apply Z.mod_small. lia. }
    assert (A3 : Uint63.to_Z (722 * Uint63.of_Z b)%uint63 = 722 * b).
    { rewrite Uint63.mul_spec, to_Z_of_byte by assumption.
      change (Uint63.to_Z 722%uint63) with 722.
      apply Z.mod_small. lia. }
    rewrite Uint63.add_spec, Uint63.add_spec, A1, A2, A3.
    rewrite (Z.mod_small (2126 * r + 7152 * g)) by lia.
    apply Z.mod_small. lia. }
  assert (Ht : Uint63.to_Z (10000 * v)%uint63 = 10000 * Uint63.to_Z v).
  { rewrite Uint63.mul_spec. change (Uint63.to_Z 10000%uint63) with 10000.
    apply Z.mod_small. lia. }
  split; [lia|].
  destruct (_ <=? _)%uint63 eqn:C.
  - apply Uint63.leb_spec in C, H. rewrite Ht, Hn in C.
    rewrite Uint63.sub_spec, Ht, Hn in H.
    change (Uint63.to_Z 5000%uint63) with 5000 in H.
    rewrite Z.mod_small in H by lia. lia.
  - apply Uint63.leb_spec in H.
    assert (C' : ~ Uint63.to_Z (10000 * v)%uint63
                   <= Uint63.to_Z (2126 * Uint63.of_Z r + 7152 * Uint63.of_Z g
                                   + 722 * Uint63.of_Z b)%uint63).
    { intros K. apply Uint63.leb_spec in K. congruence. }
    rewrite Ht, Hn in C'.
    rewrite Uint63.sub_spec, Ht, Hn in H.
    change (Uint63.to_Z 5000%uint63) with 5000 in H.
    rewrite Z.mod_small in H by lia. lia.
Qed.

(** All 2^24 colours; the sums of the red and green terms are computed
    once for all blues. *)
Lemma gray_all_ok :
  all_from_int 256 0%uint63 (fun r =>
    let pr := (0.2126 * PrimFloat.of_uint63 r)%float in
    let er := (2126 * r)%uint63 in
    all_from_int 256 0%uint63 (fun g =>
      let s := (pr + 0.7152 * PrimFloat.of_uint63 g)%float in
      let e := (er + 7152 * g)%uint63 in
      all_from_int 256 0%uint63 (fun b => gray_tail s e b))) = true.
Proof. vm_cast_no_check (eq_refl true). Qed.

(** Every colour has its grey level nearest to the exact weighted
    sum. *)
Lemma gray_nearest (r g b : Z) :
  0 <= r <= 255 -> 0 <= g <= 255 -> 0 <= b <= 255 ->
  let v := ToUint8Clamp (0.2126 * of_byte r + 0.7152 * of_byte g
                         + 0.0722 * of_byte b)%float in
  0 <= v <= 255 /\
  Z.abs (10000 * v - (2126 * r + 7152 * g + 722 * b)) <= 5000.
Proof.
  intros Hr Hg Hb. apply gray_ok_spec; try assumption.
  pose proof wB_value as HwB.
  pose proof (all_from_int_spec 256 0%uint63 _ gray_all_ok) as Kr.
  change (Uint63.to_Z 0%uint63) with 0 in Kr.
  specialize (Kr ltac:(lia) r ltac:(lia)). cbv beta zeta in Kr.
  pose proof (all_from_int_spec 256 0%uint63 _ Kr) as Kg.
  change (Uint63.to_Z 0%uint63) with 0 in Kg.
  specialize (Kg ltac:(lia) g ltac:(lia)). cbv beta zeta in Kg.
  pose proof (all_from_int_spec 256 0%uint63 _ Kg) as Kb.
  change (Uint63.to_Z 0%uint63) with 0 in Kb.
  exact (Kb ltac:(lia) b ltac:(lia)).
Qed.

End FastRounding.

(* ================================================================== *)
(** * The grayscale pass *)
(* ================================================================== *)

Section Grayscale.
Import JS TypedArray Canvas Filters.

(** C2.  After one grayscale pass, the red, green and blue bytes of
    every pixel hold one value [v], the Number
    [0.2126 R + 0.7152 G + 0.0722 B] as stored into the clamped array;
    [v] is a byte and an integer nearest to the exact BT.709 sum
    [(2126 R + 7152 G + 722 B) / 10000], at most one half away from it;
    the alpha byte is the one before. *)
Theorem grayscale_luma (c : context2d) (w h : Z) (p : nat)
    (r g b a : Z) :
  0 <= r <= 255 -> 0 <= g <= 255 -> 0 <= b <= 255 ->
  pixels c !! (4 * p)%nat = Some r ->
  pixels c !! (4 * p + 1)%nat = Some g ->
  pixels c !! (4 * p + 2)%nat = Some b ->
  pixels c !! (4 * p + 3)%nat = Some a ->
  exists v,
    pixels (_grayscale c w h) !! (4 * p)%nat = Some v /\
    pixels (_grayscale c w h) !! (4 * p + 1)%nat = Some v /\
    pixels (_grayscale c w h) !! (4 * p + 2)%nat = Some v /\
    pixels (_grayscale c w h) !! (4 * p + 3)%nat = Some a /\
    v = ToUint8Clamp (0.2126 * of_byte r + 0.7152 * of_byte g
                      + 0.0722 * of_byte b)%float /\
    0 <= v <= 255 /\
    Z.abs (10000 * v - (2126 * r + 7152 * g + 722 * b)) <= 5000.
Proof.
  intros Hr Hg Hb H0 H1 H2 H3.
  pose proof (lookup_lt_Some _ _ _ H3) as Hlen.
  eexists. unfold _grayscale.
  pose proof (pass_pixel grayscale_body c w h p 0 grayscale_local) as P0.
  pose proof (pass_pixel grayscale_body c w h p 1 grayscale_local) as P1.
  pose proof (pass_pixel grayscale_body c w h p 2 grayscale_local) as P2.
  pose proof (pass_pixel grayscale_body c w h p 3 grayscale_local) as P3.
  rewrite Nat.add_0_r in P0.
  rewrite P0, P1, P2, P3 by lia. clear P0 P1 P2 P3.
  unfold grayscale_body.
  rewrite (get_Some _ _ _ H0), (get_Some _ _ _ H1), (get_Some _ _ _ H2).
  repeat first
    [ rewrite set_lookup_ne by lia
    | rewrite set_lookup_eq by (rewrite ?set_length; lia) ].
  split; [reflexivity|]. split; [reflexivity|]. split; [reflexivity|].
  split; [exact H3|]. split; [reflexivity|].
  exact (gray_nearest r g b Hr Hg Hb).
Qed.

Lemma grayscale_luma_witness :
  exists v,
    pixels (_grayscale (sample_context [255; 0; 0; 200]) 1 1) !! 0%nat
      = Some v /\
    Z.abs (10000 * v - 2126 * 255) <= 5000.
Proof.
  destruct (grayscale_luma (sample_context [255; 0; 0; 200]) 1 1 0
              255 0 0 200) as (v & H0 & _ & _ & _ & _ & _ & Hv);
    try reflexivity; try lia.
  exists v. split; [exact H0 | exact Hv].
Defined.

(** The pixel of the specification: pure red becomes (54, 54, 54). *)
Example grayscale_red :
  pixels (_grayscale (sample_context [255; 0; 0; 200]) 1 1)
    = [54; 54; 54; 200].
Proof. vm_compute. reflexivity. Qed.

(** A tie: the Number computed for (0, 41, 44) is 32.5 and is stored
    as 32, the even neighbour. *)
Example grayscale_tie :
  pixels (_grayscale (sample_context [0; 41; 44; 255]) 1 1)
    = [32; 32; 32; 255] /\
  2126 * 0 + 7152 * 41 + 722 * 44 = 325000.
Proof. split; vm_compute; reflexivity. Qed.

Lemma warm_red_up_blue_down_witness :
  exists r' b',
    pixels (_warm (sample_context [30; 77; 30; 128]) 1 1)
      = [r'; 77; b'; 128] /\ 30 <= r' /\ b' <= 30.
Proof.
  destruct (warm_red_up_blue_down (sample_context [30; 77; 30; 128]) 1 1 0
              30 77 30 128) as (r' & b' & H0 & H1 & H2 & H3 & Hr & Hb & _);
    try reflexivity; try lia.
  exists 32, 28. split; [vm_compute; reflexivity | lia].
Defined.

End Grayscale.

(* ================================================================== *)
(** * A cube of edge two *)
(* ================================================================== *)

Section SmallCube.
Import JS TypedArray LUT.

Lemma LUT_apply_spec_witness :
  apply {| lut := None; size := 0 |} [255; 10; 255; 77] = [255; 10; 255; 77]
  /\
  (let out := apply {| lut := Some invert2; size := 2 |} [255; 10; 255; 77] in
   out !! 0%nat = Some 0 /\ out !! 1%nat = Some 255 /\
   out !! 2%nat = Some 0 /\ out !! 3%nat = Some 77).
Proof.
  split.
  - apply (LUT_apply_spec {| lut := None; size := 0 |}). now left.
  - destruct (LUT_apply_spec {| lut := Some invert2; size := 2 |}
                [255; 10; 255; 77]) as [_ H].
    specialize (H invert2 0%nat 255 10 255 77 eq_refl ltac:(cbn; lia)
                  eq_refl eq_refl eq_refl eq_refl).
    cbv zeta in H. destruct H as (_ & _ & _ & H0 & H1 & H2 & H3 & _).
    change (4 * 0 + 1)%nat with 1%nat in H1.
    change (4 * 0 + 2)%nat with 2%nat in H2.
    change (4 * 0 + 3)%nat with 3%nat in H3.
    change (4 * 0)%nat with 0%nat in H0.
    cbv zeta. rewrite H0, H1, H2, H3.
    repeat split; vm_compute; reflexivity.
Defined.

(** The whole buffer of the example. *)
Example apply_invert2 :
  apply {| lut := Some invert2; size := 2 |} [255; 10; 255; 77]
    = [0; 255; 0; 77].
Proof. vm_compute. reflexivity. Qed.

End SmallCube.

(* ================================================================== *)
(** * A cube of edge 148 *)
(* ================================================================== *)

Section RoundedScale.
Import JS TypedArray LUT.

Lemma cube_148_length :
  Z.of_nat (length cube_148) = 4 * (148 * 148 * 148).
Proof.
  unfold cube_148. rewrite !length_app, !length_replicate.
  cbn [length]. lia.
Qed.

(** With 148 buckets per axis the red byte 85 has the quantisation
    85 * 147 / 255 = 49 exactly, and the black green and blue bytes
    have 0: the offset of the specification is (49 + 0 + 0) * 4 = 196,
    where the table holds (9, 9, 9).  The binary64 scale 147 / 255 is
    below the quotient, the product 85 * (147 / 255) is below 49, and
    [apply] reads bucket 48 at offset 192, which holds (7, 7, 7). *)
Lemma LUT_apply_below_spec_bucket :
  let this := {| lut := Some cube_148; size := 148 |} in
  let offset := (bucket_spec 148 85 + bucket_spec 148 0 * 148
                 + bucket_spec 148 0 * 148 * 148) * 4 in
  Z.of_nat (length cube_148) = 4 * (148 * 148 * 148) /\
  offset = 196 /\
  cube_148 !! Z.to_nat offset = Some 9 /\
  cube_148 !! Z.to_nat (offset + 1) = Some 9 /\
  cube_148 !! Z.to_nat (offset + 2) = Some 9 /\
  bucket 147 (of_int 147 / 255)%float (of_byte 85) = Fin 48 /\
  apply this [85; 0; 0; 255] = [7; 7; 7; 255].
Proof.
  cbv zeta. split; [exact cube_148_length|].
  split; [reflexivity|].
  change (Z.to_nat ((bucket_spec 148 85 + bucket_spec 148 0 * 148
                     + bucket_spec 148 0 * 148 * 148) * 4)) with 196%nat.
  change (Z.to_nat ((bucket_spec 148 85 + bucket_spec 148 0 * 148
                     + bucket_spec 148 0 * 148 * 148) * 4 + 1)) with 197%nat.
  change (Z.to_nat ((bucket_spec 148 85 + bucket_spec 148 0 * 148
                     + bucket_spec 148 0 * 148 * 148) * 4 + 2)) with 198%nat.
  repeat split; lazy; reflexivity.
Qed.

End RoundedScale.

(* ================================================================== *)
(** * Further properties of the pipeline *)
(* ================================================================== *)

Section Pipeline.

(** A render step with exposure 0 and no recognised filter leaves the
    surface as the frame of the video was drawn on it. *)
Lemma render_identity (Math_pow : float -> float -> float)
    (composite : string -> Canvas.source -> list Z -> list Z)
    (this : Filters.FilterEngine) (v : Canvas.video) (cv : Canvas.canvas)
    (raf : nat) :
  Filters._running this = true -> 2 <= Canvas.readyState v ->
  Canvas.width cv <> 0 -> Canvas.height cv <> 0 ->
  Filters.exposureEV this = 0%float ->
  Filters.activeFilter this = "none" ->
  Canvas.pixels (Canvas.ctx (Filters._render Math_pow composite this v cv raf).2)
    = composite (Canvas.globalCompositeOperation (Canvas.ctx cv))
        (Canvas.Image (Canvas.frame v (Canvas.width cv) (Canvas.height cv)))
        (Canvas.pixels (Canvas.ctx cv)).
Proof.
  intros Hrun Hready Hw Hh Hev Hf. unfold Filters._render.
  rewrite Hrun. cbn [negb].
  destruct (Canvas.readyState v <? 2) eqn:E; [apply Z.ltb_lt in E; lia|].
  apply Z.eqb_neq in Hw, Hh. rewrite Hw, Hh. cbn [orb snd Canvas.ctx].
  unfold Filters._applyFilter, Filters.exposure_simulation.
  cbn [Filters.activeFilter Filters.exposureEV]. rewrite Hf, Hev.
  reflexivity.
Qed.

(** A render step of a stopped engine, or against a video that is not
    readable, draws nothing. *)
Lemma render_skips (Math_pow : float -> float -> float)
    (composite : string -> Canvas.source -> list Z -> list Z)
    (this : Filters.FilterEngine) (v : Canvas.video) (cv : Canvas.canvas)
    (raf : nat) :
  Filters._running this = false \/ Canvas.readyState v < 2 ->
  (Filters._render Math_pow composite this v cv raf).2 = cv.
Proof.
  intros H. unfold Filters._render.
  destruct (Filters._running this); cbn [negb]; [|reflexivity].
  destruct H as [H|H]; [discriminate|].
  apply Z.ltb_lt in H. rewrite H. reflexivity.
Qed.

(** [stop] on a controller without a stream changes nothing, and a
    second [stop] changes nothing more. *)
Lemma camera_stop_idempotent (this : Camera.CameraController) :
  Camera.stop Camera.constructor = Camera.constructor /\
  Camera.stop (Camera.stop this) = Camera.stop this.
Proof.
  split; [reflexivity|]. unfold Camera.stop.
  destruct (Camera.stream this) eqn:E; [reflexivity|].
  rewrite E. reflexivity.
Qed.

(** A table that fails to load leaves the engine an identity. *)
Lemma load_failure_is_identity (this : LUT.LUTEngine) (size : Z)
    (data : list Z) :
  LUT.apply (LUT.loadFromImage this None size).1 data = data.
Proof. reflexivity. Qed.

(** The latest entry of a gallery is the one [add] has just returned. *)
Lemma getLatest_add (Blob : Type) (this : Gallery.GalleryController Blob)
    (c : Gallery.capture Blob) (st : Gallery.url_store) :
  let '(e, this', _) := Gallery.add Blob this c st in
  Gallery.getLatest Blob this' = Some e.
Proof. cbn. unfold Gallery.getLatest. cbn. apply last_snoc. Qed.

End Pipeline.

(* ================================================================== *)
(** * Further properties of the filter engine *)
(* ================================================================== *)

Section FilterPasses.
Import JS TypedArray Canvas Filters.

Ltac lookup_sets :=
  repeat first
    [ rewrite set_lookup_ne by lia
    | rewrite set_lookup_eq by (rewrite ?set_length; lia) ].

(** An offset inside a buffer of whole pixels lies in a pixel that is
    inside it. *)
Lemma pixel_of_offset (n j : nat) :
  (j < 4 * n)%nat ->
  exists p k, j = (4 * p + k)%nat /\ (k < 4)%nat /\ (4 * p + 3 < 4 * n)%nat.
Proof.
  intros Hj. exists (j / 4)%nat, (j mod 4)%nat.
  pose proof (Nat.div_mod_eq j 4). pose proof (Nat.mod_upper_bound j 4).
  lia.
Qed.

Lemma pass_length (body : nat -> list Z -> list Z) (c : context2d)
    (w h : Z) :
  pixel_local body -> length (pixels (pass body c w h)) = length (pixels c).
Proof.
  intros Hloc. rewrite (proj1 (pass_pixels body c w h)).
  exact (proj1 (for_each_pixel_lookup body (pixels c) Hloc)).
Qed.

(** A pass leaves the alpha byte of every pixel as it was when its
    body writes below the fourth byte only. *)
Lemma pass_alpha (body : nat -> list Z -> list Z) (c : context2d)
    (w h : Z) (p : nat) :
  pixel_local body ->
  (forall d, body (4 * p)%nat d !! (4 * p + 3)%nat = d !! (4 * p + 3)%nat) ->
  pixels (pass body c w h) !! (4 * p + 3)%nat = pixels c !! (4 * p + 3)%nat.
Proof.
  intros Hloc Hbody.
  destruct (decide (4 * p + 3 < length (pixels c))%nat) as [Hlt|Hge].
  - rewrite (pass_pixel body c w h p 3 Hloc) by lia. apply Hbody.
  - rewrite !lookup_ge_None_2; [reflexivity | lia |].
    rewrite pass_length by exact Hloc. lia.
Qed.

(** The pixel a grayscale pass leaves. *)
Lemma grayscale_pass_pixel (c : context2d) (w h : Z) (p : nat)
    (r g b a : Z) :
  pixels c !! (4 * p)%nat = Some r ->
  pixels c !! (4 * p + 1)%nat = Some g ->
  pixels c !! (4 * p + 2)%nat = Some b ->
  pixels c !! (4 * p + 3)%nat = Some a ->
  pixels (_grayscale c w h) !! (4 * p)%nat = Some (gray_of r g b) /\
  pixels (_grayscale c w h) !! (4 * p + 1)%nat = Some (gray_of r g b) /\
  pixels (_grayscale c w h) !! (4 * p + 2)%nat = Some (gray_of r g b) /\
  pixels (_grayscale c w h) !! (4 * p + 3)%nat = Some a.
Proof.
  intros H0 H1 H2 H3.
  pose proof (lookup_lt_Some _ _ _ H3) as Hlen.
  unfold _grayscale.
  pose proof (pass_pixel grayscale_body c w h p 0 grayscale_local) as P0.
  pose proof (pass_pixel grayscale_body c w h p 1 grayscale_local) as P1.
  pose proof (pass_pixel grayscale_body c w h p 2 grayscale_local) as P2.
  pose proof (pass_pixel grayscale_body c w h p 3 grayscale_local) as P3.
  rewrite Nat.add_0_r in P0.
  rewrite P0, P1, P2, P3 by lia. clear P0 P1 P2 P3.
  unfold grayscale_body.
  rewrite (get_Some _ _ _ H0), (get_Some _ _ _ H1), (get_Some _ _ _ H2).
  lookup_sets. fold (gray_of r g b).
  split; [reflexivity|]. split; [reflexivity|]. split; [reflexivity|].
  exact H3.
Qed.

(** A grey byte is its own grey level, by evaluation on every byte. *)
Lemma gray_fixed_ok : all_bytes (fun v => gray_of v v v =? v) = true.
Proof. vm_cast_no_check (eq_refl true). Qed.

Lemma gray_fixed (v : Z) : 0 <= v <= 255 -> gray_of v v v = v.
Proof.
  intros Hv. apply Z.eqb_eq. exact (all_bytes_spec _ gray_fixed_ok v Hv).
Qed.

(** X1.  After one cool pass, every pixel of the surface has a red
    byte not above the one before (the integer nearest to 0.95 times
    it), a blue byte not below the one before (the integer nearest to
    1.05 times it, capped at 255), and the green and alpha bytes it
    had: the mirror image of the warm pass. *)
Theorem cool_red_down_blue_up (c : context2d) (w h : Z) (p : nat)
    (r g b a : Z) :
  0 <= r <= 255 -> 0 <= b <= 255 ->
  pixels c !! (4 * p)%nat = Some r ->
  pixels c !! (4 * p + 1)%nat = Some g ->
  pixels c !! (4 * p + 2)%nat = Some b ->
  pixels c !! (4 * p + 3)%nat = Some a ->
  exists r' b',
    pixels (_cool c w h) !! (4 * p)%nat = Some r' /\
    pixels (_cool c w h) !! (4 * p + 1)%nat = Some g /\
    pixels (_cool c w h) !! (4 * p + 2)%nat = Some b' /\
    pixels (_cool c w h) !! (4 * p + 3)%nat = Some a /\
    0 <= r' <= r /\ b <= b' <= 255 /\
    Z.abs (20 * r' - 19 * r) <= 10 /\
    (21 * b <= 5100 -> Z.abs (20 * b' - 21 * b) <= 10) /\
    (5100 < 21 * b -> b' = 255).
Proof.
  intros Hr Hb H0 H1 H2 H3.
  pose proof (lookup_lt_Some _ _ _ H3) as Hlen.
  exists (ToUint8Clamp (Math_max 0%float (of_byte r * 0.95)%float)),
         (ToUint8Clamp (Math_min 255%float (of_byte b * 1.05)%float)).
  unfold _cool.
  pose proof (pass_pixel cool_body c w h p 0 cool_local) as P0.
  pose proof (pass_pixel cool_body c w h p 1 cool_local) as P1.
  pose proof (pass_pixel cool_body c w h p 2 cool_local) as P2.
  pose proof (pass_pixel cool_body c w h p 3 cool_local) as P3.
  rewrite Nat.add_0_r in P0.
  rewrite P0, P1, P2, P3 by lia. clear P0 P1 P2 P3.
  unfold cool_body.
  rewrite (get_Some _ _ _ H0).
  rewrite (get_Some (set _ _ _) (4 * p + 2) b)
    by (rewrite set_lookup_ne by lia; exact H2).
  lookup_sets.
  destruct (warm_byte_spec r Hr) as (_ & Kr2 & _ & _ & Kr5).
  destruct (warm_byte_spec b Hb) as (Kb1 & _ & Kb3 & Kb4 & _).
  split; [reflexivity|]. split; [exact H1|]. split; [reflexivity|].
  split; [exact H3|].
  split; [exact Kr2|]. split; [exact Kb1|]. split; [exact Kr5|].
  split; [exact Kb3 | exact Kb4].
Qed.

Lemma cool_red_down_blue_up_witness :
  exists r' b',
    pixels (_cool (sample_context [200; 77; 250; 128]) 1 1) !! 0%nat
      = Some r' /\
    pixels (_cool (sample_context [200; 77; 250; 128]) 1 1) !! 2%nat
      = Some b' /\
    r' <= 200 /\ b' = 255.
Proof.
  destruct (cool_red_down_blue_up (sample_context [200; 77; 250; 128]) 1 1 0
              200 77 250 128)
    as (r' & b' & H0 & _ & H2 & _ & Hr & _ & _ & _ & Hb);
    try reflexivity; try lia.
  exists r', b'.
  split; [exact H0|]. split; [exact H2|]. split; [lia | apply Hb; lia].
Defined.

(** X2.  The grayscale pass is idempotent: on a surface of whole
    pixels, a second pass leaves every byte as the first pass left
    it. *)
Theorem grayscale_idempotent (c : context2d) (w h : Z) (n : nat) :
  bytes (pixels c) -> length (pixels c) = (4 * n)%nat ->
  pixels (_grayscale (_grayscale c w h) w h) = pixels (_grayscale c w h).
Proof.
  intros Hbytes Hlen. apply list_eq. intros j.
  assert (L1 : length (pixels (_grayscale c w h)) = length (pixels c))
    by (apply pass_length, grayscale_local).
  assert (L2 : length (pixels (_grayscale (_grayscale c w h) w h))
               = length (pixels c))
    by (unfold _grayscale at 1; rewrite pass_length by apply grayscale_local;
        exact L1).
  destruct (decide (j < 4 * n)%nat) as [Hj|Hj];
    [|rewrite !lookup_ge_None_2 by lia; reflexivity].
  destruct (pixel_of_offset n j Hj) as (p & k & -> & Hk & Hp).
  destruct (lookup_lt_is_Some_2 (pixels c) (4 * p)%nat) as [r H0]; [lia|].
  destruct (lookup_lt_is_Some_2 (pixels c) (4 * p + 1)%nat) as [g H1]; [lia|].
  destruct (lookup_lt_is_Some_2 (pixels c) (4 * p + 2)%nat) as [b H2]; [lia|].
  destruct (lookup_lt_is_Some_2 (pixels c) (4 * p + 3)%nat) as [a H3]; [lia|].
  unfold bytes in Hbytes. rewrite Forall_lookup in Hbytes.
  pose proof (Hbytes _ _ H0) as Hr. pose proof (Hbytes _ _ H1) as Hg.
  pose proof (Hbytes _ _ H2) as Hb. cbv beta in Hr, Hg, Hb.
  destruct (grayscale_pass_pixel c w h p r g b a H0 H1 H2 H3)
    as (G0 & G1 & G2 & G3).
  destruct (grayscale_pass_pixel (_grayscale c w h) w h p _ _ _ a
              G0 G1 G2 G3) as (K0 & K1 & K2 & K3).
  pose proof (proj1 (gray_nearest r g b Hr Hg Hb)) as Hv.
  fold (gray_of r g b) in Hv.
  rewrite (gray_fixed _ Hv) in K0, K1, K2.
  assert (Hcase : (k = 0 \/ k = 1 \/ k = 2 \/ k = 3)%nat) by lia.
  destruct Hcase as [-> | [-> | [-> | ->]]].
  - rewrite Nat.add_0_r. now rewrite K0, G0.
  - now rewrite K1, G1.
  - now rewrite K2, G2.
  - now rewrite K3, G3.
Qed.

Lemma grayscale_idempotent_witness :
  pixels (_grayscale (_grayscale (sample_context [255; 0; 0; 200]) 1 1) 1 1)
    = pixels (_grayscale (sample_context [255; 0; 0; 200]) 1 1).
Proof.
  apply (grayscale_idempotent (sample_context [255; 0; 0; 200]) 1 1 1).
  - unfold bytes. cbn. repeat constructor; lia.
  - reflexivity.
Defined.

(** X3.  Whatever filter is selected, the filter stage keeps the
    length of the surface and the alpha byte of every pixel, leaves
    the composite operation and the fill style of the context alone,
    and reads and writes the surface at most once; the green byte is
    written by the grayscale pass only. *)
Theorem filter_stage_keeps_alpha (this : FilterEngine) (c : context2d)
    (w h : Z) (p : nat) :
  let out := _applyFilter this c w h in
  length (pixels out) = length (pixels c) /\
  pixels out !! (4 * p + 3)%nat = pixels c !! (4 * p + 3)%nat /\
  (activeFilter this <> "mono" ->
   pixels out !! (4 * p + 1)%nat = pixels c !! (4 * p + 1)%nat) /\
  globalCompositeOperation out = globalCompositeOperation c /\
  fillStyle out = fillStyle c /\
  (calls out = calls c \/
   calls out = calls c ++ [GetImageData 0 0 w h; PutImageData 0 0]).
Proof.
  intros out. subst out. unfold _applyFilter.
  assert (Hgreen : forall body,
    pixel_local body ->
    (forall d, body (4 * p)%nat d !! (4 * p + 1)%nat = d !! (4 * p + 1)%nat) ->
    pixels (pass body c w h) !! (4 * p + 1)%nat
      = pixels c !! (4 * p + 1)%nat).
  { intros body Hloc Hbody.
    destruct (decide (4 * p + 1 < length (pixels c))%nat) as [Hlt|Hge].
    - rewrite (pass_pixel body c w h p 1 Hloc) by lia. apply Hbody.
    - rewrite !lookup_ge_None_2; [reflexivity | lia |].
      rewrite pass_length by exact Hloc. lia. }
  destruct (String.eqb (activeFilter this) "mono") eqn:Em;
    [|destruct (String.eqb (activeFilter this) "warm") eqn:Ew;
      [|destruct (String.eqb (activeFilter this) "cool") eqn:Ec]].
  - apply String.eqb_eq in Em. unfold _grayscale.
    split; [apply pass_length, grayscale_local|].
    split; [apply pass_alpha; [apply grayscale_local|];
            intros d; unfold grayscale_body; now lookup_sets|].
    split; [congruence|].
    split; [reflexivity|]. split; [reflexivity|].
    right. apply pass_pixels.
  - unfold _warm.
    split; [apply pass_length, warm_local|].
    split; [apply pass_alpha; [apply warm_local|];
            intros d; unfold warm_body; now lookup_sets|].
    split; [intros _; apply Hgreen; [apply warm_local|];
            intros d; unfold warm_body; now lookup_sets|].
    split; [reflexivity|]. split; [reflexivity|].
    right. apply pass_pixels.
  - unfold _cool.
    split; [apply pass_length, cool_local|].
    split; [apply pass_alpha; [apply cool_local|];
            intros d; unfold cool_body; now lookup_sets|].
    split; [intros _; apply Hgreen; [apply cool_local|];
            intros d; unfold cool_body; now lookup_sets|].
    split; [reflexivity|]. split; [reflexivity|].
    right. apply pass_pixels.
  - repeat split; try reflexivity. now left.
Qed.

End FilterPasses.

Section RenderLoop.
Import JS TypedArray Canvas Filters.

Variable Math_pow : float -> float -> float.
Variable composite : string -> source -> list Z -> list Z.

Abbreviation render := (_render Math_pow composite).

(** X4.  A render step never changes the exposure value, the filter
    name, the running flag or the size of the canvas; while the engine
    runs it records the handle of the next frame whatever the state of
    the video and of the canvas, so that a step that cannot draw does
    not end the loop. *)
Theorem render_step_reschedules (this : FilterEngine) (v : video)
    (cv : canvas) (raf : nat) :
  let next := (render this v cv raf).1 in
  let out := (render this v cv raf).2 in
  exposureEV next = exposureEV this /\
  activeFilter next = activeFilter this /\
  _running next = _running this /\
  _rafId next = (if _running this then Some raf else _rafId this) /\
  width out = width cv /\ height out = height cv.
Proof.
  cbv zeta. unfold _render.
  destruct (_running this) eqn:Hrun; cbn [negb].
  - destruct (readyState v <? 2); [repeat split; cbn; congruence|].
    destruct ((width cv =? 0) || (height cv =? 0));
      repeat split; cbn; congruence.
  - repeat split; cbn; congruence.
Qed.

(** A step of a running engine leaves it running with the handle of
    the next frame, the controls and the size of the canvas as they
    were. *)
Lemma render_running (this : FilterEngine) (v : video) (cv : canvas)
    (raf : nat) :
  _running this = true ->
  _running (render this v cv raf).1 = true /\
  _rafId (render this v cv raf).1 = Some raf /\
  exposureEV (render this v cv raf).1 = exposureEV this /\
  activeFilter (render this v cv raf).1 = activeFilter this /\
  width (render this v cv raf).2 = width cv /\
  height (render this v cv raf).2 = height cv.
Proof.
  intros Hrun. unfold _render. rewrite Hrun. cbn [negb].
  destruct (readyState v <? 2); [now repeat split|].
  destruct ((width cv =? 0) || (height cv =? 0)); now repeat split.
Qed.

Lemma render_stopped (this : FilterEngine) (v : video) (cv : canvas)
    (raf : nat) :
  _running this = false -> render this v cv raf = (this, cv).
Proof. intros H. unfold _render. now rewrite H. Qed.

Lemma start_running (this : FilterEngine) (v : video) (cv : canvas)
    (raf : nat) :
  _running this = true -> start Math_pow composite this v cv raf = (this, cv).
Proof. intros H. unfold start. now rewrite H. Qed.

Lemma start_stopped (this : FilterEngine) (v : video) (cv : canvas)
    (raf : nat) :
  _running this = false ->
  start Math_pow composite this v cv raf
    = render {| exposureEV := exposureEV this;
                activeFilter := activeFilter this;
                _running := true;
                _rafId := _rafId this |} v cv raf.
Proof. intros H. unfold start. now rewrite H. Qed.

(** X5.  [stop] ends the loop: every frame callback that still runs
    after it draws nothing and requests nothing, so engine and canvas
    stay as [stop] left them.  A [start] after it sets the engine
    running again with a frame requested, and a [start] on a running
    engine changes nothing. *)
Theorem stop_ends_render_loop (this : FilterEngine) (cv : canvas)
    (frames : list (video * nat)) (v v' : video) (raf raf' : nat) :
  render_frames Math_pow composite (stop this) cv frames = (stop this, cv) /\
  (let restarted := start Math_pow composite (stop this) v cv raf in
   _running restarted.1 = true /\ _rafId restarted.1 = Some raf /\
   start Math_pow composite restarted.1 v' restarted.2 raf' = restarted).
Proof.
  split.
  - induction frames as [|f frames IH] using rev_ind; [reflexivity|].
    unfold render_frames in *. rewrite foldl_app, IH. cbn [foldl fst snd].
    apply render_stopped. reflexivity.
  - cbv zeta.
    rewrite (start_stopped (stop this) v cv raf eq_refl).
    set (woken := {| exposureEV := exposureEV (stop this);
                     activeFilter := activeFilter (stop this);
                     _running := true;
                     _rafId := _rafId (stop this) |}).
    destruct (render_running woken v cv raf eq_refl) as (Hrun & Hraf & _).
    split; [exact Hrun|]. split; [exact Hraf|].
    rewrite (start_running _ v' _ raf' Hrun).
    now destruct (render woken v cv raf).
Qed.

(** The surface a filter stage leaves depends on the surface it is
    given only. *)
Lemma applyFilter_pixels (this : FilterEngine) (c1 c2 : context2d)
    (w h : Z) :
  pixels c1 = pixels c2 ->
  pixels (_applyFilter this c1 w h) = pixels (_applyFilter this c2 w h).
Proof.
  intros H. unfold _applyFilter, _grayscale, _warm, _cool.
  repeat case_match; try exact H;
    rewrite !(proj1 (pass_pixels _ _ w h)); now rewrite H.
Qed.

(** The filter stage leaves the composite operation as it is. *)
Lemma applyFilter_operation (this : FilterEngine) (c : context2d)
    (w h : Z) :
  globalCompositeOperation (_applyFilter this c w h)
    = globalCompositeOperation c.
Proof.
  unfold _applyFilter, _grayscale, _warm, _cool.
  repeat case_match; reflexivity.
Qed.

(** X6.  No frame shows through the next one.  The render step sets
    no composite operation but source-over, so a context that has it
    keeps it through a step that draws.  When the context has it and
    the platform, drawing the frame of the video under source-over,
    replaces what the surface held (frames of a video are opaque), the
    surface after the step does not depend on what the canvas showed
    before: on two such canvases of one size the surfaces after the
    step are equal, provided the alpha of the exposure fill, when
    there is one, is a finite number. *)
Theorem render_forgets_previous_surface (this : FilterEngine) (v : video)
    (cv1 cv2 : canvas) (raf : nat) :
  _running this = true -> 2 <= readyState v ->
  width cv1 <> 0 -> height cv1 <> 0 ->
  width cv2 = width cv1 -> height cv2 = height cv1 ->
  globalCompositeOperation (ctx cv1) = "source-over" ->
  globalCompositeOperation (ctx cv2) = "source-over" ->
  let shown := frame v (width cv1) (height cv1) in
  composite "source-over" (Image shown) (pixels (ctx cv1)) = shown ->
  composite "source-over" (Image shown) (pixels (ctx cv2)) = shown ->
  (strict_ne_zero (exposureEV this) = true ->
   PrimFloat.is_finite
     ((Math_pow 2%float (exposureEV this) - 1) * 0.15)%float = true) ->
  pixels (ctx (render this v cv1 raf).2)
    = pixels (ctx (render this v cv2 raf).2) /\
  globalCompositeOperation (ctx (render this v cv1 raf).2) = "source-over".
Proof.
  intros Hrun Hready Hw Hh Ew Eh Op1 Op2 shown Over1 Over2 Hfin.
  unfold _render. rewrite Hrun. cbn [negb].
  destruct (readyState v <? 2) eqn:E; [apply Z.ltb_lt in E; lia|].
  rewrite Ew, Eh. apply Z.eqb_neq in Hw, Hh. rewrite Hw, Hh.
  cbn [orb snd ctx]. split.
  - apply applyFilter_pixels.
    unfold exposure_simulation. cbn [exposureEV].
    destruct (strict_ne_zero (exposureEV this)) eqn:E0.
    + unfold fillRect, set_fillStyle, set_globalCompositeOperation.
      cbn [alpha]. rewrite (Hfin eq_refl).
      unfold drawImage. cbn. rewrite Op1, Op2. fold shown.
      now rewrite Over1, Over2.
    + unfold drawImage. cbn. rewrite Op1, Op2. fold shown.
      now rewrite Over1, Over2.
  - rewrite applyFilter_operation.
    unfold exposure_simulation. cbn [exposureEV].
    destruct (strict_ne_zero (exposureEV this)); [|exact Op1].
    unfold fillRect, set_fillStyle, set_globalCompositeOperation.
    cbn [alpha]. now destruct (PrimFloat.is_finite _).
Qed.

(** X26.  A NaN exposure paints over every frame.  [setExposure]
    stores NaN as it is; a step that draws then takes the exposure
    branch, and since the colour string with a NaN opacity is no
    colour, the fill style stays what it was and the whole surface is
    filled with it, over the frame just drawn, before the filter
    stage. *)
Theorem nan_exposure_fills_with_stale_style (this : FilterEngine)
    (v : video) (cv : canvas) (raf : nat) :
  Math_pow 2%float PrimFloat.nan = PrimFloat.nan ->
  _running this = true -> 2 <= readyState v ->
  width cv <> 0 -> height cv <> 0 ->
  let stored := setExposure this PrimFloat.nan in
  let w := width cv in
  let h := height cv in
  let drawn := drawImage composite (ctx cv) v w h in
  let exposed := exposure_simulation Math_pow composite stored drawn w h in
  exposureEV stored = PrimFloat.nan /\
  ctx (render stored v cv raf).2 = _applyFilter stored exposed w h /\
  fillStyle exposed = fillStyle (ctx cv) /\
  pixels exposed
    = composite "source-over" (Fill (fillStyle (ctx cv))) (pixels drawn) /\
  calls exposed
    = calls (ctx cv)
        ++ [DrawImage w h; SetGlobalCompositeOperation "source-over";
            SetFillStyle {| red := 255; green := 255; blue := 255;
                            alpha := PrimFloat.nan |};
            FillRect 0 0 w h].
Proof.
  intros Hpow Hrun Hready Hw Hh stored w h drawn exposed.
  assert (Hnan : exposureEV stored = PrimFloat.nan) by reflexivity.
  split; [exact Hnan|]. split.
  - unfold _render. cbn [_running stored setExposure]. rewrite Hrun.
    cbn [negb].
    destruct (readyState v <? 2) eqn:E; [apply Z.ltb_lt in E; lia|].
    apply Z.eqb_neq in Hw, Hh. rewrite Hw, Hh. reflexivity.
  - subst exposed. unfold exposure_simulation. rewrite Hnan, Hpow.
    change (strict_ne_zero PrimFloat.nan) with true.
    change ((PrimFloat.nan - 1) * 0.15)%float with PrimFloat.nan.
    unfold fillRect, set_fillStyle, set_globalCompositeOperation.
    cbn [alpha].
    change (PrimFloat.is_finite PrimFloat.nan) with false.
    cbn. rewrite <- !app_assoc. now repeat split.
Qed.

End RenderLoop.

Lemma nan_exposure_fills_with_stale_style_witness :
  let this := {| Filters.exposureEV := 0%float;
                 Filters.activeFilter := "none";
                 Filters._running := true;
                 Filters._rafId := None |} in
  let cv := {| Canvas.width := 1; Canvas.height := 1;
               Canvas.ctx := sample_context [1; 2; 3; 4] |} in
  Canvas.pixels
    (Canvas.ctx
       (Filters._render pow_table source_over
          (Filters.setExposure this PrimFloat.nan) sample_video cv 1%nat).2)
    = [0; 0; 0; 255].
Proof.
  intros this cv.
  assert (Hready : 2 <= Canvas.readyState sample_video) by (cbn; lia).
  assert (Hside : Canvas.width cv <> 0) by discriminate.
  destruct (nan_exposure_fills_with_stale_style pow_table source_over this
              sample_video cv 1%nat eq_refl eq_refl Hready Hside Hside)
    as (_ & Hctx & _ & Hpx & _).
  rewrite Hctx.
  change (Filters._applyFilter (Filters.setExposure this PrimFloat.nan)
            ?c (Canvas.width cv) (Canvas.height cv)) with c.
  rewrite Hpx. reflexivity.
Defined.

Lemma render_forgets_previous_surface_witness :
  let this := {| Filters.exposureEV := 1%float;
                 Filters.activeFilter := "mono";
                 Filters._running := true;
                 Filters._rafId := None |} in
  let cv1 := {| Canvas.width := 1; Canvas.height := 1;
                Canvas.ctx := sample_context [1; 2; 3; 4] |} in
  let cv2 := {| Canvas.width := 1; Canvas.height := 1;
                Canvas.ctx := sample_context [9; 9; 9; 9] |} in
  Canvas.pixels
    (Canvas.ctx
       (Filters._render pow_table source_over this sample_video cv1 1%nat).2)
    = Canvas.pixels
        (Canvas.ctx
           (Filters._render pow_table source_over this sample_video cv2
              1%nat).2).
Proof.
  intros this cv1 cv2.
  assert (Hready : 2 <= Canvas.readyState sample_video) by (cbn; lia).
  assert (Hside : Canvas.width cv1 <> 0) by discriminate.
  exact (proj1 (render_forgets_previous_surface pow_table source_over this
                  sample_video cv1 cv2 1%nat eq_refl Hready Hside Hside
                  eq_refl eq_refl eq_refl eq_refl eq_refl eq_refl
                  (fun _ => eq_refl))).
Defined.

Section ExposureValue.
Import JS Filters.

(** X7.  Storing the stored exposure again changes nothing, for any
    Number: the clamp of [setExposure] is idempotent, NaN included. *)
Theorem setExposure_idempotent (this : FilterEngine) (ev : float) :
  let once := setExposure this ev in
  setExposure once (exposureEV once) = once.
Proof.
  cbv zeta. unfold setExposure. cbn [exposureEV activeFilter _running _rafId].
  f_equal.
  destruct (PrimFloat.is_nan ev) eqn:Hnan.
  - assert (E : Math_max (-2)%float (Math_min 2%float ev) = PrimFloat.nan).
    { unfold Math_min. rewrite Hnan, orb_true_r. reflexivity. }
    rewrite E. reflexivity.
  - destruct (clamp_exposure ev Hnan) as (Hhi & Hlo & Hmid).
    destruct (PrimFloat.ltb 2%float ev) eqn:E2.
    + rewrite (Hhi eq_refl). reflexivity.
    + destruct (PrimFloat.ltb ev (-2)%float) eqn:E1.
      * rewrite (Hlo eq_refl). reflexivity.
      * assert (H1 : PrimFloat.leb (-2)%float ev = true)
          by (apply leb_total; auto).
        assert (H2 : PrimFloat.leb ev 2%float = true)
          by (apply leb_total; auto).
        rewrite !(Hmid H1 H2). reflexivity.
Qed.

End ExposureValue.

(* ================================================================== *)
(** * Further properties of the LUT engine *)
(* ================================================================== *)

Section LUTEdges.
Import JS TypedArray LUT.

Ltac lookup_sets :=
  repeat first
    [ rewrite set_lookup_ne by lia
    | rewrite set_lookup_eq by (rewrite ?set_length; lia) ].

Lemma apply_with_table (this : LUTEngine) (table data : list Z) :
  lut this = Some table -> size this <> 0 ->
  apply this data
    = for_each_pixel
        (apply_body table (size this) (size this - 1)
           (of_int (size this - 1) / 255)%float) data.
Proof.
  intros Hl Hs. unfold apply. rewrite Hl.
  apply Z.eqb_neq in Hs. now rewrite Hs.
Qed.

(** An offset that the table does not hold reads as [undefined] and
    is stored as 0. *)
Lemma lookup_outside (table : list Z) (index : option Z) (k : Z) :
  match index with
  | Some j => j + k < 0 \/ Z.of_nat (length table) <= j + k
  | None => True
  end ->
  ToUint8Clamp (lookup table index k) = 0.
Proof.
  unfold lookup. destruct index as [j|]; [|reflexivity].
  intros H. destruct (0 <=? j + k) eqn:E; [|reflexivity].
  apply Z.leb_le in E. unfold get.
  rewrite lookup_ge_None_2 by lia. reflexivity.
Qed.

(** X8.  [apply] does not fail on a table that is shorter than the
    cube of its size: a channel whose offset falls outside the table
    is written as 0, the alpha byte is kept, and with an empty table
    every pixel becomes black. *)
Theorem apply_outside_table_is_zero (this : LUTEngine)
    (data table : list Z) (p : nat) (r g b a : Z) :
  lut this = Some table -> size this <> 0 ->
  data !! (4 * p)%nat = Some r ->
  data !! (4 * p + 1)%nat = Some g ->
  data !! (4 * p + 2)%nat = Some b ->
  data !! (4 * p + 3)%nat = Some a ->
  let N := size this in
  let scale := (of_int (N - 1) / 255)%float in
  let index := flat_index N (bucket (N - 1) scale (of_byte r))
                 (bucket (N - 1) scale (of_byte g))
                 (bucket (N - 1) scale (of_byte b)) in
  let out := apply this data in
  (forall k : nat, (k < 3)%nat ->
     match index with
     | Some j => j + Z.of_nat k < 0 \/
                 Z.of_nat (length table) <= j + Z.of_nat k
     | None => True
     end ->
     out !! (4 * p + k)%nat = Some 0) /\
  out !! (4 * p + 3)%nat = Some a /\
  (table = [] ->
   out !! (4 * p)%nat = Some 0 /\ out !! (4 * p + 1)%nat = Some 0 /\
   out !! (4 * p + 2)%nat = Some 0).
Proof.
  intros Hl Hs H0 H1 H2 H3 N scale index out.
  pose proof (lookup_lt_Some _ _ _ H3) as Hlen.
  pose proof (apply_local table N (N - 1) scale) as Hloc.
  destruct (for_each_pixel_lookup _ data Hloc) as [_ Hpix].
  assert (Hout : forall k, (k < 4)%nat ->
    out !! (4 * p + k)%nat
      = apply_body table N (N - 1) scale (4 * p)%nat data
          !! (4 * p + k)%nat).
  { intros k Hk. subst out. rewrite (apply_with_table this table data Hl Hs).
    fold N scale. rewrite Hpix by lia.
    replace ((4 * p + k) / 4)%nat with p; [reflexivity|].
    symmetry. rewrite Nat.mul_comm, Nat.div_add_l by lia.
    rewrite (Nat.div_small k 4) by lia. lia. }
  assert (Hbody : forall k,
    apply_body table N (N - 1) scale (4 * p)%nat data !! (4 * p + k)%nat
      = match k with
        | 0%nat => Some (ToUint8Clamp (lookup table index 0))
        | 1%nat => Some (ToUint8Clamp (lookup table index 1))
        | 2%nat => Some (ToUint8Clamp (lookup table index 2))
        | _ => data !! (4 * p + k)%nat
        end).
  { intros k. unfold apply_body.
    rewrite (get_Some _ _ _ H0), (get_Some _ _ _ H1), (get_Some _ _ _ H2).
    fold index.
    destruct k as [|[|[|k]]].
    - rewrite Nat.add_0_r. now lookup_sets.
    - now lookup_sets.
    - now lookup_sets.
    - now lookup_sets. }
  assert (Hzero : forall k : nat, (k < 3)%nat ->
     match index with
     | Some j => j + Z.of_nat k < 0 \/
                 Z.of_nat (length table) <= j + Z.of_nat k
     | None => True
     end ->
     out !! (4 * p + k)%nat = Some 0).
  { intros k Hk Hidx. rewrite Hout by lia. rewrite Hbody.
    destruct k as [|[|[|k]]]; [| | |lia];
      f_equal; apply lookup_outside; exact Hidx. }
  split; [exact Hzero|]. split.
  - rewrite (Hout 3%nat) by lia. rewrite Hbody. exact H3.
  - intros ->.
    assert (Hany : forall k : nat,
      match index with
      | Some j => j + Z.of_nat k < 0 \/
                  Z.of_nat (length (@nil Z)) <= j + Z.of_nat k
      | None => True
      end).
    { intros k. destruct index as [j|]; [|exact I]. cbn [length]. lia. }
    pose proof (Hzero 0%nat ltac:(lia) (Hany 0%nat)) as Z0.
    rewrite Nat.add_0_r in Z0.
    split; [exact Z0|].
    split; [exact (Hzero 1%nat ltac:(lia) (Hany 1%nat))
           | exact (Hzero 2%nat ltac:(lia) (Hany 2%nat))].
Qed.

Lemma apply_outside_table_is_zero_witness :
  let out := apply {| lut := Some []; size := 16 |} [200; 100; 50; 77] in
  out !! 0%nat = Some 0 /\ out !! 1%nat = Some 0 /\ out !! 2%nat = Some 0 /\
  out !! 3%nat = Some 77.
Proof.
  intros out.
  destruct (apply_outside_table_is_zero {| lut := Some []; size := 16 |}
              [200; 100; 50; 77] [] 0 200 100 50 77)
    as (_ & H3 & H); try reflexivity; try discriminate.
  destruct (H eq_refl) as (H0 & H1 & H2).
  split; [exact H0|]. split; [exact H1|]. split; [exact H2 | exact H3].
Defined.

(** Every edge from 1 to 256 passes the check of its buckets, by
    evaluation. *)
Lemma buckets_scan_ok : all_from 256 1 buckets_ok = true.
Proof. vm_cast_no_check (eq_refl true). Qed.

Lemma buckets_from_spec (n : nat) (size c prev : Z) :
  buckets_from n size c prev = true ->
  (forall d, c <= d < c + Z.of_nat n ->
     d * (size - 1) / 255 - 1 <= bucket_of size d <= d * (size - 1) / 255) /\
  (forall d, c <= d -> d + 1 < c + Z.of_nat n ->
     bucket_of size d <= bucket_of size (d + 1)).
Proof.
  revert c prev. induction n as [|k IH]; intros c prev H; [split; lia|].
  cbn [buckets_from] in H. cbv zeta in H.
  rewrite !andb_true_iff, !Z.leb_le in H.
  destruct H as (((_ & H1) & H2) & Hrest).
  pose proof Hrest as Hnext.
  destruct (IH _ _ Hrest) as [Hnear Hmono]. split.
  - intros d Hd. destruct (decide (d = c)) as [->|Hne]; [lia|].
    apply Hnear. lia.
  - intros d Hd Hd'. destruct (decide (d = c)) as [->|Hne].
    + destruct k as [|k]; [lia|].
      cbn [buckets_from] in Hnext. cbv zeta in Hnext.
      rewrite !andb_true_iff, !Z.leb_le in Hnext. lia.
    + apply Hmono; lia.
Qed.

Lemma buckets_facts (N : Z) :
  1 <= N <= 256 ->
  bucket_of N 0 = 0 /\ bucket_of N 255 = N - 1 /\
  (forall c, 0 <= c < 255 -> bucket_of N c <= bucket_of N (c + 1)) /\
  (forall c, 0 <= c <= 255 ->
     c * (N - 1) / 255 - 1 <= bucket_of N c <= c * (N - 1) / 255).
Proof.
  intros HN.
  pose proof (all_from_spec 256 1 _ buckets_scan_ok N ltac:(lia)) as H.
  unfold buckets_ok in H. rewrite !andb_true_iff in H.
  destruct H as ((H0 & H255) & Hpass).
  apply Z.eqb_eq in H0, H255.
  destruct (buckets_from_spec _ _ _ _ Hpass) as [Hnear Hmono].
  split; [exact H0|]. split; [exact H255|]. split.
  - intros c Hc. apply Hmono; lia.
  - intros c Hc. apply Hnear. lia.
Qed.

Lemma bucket_of_mono (N c : Z) (d : nat) :
  1 <= N <= 256 -> 0 <= c -> c + Z.of_nat d <= 255 ->
  bucket_of N c <= bucket_of N (c + Z.of_nat d).
Proof.
  intros HN Hc. induction d as [|d IH]; intros Hd.
  - rewrite Z.add_0_r. lia.
  - destruct (buckets_facts N HN) as (_ & _ & Hstep & _).
    specialize (IH ltac:(lia)).
    specialize (Hstep (c + Z.of_nat d) ltac:(lia)).
    replace (c + Z.of_nat (S d)) with (c + Z.of_nat d + 1) by lia. lia.
Qed.

(** X9.  For every cube edge from 1 to 256 the quantisation of
    [apply] is monotone in the byte, gives the byte 0 the first bucket
    and the byte 255 the last one, and gives each byte the exact
    quotient of [channel * (size - 1)] by 255 or the bucket just below
    it. *)
Theorem buckets_monotone_onto (N c1 c2 : Z) :
  1 <= N <= 256 -> 0 <= c1 <= c2 -> c2 <= 255 ->
  exists k1 k2,
    bucket (N - 1) (of_int (N - 1) / 255)%float (of_byte c1) = Fin k1 /\
    bucket (N - 1) (of_int (N - 1) / 255)%float (of_byte c2) = Fin k2 /\
    k1 <= k2 /\
    (c1 = 0 -> k1 = 0) /\ (c2 = 255 -> k2 = N - 1) /\
    c1 * (N - 1) / 255 - 1 <= k1 <= c1 * (N - 1) / 255 /\
    c2 * (N - 1) / 255 - 1 <= k2 <= c2 * (N - 1) / 255.
Proof.
  intros HN Hc1 Hc2.
  destruct (bucket_in_range N c1 ltac:(lia) ltac:(lia)) as (k1 & E1 & _).
  destruct (bucket_in_range N c2 ltac:(lia) ltac:(lia)) as (k2 & E2 & _).
  exists k1, k2. split; [exact E1|]. split; [exact E2|].
  assert (B1 : bucket_of N c1 = k1) by (unfold bucket_of; now rewrite E1).
  assert (B2 : bucket_of N c2 = k2) by (unfold bucket_of; now rewrite E2).
  destruct (buckets_facts N HN) as (F0 & F255 & _ & Fnear).
  pose proof (bucket_of_mono N c1 (Z.to_nat (c2 - c1)) HN ltac:(lia)
                ltac:(lia)) as Hmono.
  replace (c1 + Z.of_nat (Z.to_nat (c2 - c1))) with c2 in Hmono by lia.
  rewrite B1, B2 in Hmono.
  split; [exact Hmono|].
  split; [intros ->; congruence|]. split; [intros ->; congruence|].
  split; [rewrite <- B1; apply Fnear; lia
         | rewrite <- B2; apply Fnear; lia].
Qed.

Lemma buckets_monotone_onto_witness :
  exists k1 k2,
    bucket 15 (of_int 15 / 255)%float (of_byte 0) = Fin k1 /\
    bucket 15 (of_int 15 / 255)%float (of_byte 255) = Fin k2 /\
    k1 = 0 /\ k2 = 15.
Proof.
  destruct (buckets_monotone_onto 16 0 255)
    as (k1 & k2 & E1 & E2 & _ & H0 & H255 & _); try lia.
  exists k1, k2. split; [exact E1|]. split; [exact E2|].
  split; [exact (H0 eq_refl) | exact (H255 eq_refl)].
Defined.

(** Beyond such edges the last bucket can stay unused: with 16326
    buckets per axis the byte 255 is given the bucket 16324. *)
Example bucket_16326_255 :
  bucket 16325 (of_int 16325 / 255)%float (of_byte 255) = Fin 16324.
Proof. vm_compute. reflexivity. Qed.

End LUTEdges.

(* ================================================================== *)
(** * Further properties of the gallery *)
(* ================================================================== *)

Section GalleryContents.
Import Gallery.

Variable Blob : Type.
Variable throws : nat -> bool.

Lemma add_all_cons (this : GalleryController Blob) (c : capture Blob)
    (cs : list (capture Blob)) (st : url_store) :
  add_all Blob this (c :: cs) st
    = add_all Blob {| items := items Blob this ++ [entry_of Blob (next st) c] |}
        cs {| next := S (next st);
              live := {[ next st ]} ∪ live st;
              revoke_calls := revoke_calls st |}.
Proof. reflexivity. Qed.

Lemma minted_length (u : nat) (cs : list (capture Blob)) :
  length (minted Blob u cs) = length cs.
Proof.
  revert u. induction cs as [|c cs IH]; intros u; [reflexivity|].
  cbn. now rewrite IH.
Qed.

Lemma minted_urls (u : nat) (cs : list (capture Blob)) :
  url Blob <$> minted Blob u cs = seq u (length cs).
Proof.
  revert u. induction cs as [|c cs IH]; intros u; [reflexivity|].
  cbn. now rewrite IH.
Qed.

Lemma minted_snoc (u : nat) (cs : list (capture Blob)) (c : capture Blob) :
  minted Blob u (cs ++ [c])
    = minted Blob u cs ++ [entry_of Blob (u + length cs)%nat c].
Proof.
  revert u. induction cs as [|c' cs IH]; intros u.
  - cbn. now rewrite Nat.add_0_r.
  - cbn [app minted length]. rewrite IH.
    now rewrite Nat.add_succ_comm.
Qed.

(** What a row of [add]s leaves: the entries, the next URL, the live
    URLs and the revocations so far. *)
Lemma add_all_state (cs : list (capture Blob))
    (this : GalleryController Blob) (st : url_store) :
  items Blob (add_all Blob this cs st).1
    = items Blob this ++ minted Blob (next st) cs /\
  next (add_all Blob this cs st).2 = (next st + length cs)%nat /\
  live (add_all Blob this cs st).2
    = live st ∪ list_to_set (seq (next st) (length cs)) /\
  revoke_calls (add_all Blob this cs st).2 = revoke_calls st.
Proof.
  revert this st. induction cs as [|c cs IH]; intros this st.
  - cbn. rewrite app_nil_r, Nat.add_0_r.
    repeat split; try reflexivity.
    cbn [seq list_to_set]. now rewrite (right_id_L ∅ (∪)).
  - rewrite add_all_cons.
    destruct (IH {| items := items Blob this ++ [entry_of Blob (next st) c] |}
                 {| next := S (next st);
                    live := {[ next st ]} ∪ live st;
                    revoke_calls := revoke_calls st |})
      as (Hitems & Hnext & Hlive & Hcalls).
    cbn [items next live revoke_calls] in Hitems, Hnext, Hlive, Hcalls.
    split; [rewrite Hitems, <- app_assoc; reflexivity|].
    split; [rewrite Hnext; cbn [length]; lia|].
    split; [|exact Hcalls].
    rewrite Hlive. cbn [length seq list_to_set].
    rewrite (comm_L (∪) {[ next st ]} (live st)).
    now rewrite (assoc_L (∪)).
Qed.

(** X10.  After any row of [add]s, [getAll] lists the entries that
    were there followed by one entry for each capture, in the order of
    the calls, each with the blob, the size and the time of its
    capture under a URL of its own; [getLatest] is the entry of the
    last capture, and on a gallery that never received a capture it
    is [null]. *)
Theorem add_all_keeps_order (this : GalleryController Blob)
    (cs : list (capture Blob)) (st : url_store) :
  let filled := (add_all Blob this cs st).1 in
  getAll Blob filled = getAll Blob this ++ minted Blob (next st) cs /\
  length (getAll Blob filled)
    = (length (getAll Blob this) + length cs)%nat /\
  getLatest Blob filled
    = match last cs with
      | Some c => Some (entry_of Blob (next st + length cs - 1)%nat c)
      | None => getLatest Blob this
      end /\
  getLatest Blob (constructor Blob) = None.
Proof.
  cbv zeta. unfold getAll, getLatest.
  destruct (add_all_state cs this st) as (Hitems & _).
  rewrite Hitems. split; [reflexivity|].
  split; [rewrite length_app, minted_length; reflexivity|].
  split; [|reflexivity].
  destruct cs as [|c cs _] using rev_ind.
  - cbn. now rewrite app_nil_r.
  - rewrite last_snoc, minted_snoc, app_assoc, last_snoc.
    rewrite length_app. cbn [length]. do 2 f_equal. lia.
Qed.

(** X11.  A gallery releases what it minted: after any row of [add]s
    on a fresh gallery, [clear] revokes each URL that [add] created,
    once and in order, and when none of these revocations throws, the
    live URLs are again those from before the first [add]. *)
Theorem clear_releases_what_add_minted (cs : list (capture Blob))
    (st : url_store) :
  (forall u, u ∈ live st -> (u < next st)%nat) ->
  (forall u, (next st <= u)%nat -> throws u = false) ->
  let filled := (add_all Blob (constructor Blob) cs st).1 in
  let st1 := (add_all Blob (constructor Blob) cs st).2 in
  exists st2,
    clear Blob throws filled st1 = (Normal, {| items := [] |}, st2) /\
    revoke_calls st2 = revoke_calls st ++ seq (next st) (length cs) /\
    live st2 = live st /\
    next st2 = (next st + length cs)%nat.
Proof.
  intros Hwf Hthrows filled st1.
  destruct (add_all_state cs (constructor Blob) st)
    as (Hitems & Hnext & Hlive & Hcalls).
  fold filled st1 in Hitems, Hnext, Hlive, Hcalls.
  cbn [constructor items app] in Hitems.
  destruct (for_of_try_revoke Blob throws (items Blob filled) st1)
    as (st2 & Hrun & Hnext2 & Hcalls2 & Hlive2).
  exists st2. unfold clear. rewrite Hrun.
  rewrite Hitems, minted_urls in Hcalls2, Hlive2.
  split; [reflexivity|].
  split; [rewrite Hcalls2, Hcalls; reflexivity|].
  split; [|rewrite Hnext2; exact Hnext].
  apply set_eq. intros u. rewrite Hlive2, Hlive.
  rewrite elem_of_union, elem_of_list_to_set, elem_of_seq.
  split.
  - intros [[Hu|Hu] Hn]; [exact Hu|].
    exfalso. apply Hn. split; [exact Hu | apply Hthrows; lia].
  - intros Hu. split; [now left|].
    intros [Hin _]. specialize (Hwf u Hu). lia.
Qed.

End GalleryContents.

Lemma clear_releases_what_add_minted_witness :
  let st := {| Gallery.next := 3%nat;
               Gallery.live := {[ 1%nat ]};
               Gallery.revoke_calls := [] |} in
  let c := {| Gallery.capture_blob := tt; Gallery.capture_width := 1280;
              Gallery.capture_height := 720;
              Gallery.capture_timestamp := 5 |} in
  let never := fun _ : nat => false in
  exists st2,
    Gallery.clear unit never
      (Gallery.add_all unit (Gallery.constructor unit) [c; c] st).1
      (Gallery.add_all unit (Gallery.constructor unit) [c; c] st).2
      = (Gallery.Normal, {| Gallery.items := [] |}, st2) /\
    Gallery.revoke_calls st2 = [3%nat; 4%nat] /\
    Gallery.live st2 = {[ 1%nat ]}.
Proof.
  intros st c never.
  destruct (clear_releases_what_add_minted unit never [c; c] st)
    as (st2 & Hclear & Hcalls & Hlive & _).
  - intros u Hu. unfold st in Hu. cbn [Gallery.live] in Hu.
    apply elem_of_singleton in Hu. subst u. cbn. lia.
  - reflexivity.
  - exists st2. split; [exact Hclear|]. split; [exact Hcalls | exact Hlive].
Defined.

(* ================================================================== *)
(** * Equality and clamping of binary64 values *)
(* ================================================================== *)

Section NumberClamp.
Import JS.

Lemma leb_refl (x : float) :
  PrimFloat.is_nan x = false -> PrimFloat.leb x x = true.
Proof.
  intros H. rewrite FloatAxioms.leb_spec. unfold SFleb.
  now rewrite SFcompare_refl by (now apply is_nan_false).
Qed.

(** Two values that compare equal are one value, or two zeros. *)
Lemma SFeqb_cases (x y : spec_float) :
  SFeqb x y = true ->
  x = y \/ exists s s', x = S754_zero s /\ y = S754_zero s'.
Proof.
  unfold SFeqb.
  destruct x as [sx|sx| |sx mx ex], y as [sy|sy| |sy my ey];
    cbv beta iota delta [SFcompare]; try discriminate;
    try (destruct sx; discriminate);
    try (destruct sy; discriminate).
  - intros _. right. now exists sx, sy.
  - destruct sx, sy; try discriminate; intros _; now left.
  - destruct sx, sy; try discriminate;
      destruct (ex ?= ey) eqn:Ee; try discriminate;
      apply Z.compare_eq in Ee; subst ey.
    + rewrite Pos.compare_cont_antisym. unfold CompOpp.
      destruct (Pos.compare_cont Eq my mx) eqn:Em; try discriminate.
      apply Pos.compare_eq in Em. subst. now left.
    + destruct (Pos.compare_cont Eq mx my) eqn:Em; try discriminate.
      apply Pos.compare_eq in Em. subst. now left.
Qed.

Lemma SFeqb_zero (s s' : bool) (z : spec_float) :
  SFeqb (S754_zero s) z = SFeqb (S754_zero s') z.
Proof. destruct z; reflexivity. Qed.

Lemma eqb_refl (x : float) :
  PrimFloat.is_nan x = false -> PrimFloat.eqb x x = true.
Proof.
  intros H. rewrite FloatAxioms.eqb_spec. unfold SFeqb.
  now rewrite SFcompare_refl by (now apply is_nan_false).
Qed.

Lemma eqb_trans (x y z : float) :
  PrimFloat.eqb x y = true -> PrimFloat.eqb y z = true ->
  PrimFloat.eqb x z = true.
Proof.
  rewrite !FloatAxioms.eqb_spec. intros Hxy Hyz.
  destruct (SFeqb_cases _ _ Hxy) as [E|(s & s' & Ex & Ey)].
  - now rewrite E.
  - rewrite Ey in Hyz. rewrite Ex. now rewrite (SFeqb_zero s s').
Qed.

(** Two values, each not above the other, compare equal. *)
Lemma leb_antisym (x y : float) :
  PrimFloat.leb x y = true -> PrimFloat.leb y x = true ->
  PrimFloat.eqb x y = true.
Proof.
  rewrite !FloatAxioms.leb_spec, FloatAxioms.eqb_spec.
  unfold SFleb, SFeqb. rewrite (SFcompare_antisym (Prim2SF x) (Prim2SF y)).
  destruct (SFcompare (Prim2SF x) (Prim2SF y)) as [[]|]; cbn; congruence.
Qed.

(** [Math.max] and [Math.min] away from NaN return one of their
    arguments, an upper and a lower bound of both. *)
Lemma Math_max_spec (a b : float) :
  PrimFloat.is_nan a = false -> PrimFloat.is_nan b = false ->
  (Math_max a b = a \/ Math_max a b = b) /\
  PrimFloat.leb a (Math_max a b) = true /\
  PrimFloat.leb b (Math_max a b) = true.
Proof.
  intros Ha Hb. unfold Math_max. rewrite Ha, Hb. cbn [orb].
  destruct (PrimFloat.ltb a b) eqn:E1.
  - split; [now right|]. split; [now apply ltb_leb | now apply leb_refl].
  - destruct (PrimFloat.ltb b a) eqn:E2.
    + split; [now left|]. split; [now apply leb_refl | now apply ltb_leb].
    + assert (Hab : PrimFloat.leb a b = true) by now apply leb_total.
      assert (Hba : PrimFloat.leb b a = true) by now apply leb_total.
      destruct (PrimFloat.get_sign a).
      * split; [now right|]. split; [exact Hab | now apply leb_refl].
      * split; [now left|]. split; [now apply leb_refl | exact Hba].
Qed.

Lemma Math_min_spec (a b : float) :
  PrimFloat.is_nan a = false -> PrimFloat.is_nan b = false ->
  (Math_min a b = a \/ Math_min a b = b) /\
  PrimFloat.leb (Math_min a b) a = true /\
  PrimFloat.leb (Math_min a b) b = true.
Proof.
  intros Ha Hb. unfold Math_min. rewrite Ha, Hb. cbn [orb].
  destruct (PrimFloat.ltb a b) eqn:E1.
  - split; [now left|]. split; [now apply leb_refl | now apply ltb_leb].
  - destruct (PrimFloat.ltb b a) eqn:E2.
    + split; [now right|]. split; [now apply ltb_leb | now apply leb_refl].
    + assert (Hab : PrimFloat.leb a b = true) by now apply leb_total.
      assert (Hba : PrimFloat.leb b a = true) by now apply leb_total.
      destruct (PrimFloat.get_sign a).
      * split; [now left|]. split; [now apply leb_refl | exact Hab].
      * split; [now right|]. split; [exact Hba | now apply leb_refl].
Qed.

(** [Math.min(hi, Math.max(lo, x))] for bounds in order and a Number
    that is not NaN lies between the bounds, and equals [x] when [x]
    does. *)
Lemma clamp_between (lo hi x : float) :
  PrimFloat.leb lo hi = true -> PrimFloat.is_nan x = false ->
  let v := Math_min hi (Math_max lo x) in
  PrimFloat.leb lo v = true /\ PrimFloat.leb v hi = true /\
  (PrimFloat.leb lo x = true -> PrimFloat.leb x hi = true ->
   PrimFloat.eqb v x = true).
Proof.
  intros Hlohi Hx v.
  destruct (leb_is_nan _ _ Hlohi) as [Hlo Hhi].
  destruct (Math_max_spec lo x Hlo Hx) as (Hm & Hlom & Hxm).
  assert (Hmn : PrimFloat.is_nan (Math_max lo x) = false)
    by (destruct Hm as [-> | ->]; assumption).
  destruct (Math_min_spec hi (Math_max lo x) Hhi Hmn) as (Hv & Hvhi & Hvm).
  fold v in Hv, Hvhi, Hvm.
  split; [|split; [exact Hvhi|]].
  - destruct Hv as [-> | ->]; assumption.
  - intros H1 H2.
    assert (Emx : PrimFloat.eqb (Math_max lo x) x = true).
    { destruct Hm as [E|E]; rewrite E in *.
      - now apply leb_antisym.
      - now apply eqb_refl. }
    destruct Hv as [E|E]; rewrite E in *; [|exact Emx].
    apply (eqb_trans hi (Math_max lo x) x); [|exact Emx].
    apply leb_antisym; [exact Hvm|].
    destruct Hm as [E'|E']; rewrite E'; assumption.
Qed.

End NumberClamp.

(* ================================================================== *)
(** * Further properties of the camera controller *)
(* ================================================================== *)

Section SessionCoherence.
Import Camera.

Lemma coherent_step (s s' : session) :
  step s s' -> coherent s.1 -> coherent s'.1.
Proof.
  intros Hstep [Hsrc Hrun]. destruct Hstep; cbn [fst] in *.
  - now split.
  - unfold start_request. rewrite H. now split.
  - split; [reflexivity|]. intros _. now eexists.
  - unfold start_rejected, _handleError.
    repeat case_match; now split.
  - unfold start_ready. destruct (stream this) as [s0|] eqn:Es.
    + split; cbn; [exact Hsrc|]. intros _. now eexists.
    + unfold _handleError. repeat case_match; split; cbn; rewrite Es;
        assumption.
  - unfold stop. destruct (stream this) as [s0|] eqn:Es.
    + split; [reflexivity | discriminate].
    + split; rewrite Es; assumption.
Qed.

Lemma reachable_coherent (s : session) : reachable s -> coherent s.1.
Proof.
  induction 1 as [|s s' _ IH Hstep].
  - split; [reflexivity | discriminate].
  - exact (coherent_step s s' Hstep IH).
Qed.

(** X12.  In every state reachable from a fresh controller by calls of
    [start] and [stop] and by the resumptions of suspended [start]s,
    in any interleaving, the video element shows exactly the stream
    the controller holds, a running controller holds a stream, and a
    controller without a stream holds no track. *)
Theorem video_shows_held_stream (this : CameraController)
    (pending : list suspended) :
  reachable (this, pending) ->
  srcObject this = stream this /\
  (isRunning this = true -> is_Some (stream this)) /\
  (stream this = None -> videoTrack this = None /\ isRunning this = false).
Proof.
  intros H.
  destruct (reachable_coherent _ H) as [Hsrc Hrun].
  destruct (reachable_consistent _ H) as [Htrack _].
  cbn [fst] in *.
  split; [exact Hsrc|]. split; [exact Hrun|].
  intros Hnone.
  assert (Hoff : isRunning this = false).
  { destruct (isRunning this); [|reflexivity].
    destruct (Hrun eq_refl) as [s Hs]. congruence. }
  split; [|exact Hoff].
  destruct (videoTrack this) as [h|] eqn:E; [|reflexivity].
  assert (Hon : isRunning this = true) by (apply Htrack; now eexists).
  congruence.
Qed.

Lemma video_shows_held_stream_witness :
  let s := {| videoTracks := [7%nat]; audioTracks := [] |} in
  let this := start_ready (start_bind (start_request constructor).1 s) in
  srcObject this = Some s /\ stream this = Some s.
Proof.
  intros s this.
  destruct (video_shows_held_stream this [] reachable_running) as (H & _).
  split; [rewrite H|]; reflexivity.
Defined.

End SessionCoherence.

Section TrackControls.
Import JS Camera Controls.

Variable track_of : nat -> MediaStreamTrack.

(** X13.  [setExposure] of the camera controller, on a track that
    reports a range of exposure compensation with its bounds in order,
    and for a Number that is not NaN: the value the track is asked to
    apply lies in the range and equals the input when the input does;
    nothing is asked when the track already reports a setting equal to
    that value; the promise rejects, with a TypeError, exactly when the
    track has no [getSettings]; and the call never asks for a focus
    change. *)
Theorem camera_setExposure_within_range (this : CameraController)
    (ev : float) (h : nat) (r : range) :
  videoTrack this = Some h ->
  getCapabilities (track_of h) ≫= exposureCompensation = Some r ->
  PrimFloat.is_nan ev = false ->
  PrimFloat.leb (min r) (max r) = true ->
  let clamped := Math_min (max r) (Math_max (min r) ev) in
  PrimFloat.leb (min r) clamped = true /\
  PrimFloat.leb clamped (max r) = true /\
  (PrimFloat.leb (min r) ev = true -> PrimFloat.leb ev (max r) = true ->
   PrimFloat.eqb clamped ev = true) /\
  match setExposure track_of this ev with
  | Resolved (Some (ExposureCompensation v)) =>
      v = clamped /\
      exists s, getSettings (track_of h) = Some s /\
                strict_eq (exposureCompensation_now s) clamped = false
  | Resolved (Some (ManualFocus _)) => False
  | Resolved None =>
      exists s x, getSettings (track_of h) = Some s /\
                  exposureCompensation_now s = Some x /\
                  PrimFloat.eqb x clamped = true
  | Rejected e => getSettings (track_of h) = None /\ e = "TypeError"
  end.
Proof.
  intros Htrack Hcap Hnan Horder clamped.
  destruct (clamp_between (min r) (max r) ev Horder Hnan) as (H1 & H2 & H3).
  fold clamped in H1, H2, H3.
  split; [exact H1|]. split; [exact H2|]. split; [exact H3|].
  unfold setExposure. rewrite Htrack, Hcap. fold clamped.
  destruct (getSettings (track_of h)) as [s|]; [|now split].
  destruct (strict_eq (exposureCompensation_now s) clamped) eqn:E.
  - unfold strict_eq in E.
    destruct (exposureCompensation_now s) as [x|] eqn:Ex; [|discriminate E].
    exists s, x. now repeat split.
  - split; [reflexivity|]. exists s. now split.
Qed.

(** X14.  The two controls need a running camera: in a reachable
    state in which the controller does not run, [setExposure] and
    [setFocus] ask nothing of any track and resolve, whatever the
    value. *)
Theorem controls_need_running_camera (this : CameraController)
    (pending : list suspended) (x : float) :
  reachable (this, pending) -> isRunning this = false ->
  setExposure track_of this x = Resolved None /\
  setFocus track_of this x = Resolved None.
Proof.
  intros H Hoff.
  destruct (reachable_consistent _ H) as [Htrack _]. cbn [fst] in Htrack.
  assert (E : videoTrack this = None).
  { destruct (videoTrack this) as [h|] eqn:E; [|reflexivity].
    assert (isRunning this = true) by (apply Htrack; now eexists).
    congruence. }
  unfold setExposure, setFocus. rewrite E. now split.
Qed.

End TrackControls.

Lemma camera_setExposure_within_range_witness :
  let track := {| Controls.getCapabilities :=
                    Some {| Controls.exposureCompensation :=
                              Some {| Controls.min := (-3)%float;
                                      Controls.max := 3%float |};
                            Controls.focusMode := None;
                            Controls.focusDistance := None |};
                  Controls.getSettings :=
                    Some {| Controls.exposureCompensation_now :=
                              Some 0%float |} |} in
  let this := Camera.start_ready
                (Camera.start_bind (Camera.start_request Camera.constructor).1
                   {| Camera.videoTracks := [7%nat];
                      Camera.audioTracks := [] |}) in
  Controls.setExposure (fun _ => track) this 10%float
    = Controls.Resolved (Some (Controls.ExposureCompensation 3%float)).
Proof.
  intros track this.
  destruct (camera_setExposure_within_range (fun _ => track) this 10%float
              7%nat {| Controls.min := (-3)%float; Controls.max := 3%float |}
              eq_refl eq_refl eq_refl eq_refl) as (_ & _ & _ & H).
  destruct (Controls.setExposure (fun _ => track) this 10%float)
    as [[[v|v]|]|e] eqn:E.
  - rewrite (proj1 H). reflexivity.
  - contradiction.
  - vm_compute in E. discriminate E.
  - vm_compute in E. discriminate E.
Defined.

Lemma controls_need_running_camera_witness :
  let bare := fun _ : nat => {| Controls.getCapabilities := None;
                                Controls.getSettings := None |} in
  Controls.setExposure bare (Camera.stop Camera.constructor) 1%float
    = Controls.Resolved None /\
  Controls.setFocus bare (Camera.stop Camera.constructor) 1%float
    = Controls.Resolved None.
Proof.
  intros bare.
  apply (controls_need_running_camera bare (Camera.stop Camera.constructor)
           [] 1%float).
  - eapply Camera.reachable_step;
      [exact Camera.reachable_initial | apply Camera.step_stop].
  - reflexivity.
Defined.

Section FocusControl.
Import JS Camera Controls.

Variable track_of : nat -> MediaStreamTrack.

Lemma Prim2SF_neg_infinity :
  Prim2SF PrimFloat.neg_infinity = S754_infinity true.
Proof. vm_compute. reflexivity. Qed.

(** A finite Number is a zero or has a mantissa and an exponent. *)
Lemma finite_number_spec (x : float) :
  finite_number x = true ->
  match Prim2SF x with
  | S754_zero _ | S754_finite _ _ _ => True
  | _ => False
  end.
Proof.
  unfold finite_number. rewrite andb_true_iff.
  rewrite !FloatAxioms.ltb_spec, Prim2SF_neg_infinity, Prim2SF_infinity.
  unfold SFltb.
  destruct (Prim2SF x) as [s|[]| |s m e]; cbn; intros [H1 H2];
    try discriminate; exact I.
Qed.

(** Zero times a finite Number, added to a finite Number, compares
    equal to the latter. *)
Lemma add_zero_times (a d : float) :
  finite_number a = true -> finite_number d = true ->
  PrimFloat.eqb (a + 0 * d)%float a = true.
Proof.
  intros Ha Hd.
  apply finite_number_spec in Ha, Hd.
  rewrite FloatAxioms.eqb_spec, FloatAxioms.add_spec, FloatAxioms.mul_spec.
  rewrite Prim2SF_zero.
  destruct (Prim2SF d) as [sd| | |sd md ed]; try contradiction;
    destruct (Prim2SF a) as [sa| | |sa ma ea] eqn:Ea; try contradiction;
    unfold SF64add, SF64mul; cbn [SFmul SFadd xorb].
  - destruct sa, sd; reflexivity.
  - unfold SFeqb. now rewrite SFcompare_refl.
  - destruct sa, sd; reflexivity.
  - unfold SFeqb. now rewrite SFcompare_refl.
Qed.

(** X15.  [setFocus] never rejects.  It asks the track for one thing
    only, manual focus at the distance
    [min + normalizedValue * (max - min)] of the reported range, and
    only for a held track whose capabilities list the manual mode and
    a range of distances; with the value 0 and a range with a finite
    lower bound and a finite span, the distance asked for compares
    equal to the lower bound. *)
Theorem setFocus_asks_manual_focus_only (this : CameraController)
    (x : float) :
  (forall e, setFocus track_of this x <> Rejected e) /\
  (forall c, setFocus track_of this x = Resolved (Some c) ->
     exists h caps modes d,
       videoTrack this = Some h /\
       getCapabilities (track_of h) = Some caps /\
       focusMode caps = Some modes /\ "manual" ∈ modes /\
       focusDistance caps = Some d /\
       c = ManualFocus (min d + x * (max d - min d))%float) /\
  (forall h caps modes d,
     videoTrack this = Some h ->
     getCapabilities (track_of h) = Some caps ->
     focusMode caps = Some modes -> "manual" ∈ modes ->
     focusDistance caps = Some d ->
     setFocus track_of this x
       = Resolved (Some (ManualFocus (min d + x * (max d - min d))%float)) /\
     (finite_number (min d) = true ->
      finite_number (max d - min d)%float = true ->
      exists v,
        setFocus track_of this 0%float = Resolved (Some (ManualFocus v)) /\
        PrimFloat.eqb v (min d) = true)).
Proof.
  split; [|split].
  - intros e. unfold setFocus. repeat case_match; discriminate.
  - intros c. unfold setFocus.
    destruct (videoTrack this) as [h|] eqn:Et; [|discriminate].
    destruct (getCapabilities (track_of h)) as [caps|] eqn:Ec;
      [|discriminate].
    destruct (focusMode caps) as [modes|] eqn:Em; [|discriminate].
    destruct (bool_decide ("manual" ∈ modes)) eqn:Ei; [|discriminate].
    apply bool_decide_eq_true in Ei. cbn [negb].
    destruct (focusDistance caps) as [d|] eqn:Ed; [|discriminate].
    intros [= <-]. exists h, caps, modes, d. now repeat split.
  - intros h caps modes d Ht Hc Hm Hin Hd.
    assert (Hcall : forall y,
      setFocus track_of this y
        = Resolved (Some (ManualFocus (min d + y * (max d - min d))%float))).
    { intros y. unfold setFocus. rewrite Ht, Hc, Hm, Hd.
      now rewrite (bool_decide_eq_true_2 _ Hin). }
    split; [apply Hcall|]. intros Hmin Hspan.
    eexists. split; [apply Hcall|].
    now apply add_zero_times.
Qed.

End FocusControl.

(* ================================================================== *)
(** * Listeners of the page: registration and removal *)
(* ================================================================== *)

Section Listeners.
Import DOM.

Lemma filter_all {A : Type} (P : A -> Prop) `{!forall x, Decision (P x)}
    (l : list A) :
  Forall P l -> filter P l = l.
Proof.
  induction 1 as [|x l Hx _ IH]; [reflexivity|].
  now rewrite filter_cons_True, IH.
Qed.

Lemma filter_none {A : Type} (P : A -> Prop) `{!forall x, Decision (P x)}
    (l : list A) :
  Forall (fun x => ~ P x) l -> filter P l = [].
Proof.
  induction 1 as [|x l Hx _ IH]; [reflexivity|].
  now rewrite filter_cons_False.
Qed.

(** A callback made after every registered one is registered at the
    end. *)
Lemma addEventListener_fresh (p : page) (l : listener) :
  Forall (fun x => (identity (callback x) < identity (callback l))%nat)
         (listeners p) ->
  addEventListener p l
    = {| listeners := listeners p ++ [l];
         closures := closures p;
         classList := classList p |}.
Proof.
  intros H. unfold addEventListener.
  rewrite bool_decide_eq_false_2; [reflexivity|].
  intros Hin. rewrite Forall_forall in H. specialize (H l Hin). lia.
Qed.

(** Removing a row of registrations keeps the others, in order. *)
Lemma remove_all (B : list listener) (p : page) :
  listeners (foldl removeEventListener p B)
    = filter (fun x => x ∉ B) (listeners p) /\
  closures (foldl removeEventListener p B) = closures p /\
  classList (foldl removeEventListener p B) = classList p.
Proof.
  revert p. induction B as [|b B IH]; intros p.
  - cbn [foldl]. split; [|now split].
    symmetry. apply filter_all. apply Forall_forall.
    intros x _. apply not_elem_of_nil.
  - cbn [foldl]. destruct (IH (removeEventListener p b)) as (H1 & H2 & H3).
    rewrite H1, H2, H3. cbn [removeEventListener listeners closures classList].
    split; [|now split].
    rewrite list_filter_filter. apply list_filter_iff.
    intros x. rewrite not_elem_of_cons. tauto.
Qed.

(** Removing what was registered last, by callbacks made after all
    the others, leaves the others. *)
Lemma remove_registered (L B : list listener) (c : nat) :
  Forall (fun l => (identity (callback l) < c)%nat) L ->
  Forall (fun l => (c <= identity (callback l))%nat) B ->
  filter (fun x => x ∉ B) (L ++ B) = L.
Proof.
  intros HL HB. rewrite filter_app.
  rewrite (filter_all _ L), (filter_none _ B), app_nil_r; [reflexivity| |].
  - apply Forall_forall. intros x Hx Hn. exact (Hn Hx).
  - rewrite Forall_forall in HL, HB. apply Forall_forall.
    intros x Hx Hin. specialize (HL x Hx). specialize (HB x Hin). lia.
Qed.

End Listeners.

(* ================================================================== *)
(** * Further properties of the interface controller *)
(* ================================================================== *)

Section Interface.
Import DOM UI.

Lemma tidy_weaken (p : page) (c : nat) :
  tidy p -> (closures p <= c)%nat ->
  Forall (fun x => (identity (callback x) < c)%nat) (listeners p).
Proof.
  intros H Hc. eapply Forall_impl; [exact H|]. cbn. intros x Hx. lia.
Qed.

Lemma add_after (L : list listener) (k : nat) (cl : gmap nat (gset string))
    (l : listener) :
  Forall (fun x => (identity (callback x) < identity (callback l))%nat) L ->
  addEventListener {| listeners := L; closures := k; classList := cl |} l
    = {| listeners := L ++ [l]; closures := k; classList := cl |}.
Proof. intros H. now rewrite addEventListener_fresh. Qed.

(** One [init] on a tidy page registers its five listeners at the
    end, tracks the same five, and makes five function objects. *)
Lemma init_registers (this : UIController) (p : page) :
  tidy p ->
  init this p
    = ({| els := els this;
          onExposureChange := onExposureChange this;
          onFocusChange := onFocusChange this;
          onShutter := onShutter this;
          onRetryPermission := onRetryPermission this;
          _boundHandlers :=
            _boundHandlers this ++ bindings (els this) (closures p) |},
       {| listeners := listeners p ++ bindings (els this) (closures p);
          closures := 5 + closures p;
          classList := classList p |}).
Proof.
  intros Htidy.
  unfold init, _bindSliders, _bindShutter, _bindTapToFocus,
    _bindPermissionRetry, new_closure, _track.
  cbn -[addEventListener].
  repeat (rewrite add_after
            by (cbn [callback identity]; rewrite ?Forall_app;
                repeat split;
                first [ apply (tidy_weaken _ _ Htidy); lia
                      | repeat constructor; cbn [callback identity]; lia ]);
          cbn [listeners closures classList]).
  unfold bindings. rewrite <- !app_assoc. reflexivity.
Qed.

Lemma bindings_from_fresh (e : elements) (n c : nat) :
  Forall (fun l => (c <= identity (callback l))%nat) (bindings_from e c n).
Proof.
  revert c. induction n as [|n IH]; intros c; [constructor|].
  cbn [bindings_from]. apply Forall_app. split.
  - unfold bindings. repeat constructor; cbn; lia.
  - eapply Forall_impl; [apply IH|]. cbn. intros l Hl. lia.
Qed.

Lemma bindings_from_length (e : elements) (n c : nat) :
  length (bindings_from e c n) = (5 * n)%nat.
Proof.
  revert c. induction n as [|n IH]; intros c; [reflexivity|].
  cbn [bindings_from]. rewrite length_app, IH. cbn [bindings length]. lia.
Qed.

(** What [n] calls of [init] in a row leave. *)
Lemma init_times_state (n : nat) (this : UIController) (p : page) :
  tidy p ->
  let r := init_times n this p in
  r.1 = {| els := els this;
           onExposureChange := onExposureChange this;
           onFocusChange := onFocusChange this;
           onShutter := onShutter this;
           onRetryPermission := onRetryPermission this;
           _boundHandlers :=
             _boundHandlers this
               ++ bindings_from (els this) (closures p) n |} /\
  listeners r.2 = listeners p ++ bindings_from (els this) (closures p) n /\
  closures r.2 = (5 * n + closures p)%nat /\
  classList r.2 = classList p.
Proof.
  revert this p. induction n as [|n IH]; intros this p Htidy.
  - cbn. rewrite !app_nil_r. now destruct this.
  - cbn [init_times]. rewrite (init_registers this p Htidy).
    match goal with
    | |- context [init_times n ?t ?q] =>
        assert (Hq : tidy q);
        [|destruct (IH t q Hq) as (H1 & H2 & H3 & H4)]
    end.
    { unfold tidy. cbn [listeners closures]. apply Forall_app. split.
      - apply (tidy_weaken _ _ Htidy). lia.
      - unfold bindings. repeat constructor; cbn; lia. }
    cbv zeta.
    cbn [els onExposureChange onFocusChange onShutter onRetryPermission
         _boundHandlers listeners closures classList] in H1, H2, H3, H4.
    rewrite H1, H2, H3, H4. cbn [bindings_from].
    rewrite <- !app_assoc. repeat split; try reflexivity. lia.
Qed.

(** X16.  [destroy] undoes [init]: after any number of calls of
    [init] on a tidy page, each of which registers five listeners and
    tracks them, [destroy] removes every listener that [init]
    registered and no other, and leaves nothing tracked; the listeners
    of the page are those from before the first [init]. *)
Theorem destroy_undoes_init (n : nat) (this : UIController) (p : page) :
  tidy p -> _boundHandlers this = [] ->
  let bound := init_times n this p in
  let unbound := destroy bound.1 bound.2 in
  length (listeners bound.2) = (length (listeners p) + 5 * n)%nat /\
  length (_boundHandlers bound.1) = (5 * n)%nat /\
  listeners unbound.2 = listeners p /\
  _boundHandlers unbound.1 = [] /\
  classList unbound.2 = classList p.
Proof.
  intros Htidy Hnone bound unbound.
  destruct (init_times_state n this p Htidy) as (HB & HL & _ & HC).
  fold bound in HB, HL, HC. rewrite Hnone in HB. cbn [app] in HB.
  split; [rewrite HL, length_app, bindings_from_length; reflexivity|].
  split; [rewrite HB; cbn [_boundHandlers];
          rewrite bindings_from_length; reflexivity|].
  subst unbound. unfold destroy. cbn [fst snd _boundHandlers].
  destruct (remove_all (_boundHandlers bound.1) bound.2) as (R1 & _ & R3).
  split; [|split; [reflexivity|]].
  - rewrite R1, HL, HB. cbn [_boundHandlers].
    apply (remove_registered _ _ (closures p)); [exact Htidy|].
    apply bindings_from_fresh.
  - now rewrite R3.
Qed.

(** The listeners of one [init] that a click on the shutter button
    calls: the one of [_bindShutter]. *)
Lemma bindings_on_shutter (e : elements) (c : nat) :
  shutterButton e <> retryPermissionButton e ->
  filter (fun l => target l = shutterButton e /\ type l = "click")
         (bindings e c)
    = [ {| target := shutterButton e; type := "click";
           callback := {| identity := S (S c); does := OnShutterClick |} |} ].
Proof.
  intros Hne. unfold bindings.
  rewrite filter_cons_False by (cbn; intros [_ H]; discriminate H).
  rewrite filter_cons_False by (cbn; intros [_ H]; discriminate H).
  rewrite filter_cons_True by (cbn; now split).
  rewrite filter_cons_False by (cbn; intros [_ H]; discriminate H).
  rewrite filter_cons_False by (cbn; intros [H _]; congruence).
  reflexivity.
Qed.

Lemma dispatch_bindings_from (this : UIController) (e : elements)
    (ev : event) (n c : nat) :
  shutterButton e <> retryPermissionButton e ->
  (l ← filter (fun l => target l = shutterButton e /\ type l = "click")
              (bindings_from e c n);
   handle this (does (callback l)) ev)
    = mjoin (replicate n
               (ShutterFeedback :: (if onShutter this then [Shutter] else []))).
Proof.
  intros Hne. revert c. induction n as [|n IH]; intros c; [reflexivity|].
  cbn [bindings_from replicate]. rewrite filter_app, bind_app.
  rewrite bindings_on_shutter by exact Hne. rewrite IH.
  cbn [mbind list_bind handle does callback mjoin list_join].
  now rewrite app_nil_r.
Qed.

(** X17.  On a page where nothing listens yet to clicks on the shutter
    button, and with a retry button that is another element, a click
    after [n] calls of [init] gives the shutter feedback [n] times and
    calls [onShutter], when it is assigned, [n] times: once for each
    [init].  After [destroy] a click does nothing. *)
Theorem shutter_click_fires_once_per_init (n : nat) (this : UIController)
    (p : page) (ev : event) :
  tidy p -> _boundHandlers this = [] ->
  listening p (shutterButton (els this)) "click" = [] ->
  shutterButton (els this) <> retryPermissionButton (els this) ->
  let bound := init_times n this p in
  let unbound := destroy bound.1 bound.2 in
  dispatch bound.1 bound.2 (shutterButton (els this)) "click" ev
    = mjoin (replicate n
               (ShutterFeedback :: (if onShutter this then [Shutter] else [])))
  /\
  dispatch unbound.1 unbound.2 (shutterButton (els this)) "click" ev = [].
Proof.
  intros Htidy Hnone Hquiet Hne bound unbound.
  destruct (init_times_state n this p Htidy) as (HB & HL & _ & _).
  fold bound in HB, HL. rewrite Hnone in HB. cbn [app] in HB.
  split.
  - unfold dispatch, listening in *. rewrite HL, filter_app, Hquiet.
    cbn [app].
    rewrite <- (dispatch_bindings_from this (els this) ev n (closures p) Hne).
    apply list_bind_ext; [|reflexivity].
    intros l. rewrite HB. reflexivity.
  - subst unbound. unfold dispatch, listening, destroy in *.
    cbn [fst snd].
    destruct (remove_all (_boundHandlers bound.1) bound.2) as (R1 & _ & _).
    rewrite R1, HL, HB. cbn [_boundHandlers].
    rewrite (remove_registered _ _ (closures p));
      [|exact Htidy | apply bindings_from_fresh].
    now rewrite Hquiet.
Qed.

End Interface.

Lemma destroy_undoes_init_witness :
  let e := {| UI.video := 0; UI.canvas := 1; UI.focusRing := 2;
              UI.exposureSlider := 3; UI.focusSlider := 4;
              UI.shutterButton := 5; UI.permissionOverlay := 6;
              UI.retryPermissionButton := 7 |}%nat in
  let p := {| DOM.listeners := []; DOM.closures := 0;
              DOM.classList := ∅ |} in
  let bound := UI.init_times 2 (UI.constructor e) p in
  length (DOM.listeners bound.2) = 10%nat /\
  DOM.listeners (UI.destroy bound.1 bound.2).2 = [].
Proof.
  intros e p bound.
  destruct (destroy_undoes_init 2 (UI.constructor e) p)
    as (H1 & _ & H3 & _); [constructor | reflexivity |].
  split; [exact H1 | exact H3].
Defined.

Lemma shutter_click_fires_once_per_init_witness :
  let e := {| UI.video := 0; UI.canvas := 1; UI.focusRing := 2;
              UI.exposureSlider := 3; UI.focusSlider := 4;
              UI.shutterButton := 5; UI.permissionOverlay := 6;
              UI.retryPermissionButton := 7 |}%nat in
  let p := {| DOM.listeners := []; DOM.closures := 0;
              DOM.classList := ∅ |} in
  let this := {| UI.els := e; UI.onExposureChange := true;
                 UI.onFocusChange := true; UI.onShutter := true;
                 UI.onRetryPermission := true; UI._boundHandlers := [] |} in
  let ev := {| UI.value := 0%float; UI.clientX := 0%float;
               UI.clientY := 0%float; UI.rect_left := 0%float;
               UI.rect_top := 0%float |} in
  let bound := UI.init_times 2 this p in
  UI.dispatch bound.1 bound.2 5%nat "click" ev
    = [UI.ShutterFeedback; UI.Shutter; UI.ShutterFeedback; UI.Shutter].
Proof.
  intros e p this ev bound.
  destruct (shutter_click_fires_once_per_init 2 this p ev) as [H _];
    [constructor | reflexivity | reflexivity | discriminate |].
  exact H.
Defined.

(* ================================================================== *)
(** * The wait for the metadata of the video *)
(* ================================================================== *)

Section Readiness.
Import DOM Controls.

(** The event calls the waiters registered for it: they are gone
    afterwards, and the other listeners stay. *)
Lemma call_waiters (L : list listener) (p : page) :
  listeners
    (foldl (fun p l => match does (callback l) with
                       | OnLoaded => (onLoaded l p).2
                       | _ => p
                       end) p L)
    = filter (fun x => ~ (x ∈ L /\ does (callback x) = OnLoaded))
             (listeners p).
Proof.
  revert p. induction L as [|l L IH]; intros p.
  - cbn [foldl]. symmetry. apply filter_all, Forall_forall.
    intros x _ [Hx _]. now apply not_elem_of_nil in Hx.
  - cbn [foldl]. rewrite IH.
    destruct (decide (does (callback l) = OnLoaded)) as [Hl|Hl].
    + rewrite Hl. cbn [onLoaded snd removeEventListener listeners].
      rewrite list_filter_filter. apply list_filter_iff. intros x.
      rewrite elem_of_cons. split.
      * intros [Hn Hne] [[->|Hx] Ho]; [now apply Hne | now apply Hn].
      * intros Hn. split.
        -- intros [Hx Ho]. apply Hn. split; [now right | exact Ho].
        -- intros ->. apply Hn. split; [now left | exact Hl].
    + assert (E : match does (callback l) with
                  | OnLoaded => (onLoaded l p).2
                  | _ => p
                  end = p) by (destruct (does (callback l)); congruence).
      rewrite E. apply list_filter_iff. intros x.
      rewrite elem_of_cons. split.
      * intros Hn [[->|Hx] Ho]; [now apply Hl | now apply Hn].
      * intros Hn [Hx Ho]. apply Hn. split; [now right | exact Ho].
Qed.

Lemma filter_iff_in {A : Type} (P Q : A -> Prop)
    `{!forall x, Decision (P x)} `{!forall x, Decision (Q x)} (l : list A) :
  (forall x, x ∈ l -> (P x <-> Q x)) -> filter P l = filter Q l.
Proof.
  induction l as [|a l IH]; intros Hall; [reflexivity|].
  assert (Ha : P a <-> Q a) by (apply Hall; now left).
  assert (Hl : filter P l = filter Q l)
    by (apply IH; intros x Hx; apply Hall; now right).
  destruct (decide (P a)) as [Hp|Hp].
  - rewrite !filter_cons_True by tauto. now rewrite Hl.
  - rewrite !filter_cons_False by tauto. exact Hl.
Qed.

Lemma loadedmetadata_listeners (video : nat) (p : page) :
  listeners (loadedmetadata video p)
    = filter (fun l => ~ waits_for_metadata video l) (listeners p).
Proof.
  unfold loadedmetadata. rewrite call_waiters.
  apply filter_iff_in. intros x Hin. unfold listening, waits_for_metadata.
  rewrite list_elem_of_filter. tauto.
Qed.

(** X18.  [_waitForVideoReady] leaves no listener behind: on a video
    that is readable it resolves at once and registers nothing;
    otherwise it registers one listener for [loadedmetadata], which
    takes itself off and resolves when it is called, so that the
    listeners of the page are again those from before the wait.  The
    event clears every such waiter on the video and no other
    listener. *)
Theorem waitForVideoReady_leaves_no_listener (video : nat) (readyState : Z)
    (p : page) :
  tidy p ->
  let r := _waitForVideoReady video readyState p in
  (2 <= readyState -> r = (true, None, p)) /\
  (readyState < 2 ->
   exists l,
     r.1 = (false, Some l) /\ waits_for_metadata video l /\
     listeners r.2 = listeners p ++ [l] /\
     (onLoaded l r.2).1 = true /\
     listeners (onLoaded l r.2).2 = listeners p) /\
  listeners (loadedmetadata video r.2)
    = filter (fun l => ~ waits_for_metadata video l) (listeners p).
Proof.
  intros Htidy r. subst r. unfold _waitForVideoReady.
  destruct (2 <=? readyState) eqn:E.
  - apply Z.leb_le in E. split; [reflexivity|]. split; [lia|].
    apply loadedmetadata_listeners.
  - apply Z.leb_gt in E. split; [lia|].
    cbn [new_closure].
    set (l := {| target := video; type := "loadedmetadata";
                 callback := {| identity := closures p;
                                does := OnLoaded |} |}).
    rewrite add_after by (apply (tidy_weaken _ _ Htidy); cbn; lia).
    assert (Hrm : filter (fun x => x <> l) (listeners p ++ [l])
                  = listeners p).
    { transitivity (filter (fun x => x ∉ [l]) (listeners p ++ [l])).
      - apply list_filter_iff. intros x. rewrite not_elem_of_cons.
        split; [intros H; split; [exact H | apply not_elem_of_nil] | tauto].
      - apply (remove_registered (listeners p) [l] (closures p));
          [exact Htidy | repeat constructor; cbn; lia]. }
    split.
    + intros _. exists l. cbn [fst snd listeners onLoaded removeEventListener].
      split; [reflexivity|]. split; [now repeat split|].
      split; [reflexivity|]. split; [reflexivity | exact Hrm].
    + cbn [snd]. rewrite loadedmetadata_listeners. cbn [listeners].
      rewrite filter_app. rewrite (filter_none _ [l]), app_nil_r;
        [reflexivity|].
      repeat constructor. intros H. apply H. now repeat split.
Qed.

End Readiness.

Lemma waitForVideoReady_leaves_no_listener_witness :
  let p := {| DOM.listeners := []; DOM.closures := 0;
              DOM.classList := ∅ |} in
  let r := Controls._waitForVideoReady 0%nat 1 p in
  length (DOM.listeners r.2) = 1%nat /\
  DOM.listeners (Controls.loadedmetadata 0%nat r.2) = [].
Proof.
  intros p r.
  destruct (waitForVideoReady_leaves_no_listener 0%nat 1 p)
    as (_ & _ & H); [constructor|].
  split; [reflexivity | exact H].
Defined.

(* ================================================================== *)
(** * The application: start-up, pause, shutter and unload *)
(* ================================================================== *)

Section Application.
Import Canvas.

Variable Blob : Type.
Variable encode : Canvas.canvas -> string -> float -> option Blob.
Variable throws : nat -> bool.
Variable Math_pow : float -> float -> float.
Variable composite : string -> Canvas.source -> list Z -> list Z.

Abbreviation state := (App.state Blob).
Abbreviation camera := (App.camera Blob).
Abbreviation filters := (App.filters Blob).
Abbreviation surface := (App.canvas Blob).
Abbreviation gallery := (App.gallery Blob).
Abbreviation urls := (App.urls Blob).
Abbreviation ui := (App.ui Blob).
Abbreviation page := (App.page Blob).
Abbreviation startCamera := (App.startCamera Blob Math_pow composite).
Abbreviation visibilitychange :=
  (App.visibilitychange Blob Math_pow composite).
Abbreviation beforeunload := (App.beforeunload Blob throws).
Abbreviation onShutter := (App.onShutter Blob encode).

(** The exposure and filter stages add to the calls the context has
    received, and take none away. *)
Lemma stages_append_calls (this : Filters.FilterEngine) (c : context2d)
    (w h : Z) :
  exists rest,
    calls (Filters._applyFilter this
             (Filters.exposure_simulation Math_pow composite this c w h) w h)
      = calls c ++ rest.
Proof.
  assert (He : exists r1,
    calls (Filters.exposure_simulation Math_pow composite this c w h)
      = calls c ++ r1).
  { unfold Filters.exposure_simulation.
    destruct (JS.strict_ne_zero (Filters.exposureEV this));
      [|exists []; now rewrite app_nil_r].
    unfold fillRect, set_fillStyle, set_globalCompositeOperation.
    eexists. destruct (PrimFloat.is_finite _); cbn;
      rewrite <- !app_assoc; reflexivity. }
  destruct He as [r1 He].
  unfold Filters._applyFilter, Filters._grayscale, Filters._warm,
    Filters._cool.
  repeat case_match;
    try (rewrite (proj2 (pass_pixels _ _ w h)), He, <- app_assoc;
         eexists; reflexivity).
  exists r1. exact He.
Qed.

(** A step that draws starts with the frame of the video at the size
    of the canvas. *)
Lemma render_draws (this : Filters.FilterEngine) (v : video) (cv : canvas)
    (raf : nat) :
  Filters._running this = true -> 2 <= readyState v ->
  width cv <> 0 -> height cv <> 0 ->
  exists rest,
    calls (ctx (Filters._render Math_pow composite this v cv raf).2)
      = calls (ctx cv) ++ DrawImage (width cv) (height cv) :: rest.
Proof.
  intros Hrun Hready Hw Hh. unfold Filters._render.
  rewrite Hrun. cbn [negb].
  destruct (readyState v <? 2) eqn:E; [apply Z.ltb_lt in E; lia|].
  apply Z.eqb_neq in Hw, Hh. rewrite Hw, Hh. cbn [orb snd ctx].
  match goal with
  | |- context [Filters._applyFilter ?t (Filters.exposure_simulation _ _ _ ?c _ _) _ _] =>
      destruct (stages_append_calls t c (width cv) (height cv)) as [rest Hr]
  end.
  exists rest. rewrite Hr. unfold drawImage. cbn [calls log set_pixels].
  now rewrite <- app_assoc.
Qed.

Lemma start_granted (this : Camera.CameraController)
    (s : Camera.MediaStream) :
  Camera.isRunning this = false ->
  Controls.start this (Controls.Granted s)
    = ({| Camera.stream := Some s;
          Camera.videoTrack := Camera.videoTracks s !! 0%nat;
          Camera.isRunning := true;
          Camera.srcObject := Some s;
          Camera.statusText := "Camera ready" |}, true).
Proof.
  intros H. unfold Controls.start, Camera.start_request. rewrite H.
  reflexivity.
Qed.

Lemma start_denied (this : Camera.CameraController) (name : string) :
  Camera.isRunning this = false ->
  (Controls.start this (Controls.Denied name)).2 = false /\
  Camera.isRunning (Controls.start this (Controls.Denied name)).1 = false /\
  Camera.stream (Controls.start this (Controls.Denied name)).1
    = Camera.stream this /\
  Camera.videoTrack (Controls.start this (Controls.Denied name)).1
    = Camera.videoTrack this /\
  Camera.srcObject (Controls.start this (Controls.Denied name)).1
    = Camera.srcObject this.
Proof.
  intros H. unfold Controls.start, Camera.start_request. rewrite H.
  cbn [fst snd]. unfold Camera.start_rejected, Camera._handleError.
  repeat case_match; cbn; now repeat split.
Qed.

(** X19.  [startCamera] on an application whose camera and filter
    engine do not run.  When the platform grants a stream, the camera
    runs with that stream on the video and its first video track, the
    filter engine runs with a frame requested, the exposure and the
    filter name are kept, and the permission overlay is not touched; a
    video with a size gives the canvas that size, and when it is
    readable besides, the first thing drawn is its frame at that size.
    When the platform refuses, the camera does not run and holds what
    it held, the engine and the canvas are as they were, and the
    permission overlay is shown. *)
Theorem startCamera_outcome (a : state) (ans : Controls.answer)
    (v : video) (raf : nat) :
  Camera.isRunning (camera a) = false ->
  Filters._running (filters a) = false ->
  let a' := startCamera a ans v raf in
  match ans with
  | Controls.Granted s =>
      Camera.isRunning (camera a') = true /\
      Camera.stream (camera a') = Some s /\
      Camera.srcObject (camera a') = Some s /\
      Camera.videoTrack (camera a') = Camera.videoTracks s !! 0%nat /\
      Filters._running (filters a') = true /\
      Filters._rafId (filters a') = Some raf /\
      Filters.exposureEV (filters a') = Filters.exposureEV (filters a) /\
      Filters.activeFilter (filters a') = Filters.activeFilter (filters a) /\
      DOM.classList (page a') = DOM.classList (page a) /\
      (videoWidth v <> 0 -> videoHeight v <> 0 ->
       width (surface a') = videoWidth v /\
       height (surface a') = videoHeight v /\
       (2 <= readyState v ->
        exists rest,
          calls (ctx (surface a'))
            = calls (ctx (surface a))
                ++ DrawImage (videoWidth v) (videoHeight v) :: rest))
  | Controls.Denied name =>
      Camera.isRunning (camera a') = false /\
      Camera.stream (camera a') = Camera.stream (camera a) /\
      Camera.videoTrack (camera a') = Camera.videoTrack (camera a) /\
      filters a' = filters a /\
      surface a' = surface a /\
      "hidden" ∉ DOM.classes (page a') (UI.permissionOverlay (UI.els (ui a)))
  end.
Proof.
  intros Hcam Heng a'. subst a'. unfold App.startCamera.
  destruct ans as [s|name].
  - rewrite (start_granted _ s Hcam). cbn [fst snd].
    rewrite (start_stopped Math_pow composite _ v _ raf Heng).
    set (woken := {| Filters.exposureEV := Filters.exposureEV (filters a);
                     Filters.activeFilter := Filters.activeFilter (filters a);
                     Filters._running := true;
                     Filters._rafId := Filters._rafId (filters a) |}).
    destruct (render_running Math_pow composite woken v
                (Filters.resize v (surface a)) raf eq_refl)
      as (R1 & R2 & R3 & R4 & R5 & R6).
    cbn [App.camera App.filters App.canvas App.page
         Camera.isRunning Camera.stream Camera.srcObject Camera.videoTrack].
    split; [reflexivity|]. split; [reflexivity|]. split; [reflexivity|].
    split; [reflexivity|]. split; [exact R1|]. split; [exact R2|].
    split; [exact R3|]. split; [exact R4|]. split; [reflexivity|].
    intros Hw Hh.
    assert (Hsize : Filters.resize v (surface a)
      = {| width := videoWidth v; height := videoHeight v;
           ctx := ctx (Filters.resize v (surface a)) |} /\
      calls (ctx (Filters.resize v (surface a))) = calls (ctx (surface a))).
    { unfold Filters.resize. apply Z.eqb_neq in Hw, Hh. rewrite Hw, Hh.
      cbn. now split. }
    destruct Hsize as [Hsize Hcalls].
    split; [rewrite R5, Hsize; reflexivity|].
    split; [rewrite R6, Hsize; reflexivity|].
    intros Hready.
    destruct (render_draws woken v (Filters.resize v (surface a)) raf
                eq_refl Hready) as [rest Hr].
    + rewrite Hsize. exact Hw.
    + rewrite Hsize. exact Hh.
    + exists rest. rewrite Hr, Hcalls. rewrite Hsize at 1 2. reflexivity.
  - destruct (start_denied (camera a) name Hcam) as (D1 & D2 & D3 & D4 & _).
    rewrite D1.
    cbn [App.camera App.filters App.canvas App.page App.ui].
    split; [exact D2|]. split; [exact D3|]. split; [exact D4|].
    split; [reflexivity|]. split; [reflexivity|].
    unfold UI.showPermissionOverlay, DOM.classList_remove, DOM.classes.
    cbn [DOM.classList]. rewrite lookup_insert_eq.
    cbv beta iota delta [default from_option id].
    intros Hin. apply elem_of_difference in Hin as [_ Hin].
    apply Hin. now apply elem_of_singleton.
Qed.

(** X20.  The [beforeunload] listener runs its four calls to the end,
    whatever revocation throws.  Afterwards the filter engine does not
    run; a camera in a reachable state holds no stream and no track,
    shows none on the video and does not run; the gallery is empty and
    [revokeObjectURL] was called on the URL of every entry, in order;
    no listener that the interface tracked is registered any more, and
    the other listeners of the page are kept. *)
Theorem beforeunload_releases_everything (a : state)
    (pending : list Camera.suspended) :
  Camera.reachable (camera a, pending) ->
  let r := beforeunload a in
  r.1 = Gallery.Normal /\
  Filters._running (filters r.2) = false /\
  Camera.stream (camera r.2) = None /\
  Camera.videoTrack (camera r.2) = None /\
  Camera.srcObject (camera r.2) = None /\
  Camera.isRunning (camera r.2) = false /\
  Gallery.items Blob (gallery r.2) = [] /\
  Gallery.revoke_calls (urls r.2)
    = Gallery.revoke_calls (urls a)
        ++ (Gallery.url Blob <$> Gallery.items Blob (gallery a)) /\
  (forall e, e ∈ Gallery.items Blob (gallery a) ->
     throws (Gallery.url Blob e) = false ->
     Gallery.url Blob e ∉ Gallery.live (urls r.2)) /\
  UI._boundHandlers (ui r.2) = [] /\
  (forall l, l ∈ DOM.listeners (page r.2) <->
     l ∈ DOM.listeners (page a) /\ l ∉ UI._boundHandlers (ui a)).
Proof.
  intros Hreach r. subst r. unfold App.beforeunload.
  destruct (for_of_try_revoke Blob throws
              (Gallery.items Blob (gallery a)) (urls a))
    as (st' & Hrun & _ & Hcalls & Hlive).
  unfold Gallery.clear. rewrite Hrun. cbn [fst snd].
  cbn [App.camera App.filters App.gallery App.urls App.ui App.page].
  destruct (reachable_coherent _ Hreach) as [Hsrc Hon].
  destruct (reachable_consistent _ Hreach) as [Htrack _].
  cbn [fst] in Hsrc, Hon, Htrack.
  assert (Hstop :
    Camera.stream (Camera.stop (camera a)) = None /\
    Camera.videoTrack (Camera.stop (camera a)) = None /\
    Camera.srcObject (Camera.stop (camera a)) = None /\
    Camera.isRunning (Camera.stop (camera a)) = false).
  { unfold Camera.stop.
    destruct (Camera.stream (camera a)) as [s|] eqn:Es; [now repeat split|].
    assert (Hoff : Camera.isRunning (camera a) = false).
    { destruct (Camera.isRunning (camera a)); [|reflexivity].
      destruct (Hon eq_refl) as [s Hs]. discriminate Hs. }
    split; [exact Es|]. split; [|split; [now rewrite Hsrc | exact Hoff]].
    destruct (Camera.videoTrack (camera a)) as [h|] eqn:E; [|reflexivity].
    assert (Camera.isRunning (camera a) = true)
      by (apply Htrack; now eexists).
    congruence. }
  destruct Hstop as (S1 & S2 & S3 & S4).
  split; [reflexivity|]. split; [reflexivity|].
  split; [exact S1|]. split; [exact S2|]. split; [exact S3|].
  split; [exact S4|]. split; [reflexivity|]. split; [exact Hcalls|].
  split.
  - intros e He Ht Hu. apply Hlive in Hu. destruct Hu as [_ Hu].
    apply Hu. split; [|exact Ht].
    apply list_elem_of_fmap. exists e. now split.
  - split; [reflexivity|]. intros l. unfold UI.destroy. cbn [snd].
    destruct (remove_all (UI._boundHandlers (ui a)) (page a)) as (R1 & _).
    rewrite R1, list_elem_of_filter. tauto.
Qed.

(** X21.  A press of the shutter either adds exactly one entry to the
    gallery or changes nothing.  It adds one when the canvas has a
    size and the encoder gives data for 'image/jpeg' at quality 0.92:
    the entry is the latest, it holds that data, the size of the
    canvas when the encoder called back and the time then, under a new
    URL that is live.  Otherwise the gallery and the URLs stay as they
    were and the error is the one of the capture, which is caught. *)
Theorem onShutter_adds_one_entry (a : state) (later : canvas) (now : Z) :
  let r := onShutter a later now in
  match r.2 with
  | None =>
      exists b,
        width (surface a) <> 0 /\ height (surface a) <> 0 /\
        encode (surface a) "image/jpeg" 0.92%float = Some b /\
        let e := {| Gallery.url := Gallery.next (urls a);
                    Gallery.blob := b;
                    Gallery.width := width later;
                    Gallery.height := height later;
                    Gallery.timestamp := now |} in
        Gallery.getAll Blob (gallery r.1)
          = Gallery.getAll Blob (gallery a) ++ [e] /\
        Gallery.getLatest Blob (gallery r.1) = Some e /\
        Gallery.next (urls a) ∈ Gallery.live (urls r.1) /\
        Gallery.revoke_calls (urls r.1) = Gallery.revoke_calls (urls a)
  | Some err =>
      r.1 = a /\
      ((err = Capture.NotReady /\
        (width (surface a) = 0 \/ height (surface a) = 0)) \/
       (err = Capture.EncodingError /\
        width (surface a) <> 0 /\ height (surface a) <> 0 /\
        encode (surface a) "image/jpeg" 0.92%float = None))
  end.
Proof.
  intros r. subst r. unfold App.onShutter, Capture.capture.
  cbn [Capture.type Capture.quality default].
  destruct (width (surface a) =? 0) eqn:Ew.
  - apply Z.eqb_eq in Ew. cbn [orb fst snd].
    split; [reflexivity|]. left. split; [reflexivity | now left].
  - destruct (height (surface a) =? 0) eqn:Eh.
    + apply Z.eqb_eq in Eh. cbn [orb fst snd].
      split; [reflexivity|]. left. split; [reflexivity | now right].
    + apply Z.eqb_neq in Ew, Eh. cbn [orb].
      destruct (encode (surface a) "image/jpeg" 0.92%float) as [b|] eqn:Ee.
      * cbn [fst snd]. exists b.
        split; [exact Ew|]. split; [exact Eh|]. split; [reflexivity|].
        cbv zeta.
        cbn [App.gallery App.urls Gallery.add Gallery.createObjectURL
             fst snd App.as_capture Capture.blob Capture.result_width
             Capture.result_height Capture.timestamp
             Gallery.capture_blob Gallery.capture_width
             Gallery.capture_height Gallery.capture_timestamp].
        unfold Gallery.getAll, Gallery.getLatest.
        cbn [Gallery.items Gallery.live Gallery.revoke_calls].
        split; [reflexivity|]. split; [apply last_snoc|].
        split; [|reflexivity].
        apply elem_of_union. left. now apply elem_of_singleton.
      * cbn [fst snd]. split; [reflexivity|]. right. now repeat split.
Qed.

(** X22.  Hiding the page and showing it again.  With the page hidden
    the filter engine does not run and a camera in a reachable state
    is released; the exposure, the filter name, the canvas, the
    gallery and the interface are kept.  When the page is shown again
    and the platform grants a stream, the camera and the engine run
    again with the exposure and the filter name from before, and the
    gallery is the one from before. *)
Theorem hidden_page_pauses_and_resumes (a : state)
    (pending : list Camera.suspended) (ans : Controls.answer)
    (s : Camera.MediaStream) (v v' : video) (raf raf' : nat) :
  Camera.reachable (camera a, pending) ->
  let paused := visibilitychange a true ans v raf in
  let resumed := visibilitychange paused false (Controls.Granted s) v' raf' in
  Filters._running (filters paused) = false /\
  Camera.isRunning (camera paused) = false /\
  Camera.stream (camera paused) = None /\
  Camera.videoTrack (camera paused) = None /\
  Filters.exposureEV (filters paused) = Filters.exposureEV (filters a) /\
  Filters.activeFilter (filters paused) = Filters.activeFilter (filters a) /\
  surface paused = surface a /\ gallery paused = gallery a /\
  urls paused = urls a /\ ui paused = ui a /\ page paused = page a /\
  Camera.isRunning (camera resumed) = true /\
  Camera.stream (camera resumed) = Some s /\
  Filters._running (filters resumed) = true /\
  Filters._rafId (filters resumed) = Some raf' /\
  Filters.exposureEV (filters resumed) = Filters.exposureEV (filters a) /\
  Filters.activeFilter (filters resumed) = Filters.activeFilter (filters a) /\
  gallery resumed = gallery a /\ urls resumed = urls a.
Proof.
  intros Hreach paused resumed.
  destruct (reachable_coherent _ Hreach) as [Hsrc Hon].
  destruct (reachable_consistent _ Hreach) as [Htrack _].
  cbn [fst] in Hsrc, Hon, Htrack.
  assert (Hstop :
    Camera.stream (Camera.stop (camera a)) = None /\
    Camera.videoTrack (Camera.stop (camera a)) = None /\
    Camera.isRunning (Camera.stop (camera a)) = false).
  { unfold Camera.stop.
    destruct (Camera.stream (camera a)) as [s0|] eqn:Es; [now repeat split|].
    assert (Hoff : Camera.isRunning (camera a) = false).
    { destruct (Camera.isRunning (camera a)); [|reflexivity].
      destruct (Hon eq_refl) as [s0 Hs]. discriminate Hs. }
    split; [exact Es|]. split; [|exact Hoff].
    destruct (Camera.videoTrack (camera a)) as [h|] eqn:E; [|reflexivity].
    assert (Camera.isRunning (camera a) = true)
      by (apply Htrack; now eexists).
    congruence. }
  destruct Hstop as (S1 & S2 & S3).
  assert (P : paused
    = {| App.camera := Camera.stop (camera a);
         App.filters := Filters.stop (filters a);
         App.canvas := surface a;
         App.gallery := gallery a;
         App.urls := urls a;
         App.ui := ui a;
         App.page := page a |}) by reflexivity.
  split; [rewrite P; reflexivity|]. split; [rewrite P; exact S3|].
  split; [rewrite P; exact S1|]. split; [rewrite P; exact S2|].
  split; [rewrite P; reflexivity|]. split; [rewrite P; reflexivity|].
  split; [rewrite P; reflexivity|]. split; [rewrite P; reflexivity|].
  split; [rewrite P; reflexivity|]. split; [rewrite P; reflexivity|].
  split; [rewrite P; reflexivity|].
  set (woken := {| Filters.exposureEV := Filters.exposureEV (filters a);
                   Filters.activeFilter := Filters.activeFilter (filters a);
                   Filters._running := true;
                   Filters._rafId :=
                     Filters._rafId (Filters.stop (filters a)) |}).
  set (step := Filters._render Math_pow composite woken v'
                 (Filters.resize v' (surface a)) raf').
  assert (Q : resumed
    = {| App.camera :=
           {| Camera.stream := Some s;
              Camera.videoTrack := Camera.videoTracks s !! 0%nat;
              Camera.isRunning := true;
              Camera.srcObject := Some s;
              Camera.statusText := "Camera ready" |};
         App.filters := step.1;
         App.canvas := step.2;
         App.gallery := gallery a;
         App.urls := urls a;
         App.ui := ui a;
         App.page := page a |}).
  { subst resumed. rewrite P. unfold App.visibilitychange, App.startCamera.
    cbn [App.camera App.filters App.canvas App.gallery App.urls App.ui
         App.page].
    rewrite (start_granted _ s S3). cbn [fst snd].
    rewrite (start_stopped Math_pow composite (Filters.stop (filters a)) v' _
               raf' eq_refl).
    reflexivity. }
  destruct (render_running Math_pow composite woken v'
              (Filters.resize v' (surface a)) raf' eq_refl)
    as (R1 & R2 & R3 & R4 & _).
  fold step in R1, R2, R3, R4.
  rewrite Q.
  cbn [App.camera App.filters App.gallery App.urls
       Camera.isRunning Camera.stream].
  split; [reflexivity|]. split; [reflexivity|].
  split; [exact R1|]. split; [exact R2|].
  split; [exact R3|]. split; [exact R4|]. now split.
Qed.

(** X23.  The retry button, on an application whose camera and
    filter engine do not run: the permission overlay is hidden and the
    camera is started again.  When the platform grants a stream the
    overlay stays hidden and camera and engine run; when it refuses
    again the overlay is shown again. *)
Theorem retry_hides_overlay_until_refused (a : state)
    (ans : Controls.answer) (v : video) (raf : nat) :
  Camera.isRunning (camera a) = false ->
  Filters._running (filters a) = false ->
  let overlay := UI.permissionOverlay (UI.els (ui a)) in
  let a' := App.onRetryPermission Blob Math_pow composite a ans v raf in
  match ans with
  | Controls.Granted s =>
      ("hidden" ∈ DOM.classes (page a') overlay) /\
      Camera.isRunning (camera a') = true /\
      Camera.stream (camera a') = Some s /\
      Filters._running (filters a') = true
  | Controls.Denied name =>
      ("hidden" ∉ DOM.classes (page a') overlay) /\
      Camera.isRunning (camera a') = false /\
      filters a' = filters a
  end.
Proof.
  intros Hcam Heng overlay a'. subst a' overlay.
  unfold App.onRetryPermission, App.startCamera.
  cbn [App.camera App.filters App.canvas App.gallery App.urls App.ui
       App.page].
  destruct ans as [s|name].
  - rewrite (start_granted _ s Hcam). cbn [fst snd].
    rewrite (start_stopped Math_pow composite _ v _ raf Heng).
    match goal with
    | |- context [Filters._render Math_pow composite ?t v ?c raf] =>
        destruct (render_running Math_pow composite t v c raf eq_refl)
          as (R1 & _)
    end.
    cbn [App.camera App.filters App.page Camera.isRunning Camera.stream].
    split; [|now repeat split].
    unfold UI.hidePermissionOverlay, DOM.classList_add, DOM.classes.
    cbn [DOM.classList]. rewrite lookup_insert_eq.
    cbv beta iota delta [default from_option id].
    apply elem_of_union. left. now apply elem_of_singleton.
  - destruct (start_denied (camera a) name Hcam) as (D1 & D2 & _).
    rewrite D1.
    cbn [App.camera App.filters App.page App.ui].
    split; [|now split].
    unfold UI.showPermissionOverlay, UI.hidePermissionOverlay,
      DOM.classList_remove, DOM.classList_add, DOM.classes.
    cbn [DOM.classList]. rewrite !lookup_insert_eq.
    cbv beta iota delta [default from_option id].
    intros Hin. apply elem_of_difference in Hin as [_ Hin].
    apply Hin. now apply elem_of_singleton.
Qed.

(** The listeners of a page after the tracked ones in its middle are
    removed. *)
Lemma remove_middle (L B R : list DOM.listener) (c d : nat) :
  Forall (fun l => (DOM.identity (DOM.callback l) < c)%nat) L ->
  Forall (fun l => (c <= DOM.identity (DOM.callback l) < d)%nat) B ->
  Forall (fun l => (d <= DOM.identity (DOM.callback l))%nat) R ->
  filter (fun x => x ∉ B) (L ++ B ++ R) = L ++ R.
Proof.
  intros HL HB HR. rewrite !filter_app.
  rewrite Forall_forall in HL, HB, HR.
  rewrite (filter_all _ L), (filter_none _ B), (filter_all _ R);
    [reflexivity | | |].
  - apply Forall_forall. intros x Hx Hin.
    specialize (HR x Hx). specialize (HB x Hin). lia.
  - apply Forall_forall. intros x Hx Hn. exact (Hn Hx).
  - apply Forall_forall. intros x Hx Hin.
    specialize (HL x Hx). specialize (HB x Hin). lia.
Qed.

(** X24.  Booting and unloading.  On a tidy page the boot assigns the
    four callbacks, registers the five listeners of the interface on
    its elements and tracks them, and registers the two listeners of
    the application on the document and on the window.  The
    [beforeunload] listener then runs to its end: the five listeners
    of the interface are removed, the listeners that were there before
    the boot and the two listeners of the application stay, the
    classes of the page are as before the boot, and nothing is
    revoked, the gallery being empty. *)
Theorem unload_after_boot_unbinds_interface (e : UI.elements)
    (document window : nat) (cv : canvas) (st : Gallery.url_store)
    (p : DOM.page) :
  tidy p ->
  let c := DOM.closures p in
  let a := App.boot Blob e document window cv st p in
  let r := beforeunload a in
  (UI.onExposureChange (ui a) = true /\ UI.onFocusChange (ui a) = true /\
   UI.onShutter (ui a) = true /\ UI.onRetryPermission (ui a) = true) /\
  DOM.listeners (page a)
    = DOM.listeners p ++ bindings e c
        ++ app_listeners document window (5 + c) /\
  UI._boundHandlers (ui a) = bindings e c /\
  r.1 = Gallery.Normal /\
  DOM.listeners (page r.2)
    = DOM.listeners p ++ app_listeners document window (5 + c) /\
  DOM.classList (page r.2) = DOM.classList p /\
  UI._boundHandlers (ui r.2) = [] /\
  urls r.2 = st.
Proof.
  intros Htidy c a r.
  assert (A : a
    = {| App.camera := Camera.constructor;
         App.filters := Filters.constructor;
         App.canvas := cv;
         App.gallery := Gallery.constructor Blob;
         App.urls := st;
         App.ui := {| UI.els := e;
                      UI.onExposureChange := true;
                      UI.onFocusChange := true;
                      UI.onShutter := true;
                      UI.onRetryPermission := true;
                      UI._boundHandlers := bindings e c |};
         App.page := {| DOM.listeners :=
                          DOM.listeners p ++ bindings e c
                            ++ app_listeners document window (5 + c);
                        DOM.closures := 7 + c;
                        DOM.classList := DOM.classList p |} |}).
  { subst a. unfold App.boot. rewrite (init_registers _ p Htidy).
    cbn [fst snd DOM.new_closure DOM.closures DOM.listeners DOM.classList
         UI.els UI._boundHandlers app].
    fold c.
    rewrite (add_after (DOM.listeners p ++ bindings e c) (S (5 + c))
               (DOM.classList p)).
    2:{ cbn [DOM.callback DOM.identity]. apply Forall_app. split.
        - apply (tidy_weaken _ _ Htidy). fold c. lia.
        - unfold bindings. repeat constructor; cbn; lia. }
    cbn [DOM.listeners DOM.closures DOM.classList].
    rewrite add_after.
    2:{ cbn [DOM.callback DOM.identity]. rewrite !Forall_app.
        split; [split|].
        - apply (tidy_weaken _ _ Htidy). fold c. lia.
        - unfold bindings. repeat constructor; cbn; lia.
        - repeat constructor; cbn; lia. }
    unfold app_listeners. rewrite <- !app_assoc. reflexivity. }
  split; [rewrite A; now repeat split|].
  split; [rewrite A; reflexivity|]. split; [rewrite A; reflexivity|].
  subst r. rewrite A. unfold App.beforeunload.
  cbn [App.gallery App.urls App.ui App.page Gallery.clear Gallery.constructor
       Gallery.items Gallery.for_of fst snd].
  unfold UI.destroy. cbn [fst snd UI._boundHandlers App.page App.ui App.urls].
  match goal with
  | |- context [foldl DOM.removeEventListener ?q ?B] =>
      destruct (remove_all B q) as (R1 & _ & R3)
  end.
  split; [reflexivity|]. split.
  - rewrite R1. cbn [DOM.listeners].
    apply (remove_middle _ _ _ c (5 + c)); [exact Htidy | |].
    + unfold bindings. repeat constructor; cbn; lia.
    + unfold app_listeners. repeat constructor; cbn; lia.
  - split; [rewrite R3; reflexivity|]. now split.
Qed.

End Application.

Lemma startCamera_outcome_witness :
  let twice := fun (_ e : float) => (2 * e)%float in
  let keep := fun (_ : string) (_ : Canvas.source) (px : list Z) => px in
  let s := {| Camera.videoTracks := [7%nat]; Camera.audioTracks := [] |} in
  let a' := App.startCamera unit twice keep sample_app (Controls.Granted s)
              sample_video 1%nat in
  Camera.isRunning (App.camera unit a') = true /\
  Filters._running (App.filters unit a') = true /\
  Canvas.width (App.canvas unit a') = 1 /\
  Canvas.height (App.canvas unit a') = 1.
Proof.
  intros twice keep s a'.
  pose proof (startCamera_outcome unit twice keep sample_app
                (Controls.Granted s) sample_video 1%nat eq_refl eq_refl)
    as H.
  cbv zeta iota in H.
  destruct H as (H1 & _ & _ & _ & H5 & _ & _ & _ & _ & H10).
  destruct H10 as (Hw & Hh & _); [discriminate | discriminate |].
  split; [exact H1|]. split; [exact H5|]. split; [exact Hw | exact Hh].
Defined.

Lemma beforeunload_releases_everything_witness :
  let never := fun _ : nat => false in
  (App.beforeunload unit never sample_app).1 = Gallery.Normal /\
  UI._boundHandlers (App.ui unit (App.beforeunload unit never sample_app).2)
    = [].
Proof.
  intros never.
  destruct (beforeunload_releases_everything unit never sample_app []
              Camera.reachable_initial)
    as (H1 & _ & _ & _ & _ & _ & _ & _ & _ & H10 & _).
  split; [exact H1 | exact H10].
Defined.

Lemma hidden_page_pauses_and_resumes_witness :
  let twice := fun (_ e : float) => (2 * e)%float in
  let keep := fun (_ : string) (_ : Canvas.source) (px : list Z) => px in
  let s := {| Camera.videoTracks := [7%nat]; Camera.audioTracks := [] |} in
  let paused := App.visibilitychange unit twice keep sample_app true
                  (Controls.Granted s) sample_video 1%nat in
  let resumed := App.visibilitychange unit twice keep paused false
                   (Controls.Granted s) sample_video 2%nat in
  Filters._running (App.filters unit paused) = false /\
  Camera.isRunning (App.camera unit resumed) = true /\
  Filters._rafId (App.filters unit resumed) = Some 2%nat.
Proof.
  intros twice keep s paused resumed.
  pose proof (hidden_page_pauses_and_resumes unit twice keep sample_app []
                (Controls.Granted s) s sample_video sample_video 1%nat 2%nat
                Camera.reachable_initial) as H.
  cbv zeta in H.
  destruct H as (H1 & _ & _ & _ & _ & _ & _ & _ & _ & _ & _ & H12 & _ & _
                 & H15 & _).
  split; [exact H1|]. split; [exact H12 | exact H15].
Defined.

Lemma unload_after_boot_unbinds_interface_witness :
  let never := fun _ : nat => false in
  length (DOM.listeners (App.page unit sample_app)) = 7%nat /\
  DOM.listeners (App.page unit (App.beforeunload unit never sample_app).2)
    = app_listeners 8%nat 9%nat 5%nat.
Proof.
  intros never.
  pose proof (unload_after_boot_unbinds_interface unit never sample_elements
                8%nat 9%nat
                {| Canvas.width := 0; Canvas.height := 0;
                   Canvas.ctx := sample_context [] |}
                {| Gallery.next := 0; Gallery.live := ∅;
                   Gallery.revoke_calls := [] |}
                blank_page ltac:(constructor)) as H.
  cbv zeta in H. destruct H as (_ & H2 & _ & _ & H5 & _).
  fold sample_app in H2, H5.
  split; [now rewrite H2 | exact H5].
Defined.

Lemma retry_hides_overlay_until_refused_witness :
  let twice := fun (_ e : float) => (2 * e)%float in
  let keep := fun (_ : string) (_ : Canvas.source) (px : list Z) => px in
  let a' := App.onRetryPermission unit twice keep sample_app
              (Controls.Denied "NotAllowedError") sample_video 1%nat in
  ("hidden" ∉ DOM.classes (App.page unit a') 6%nat) /\
  Camera.isRunning (App.camera unit a') = false.
Proof.
  intros twice keep a'.
  pose proof (retry_hides_overlay_until_refused unit twice keep sample_app
                (Controls.Denied "NotAllowedError") sample_video 1%nat
                eq_refl eq_refl) as H.
  cbv zeta iota in H. destruct H as (H1 & H2 & _).
  split; [exact H1 | exact H2].
Defined.

(* ================================================================== *)
(** * The service worker: caches after activation *)
(* ================================================================== *)

Section Activation.
Import ServiceWorker.

Lemma purge_all (ks : list string) (caches : CacheStorage) (name : string) :
  foldl purge caches ks !! name
    = if bool_decide (name ∈ ks /\ name <> STATIC_CACHE) then None
      else caches !! name.
Proof.
  revert caches. induction ks as [|k ks IH]; intros caches.
  - cbn [foldl]. rewrite bool_decide_eq_false_2; [reflexivity|].
    intros [H _]. now apply not_elem_of_nil in H.
  - cbn [foldl]. rewrite IH. unfold purge.
    destruct (decide (name ∈ ks /\ name <> STATIC_CACHE)) as [Hin|Hout].
    + rewrite !bool_decide_eq_true_2; [reflexivity | | exact Hin].
      split; [apply elem_of_cons; right; apply Hin | apply Hin].
    + rewrite (bool_decide_eq_false_2 _ Hout).
      destruct (decide (k <> STATIC_CACHE)) as [Hk|Hk].
      * rewrite (bool_decide_eq_true_2 _ Hk).
        destruct (decide (name = k)) as [->|Hne].
        -- rewrite lookup_delete_eq, bool_decide_eq_true_2; [reflexivity|].
           split; [apply elem_of_cons; now left | exact Hk].
        -- rewrite lookup_delete_ne by congruence.
           rewrite bool_decide_eq_false_2; [reflexivity|].
           intros [Hin Hs]. apply Hout.
           apply elem_of_cons in Hin as [->|Hin]; [contradiction|].
           now split.
      * rewrite (bool_decide_eq_false_2 _ Hk).
        rewrite bool_decide_eq_false_2; [reflexivity|].
        intros [Hin Hs]. apply Hout.
        apply elem_of_cons in Hin as [->|Hin]; [contradiction|].
        now split.
Qed.

(** X25.  Activation purges the stale caches: afterwards the cache
    storage holds the static cache of this version, with the content it
    had, whenever it held it before, and no cache under any other
    name. *)
Theorem activate_keeps_static_cache_only (caches : CacheStorage)
    (name : string) :
  activate caches !! STATIC_CACHE = caches !! STATIC_CACHE /\
  (name <> STATIC_CACHE -> activate caches !! name = None) /\
  keys (activate caches)
    = match caches !! STATIC_CACHE with
      | Some _ => [STATIC_CACHE]
      | None => []
      end.
Proof.
  assert (Hother : forall n, n <> STATIC_CACHE -> activate caches !! n = None).
  { intros n Hn. unfold activate. rewrite purge_all.
    destruct (decide (n ∈ keys caches)) as [Hin|Hout].
    - rewrite bool_decide_eq_true_2; [reflexivity | now split].
    - rewrite bool_decide_eq_false_2 by tauto.
      unfold keys in Hout. rewrite elem_of_elements, elem_of_dom in Hout.
      destruct (caches !! n) eqn:E; [|reflexivity].
      exfalso. apply Hout. now eexists. }
  assert (Hstatic : activate caches !! STATIC_CACHE = caches !! STATIC_CACHE).
  { unfold activate. rewrite purge_all.
    rewrite bool_decide_eq_false_2; [reflexivity | tauto]. }
  split; [exact Hstatic|]. split; [apply Hother|].
  unfold keys.
  assert (Hdom : dom (activate caches)
    = match caches !! STATIC_CACHE with
      | Some _ => {[ STATIC_CACHE ]}
      | None => ∅
      end).
  { apply set_eq. intros n. rewrite elem_of_dom.
    destruct (decide (n = STATIC_CACHE)) as [->|Hn].
    - rewrite Hstatic. destruct (caches !! STATIC_CACHE) eqn:E.
      + rewrite elem_of_singleton. split; [reflexivity | now eexists].
      + split; [intros [x Hx]; discriminate Hx |].
        intros Hin. now apply elem_of_empty in Hin.
    - rewrite (Hother n Hn). split; [intros [x Hx]; discriminate Hx|].
      destruct (caches !! STATIC_CACHE).
      + rewrite elem_of_singleton. contradiction.
      + intros Hin. now apply elem_of_empty in Hin. }
  rewrite Hdom. destruct (caches !! STATIC_CACHE).
  - apply elements_singleton.
  - apply elements_empty.
Qed.

End Activation.
